(** * bit_queue: a bit-addressable circular buffer

    Shallow embedding of [src/bit_queue.c] and verification of its
    specification.

    Conventions of the embedding.
    - [size_t] is a 64-bit unsigned integer: a [Z] reduced by [sz] after
      every arithmetic operation; [uint8_t] is a [Z] reduced by [u8];
      a [size_t] stored into an [int] goes through [to_int] (two's
      complement truncation to 32 bits).
    - A byte buffer passed by pointer is an [option (list Z)]: [None] is the
      NULL pointer, the list holds the bytes the pointer addresses.  Source
      and destination never overlap.
    - An access outside the addressed bytes, or through a pointer to freed
      storage, has no defined result: the operation yields [Undef].
    - Loops carry fuel; a loop that exhausts it yields [OutOfFuel].
    - [errno] is returned next to the result: [Some e] when the call
      assigned [e], [None] when it left [errno] alone. *)

From Stdlib Require Import ZArith Lia Bool List.
From stdpp Require Import base option list gmap.

Local Open Scope Z_scope.

(** ** Machine integers *)

Definition SIZE_WIDTH : Z := 64.
Definition SIZE_MOD : Z := 2 ^ SIZE_WIDTH.
Definition SIZE_MAX : Z := SIZE_MOD - 1.
Definition INT_MAX : Z := 2 ^ 31 - 1.

(** Reduction to [size_t]. *)
Definition sz (x : Z) : Z := x mod SIZE_MOD.

(** Reduction to [uint8_t]. *)
Definition u8 (x : Z) : Z := x mod 256.

(** Conversion of an integer value to [int]. *)
Definition to_int (x : Z) : Z := (x + 2 ^ 31) mod 2 ^ 32 - 2 ^ 31.

(** The values a [size_t] variable can hold. *)
Definition is_size_t (x : Z) : Prop := 0 <= x <= SIZE_MAX.

Inductive errno : Type := EINVAL | EMSGSIZE | EAGAIN | ENOMEM.

(** ** Results of operations *)

Inductive outcome (A : Type) : Type :=
| Ret (a : A)
| Undef
| OutOfFuel.

Arguments Ret {A} a.
Arguments Undef {A}.
Arguments OutOfFuel {A}.

#[global] Instance outcome_ret : MRet outcome := fun A a => Ret a.
#[global] Instance outcome_bind : MBind outcome := fun A B f m =>
  match m with
  | Ret a => f a
  | Undef => Undef
  | OutOfFuel => OutOfFuel
  end.

(** [buff[i]] as an rvalue. *)
Definition load (buff : list Z) (i : Z) : outcome Z :=
  match buff !! Z.to_nat i with
  | Some b => Ret b
  | None => Undef
  end.

(** ** Macros *)

Definition BITS_IN_BYTE : Z := 8.
Definition BYTE_MASK : Z := 255.

Definition CREATE_BYTE_MASK (bit_offset : Z) : Z :=
  Z.land (Z.shiftl BYTE_MASK bit_offset) BYTE_MASK.

Definition CREATE_BYTE_MASK_LSB (bit_offset : Z) : Z :=
  Z.shiftr (CREATE_BYTE_MASK bit_offset) bit_offset.

(** ** The queue structure

    [struct _bit_queue_t].  The type parameter is what the [buffer] field
    stands for: the bytes it points to ([list Z]) in the functional layer,
    an address in the allocation layer. *)

Record bit_queue_t {B : Type} : Type := mk_bit_queue {
  buffer : option B;
  r_bit_offset : Z;
  r_byte_offset : Z;
  w_bit_offset : Z;
  w_byte_offset : Z;
  written_bits : Z;
  buffer_size : Z;
  free_buff : bool
}.

Arguments bit_queue_t : clear implicits.
Arguments mk_bit_queue {B}.

Abbreviation queue := (bit_queue_t (list Z)).

(** ** The transfer primitive *)

(** Local variables of the copy loop. *)
Record copy_state : Type := mk_copy_state {
  cs_dst_buff : list Z;
  cs_dst_byte_offset : Z;
  cs_dst_bit_offset : Z;
  cs_src_byte_offset : Z;
  cs_src_bit_offset : Z;
  cs_r_bits : Z
}.

(** The if / else-if / else that picks [offset_bit_count]. *)
Definition offset_bit_count_of (r_bits dst_bit_offset src_bit_offset : Z) : Z :=
  if (sz (r_bits + dst_bit_offset) <=? BITS_IN_BYTE)
     && (r_bits <=? sz (BITS_IN_BYTE - src_bit_offset))
  then sz (BITS_IN_BYTE - r_bits)
  else if dst_bit_offset >=? src_bit_offset
       then dst_bit_offset
       else src_bit_offset.

(** The value OR-ed into the destination byte. *)
Definition moved_bits (src_byte offset_bit_count src_bit_offset dst_bit_offset : Z) : Z :=
  Z.shiftl
    (Z.shiftr
       (Z.land src_byte
               (Z.shiftl (CREATE_BYTE_MASK_LSB offset_bit_count) src_bit_offset))
       src_bit_offset)
    dst_bit_offset.

(** One pass through the body of the do-while loop. *)
Definition copy_iter (src_buff : list Z) (st : copy_state) : outcome copy_state :=
  let offset_bit_count :=
    offset_bit_count_of (cs_r_bits st) (cs_dst_bit_offset st) (cs_src_bit_offset st) in
  s ← load src_buff (cs_src_byte_offset st);
  d ← load (cs_dst_buff st) (cs_dst_byte_offset st);
  let dst_buff :=
    <[Z.to_nat (cs_dst_byte_offset st) :=
        u8 (Z.lor d (moved_bits s offset_bit_count
                                (cs_src_bit_offset st) (cs_dst_bit_offset st)))]>
      (cs_dst_buff st) in
  let run := sz (BITS_IN_BYTE - offset_bit_count) in
  let src_bit_offset := sz (cs_src_bit_offset st + run) in
  let dst_bit_offset := u8 (sz (cs_dst_bit_offset st + run)) in
  let r_bits := sz (cs_r_bits st - run) in
  let '(src_bit_offset, src_byte_offset) :=
    if src_bit_offset =? BITS_IN_BYTE
    then (0, sz (cs_src_byte_offset st + 1))
    else (src_bit_offset, cs_src_byte_offset st) in
  let '(dst_bit_offset, dst_byte_offset) :=
    if dst_bit_offset =? BITS_IN_BYTE
    then (0, sz (cs_dst_byte_offset st + 1))
    else (dst_bit_offset, cs_dst_byte_offset st) in
  Ret (mk_copy_state dst_buff dst_byte_offset dst_bit_offset
                     src_byte_offset src_bit_offset r_bits).

(** The do-while loop: the body runs, then the condition [r_bits > 0]. *)
Fixpoint copy_loop (fuel : nat) (src_buff : list Z) (st : copy_state)
  : outcome copy_state :=
  match fuel with
  | O => OutOfFuel
  | S fuel' =>
      st' ← copy_iter src_buff st;
      if 0 <? cs_r_bits st' then copy_loop fuel' src_buff st' else Ret st'
  end.

(** [(buff_size - byte_offset) * BITS_IN_BYTE - bit_offset] in [size_t]. *)
Definition remaining_bits (buff_size byte_offset bit_offset : Z) : Z :=
  sz (sz (sz (buff_size - byte_offset) * BITS_IN_BYTE) - bit_offset).

(** The second branch of the if-chain: the size values that are refused. *)
Definition copy_args_invalid
  (dst_byte_offset dst_bit_offset dst_buff_size
   src_byte_offset src_bit_offset src_buff_size bit_count : Z) : bool :=
  (bit_count =? 0)
  || (dst_buff_size <? dst_byte_offset)
  || (src_buff_size <? src_byte_offset)
  || (dst_bit_offset >=? BITS_IN_BYTE)
  || (src_bit_offset >=? BITS_IN_BYTE)
  || (sz (src_buff_size * BITS_IN_BYTE) <? bit_count).

(** The clipping of [bit_count] at the head of the last branch. *)
Definition clip_bit_count
  (src_byte_offset src_bit_offset src_buff_size bit_count : Z) : Z :=
  if bit_count >? remaining_bits src_buff_size src_byte_offset src_bit_offset
  then remaining_bits src_buff_size src_byte_offset src_bit_offset
  else bit_count.

(** Result: the returned [int], the [errno] assigned, the destination. *)
Definition bit_queue_bit_buffer_copy
  (dst_buff src_buff : option (list Z))
  (dst_byte_offset dst_bit_offset dst_buff_size
   src_byte_offset src_bit_offset src_buff_size bit_count : Z)
  : outcome (Z * option errno * option (list Z)) :=
  match dst_buff, src_buff with
  | Some dst, Some src =>
      if copy_args_invalid dst_byte_offset dst_bit_offset dst_buff_size
                           src_byte_offset src_bit_offset src_buff_size bit_count
      then Ret (-1, Some EINVAL, dst_buff)
      else if remaining_bits dst_buff_size dst_byte_offset dst_bit_offset <? bit_count
      then Ret (-1, Some EMSGSIZE, dst_buff)
      else
        let bit_count :=
          clip_bit_count src_byte_offset src_bit_offset src_buff_size bit_count in
        st ← copy_loop (S (Z.to_nat bit_count)) src
             (mk_copy_state dst dst_byte_offset dst_bit_offset
                            src_byte_offset src_bit_offset bit_count);
        Ret (to_int bit_count, None, Some (cs_dst_buff st))
  | _, _ => Ret (-1, Some EINVAL, dst_buff)
  end.

(** ** Capacity queries *)

Definition bit_queue_has_space (bq : option queue) (bit_count : Z)
  : bool * option errno :=
  match bq with
  | None => (false, Some EINVAL)
  | Some q =>
      (sz (sz (buffer_size q * BITS_IN_BYTE) - written_bits q) >=? bit_count, None)
  end.

Definition bit_queue_has_data (bq : option queue) (bit_count : Z)
  : bool * option errno :=
  match bq with
  | None => (false, Some EINVAL)
  | Some q => (written_bits q >=? bit_count, None)
  end.

(** ** Construction (functional layer)

    The queue a successful constructor call hands back, with the bytes of
    its buffer in place of the pointer.  [None] is the NULL result.  The
    allocation itself, and its failure, are in [Alloc] below. *)

Definition bit_queue_base_init (byte_count : Z) : option queue * option errno :=
  if byte_count =? 0 then (None, Some EINVAL)
  else (Some (mk_bit_queue (Some (replicate (Z.to_nat byte_count) 0))
                           0 0 0 0 0 byte_count true), None).

Definition bit_queue_init (buff : option (list Z)) (byte_count : Z) (free_buff : bool)
  : option queue * option errno :=
  match buff with
  | Some b =>
      if byte_count =? 0 then (None, Some EINVAL)
      else (Some (mk_bit_queue (Some b) 0 0 0 0
                               (sz (byte_count * BITS_IN_BYTE)) byte_count free_buff),
            None)
  | None => (None, Some EINVAL)
  end.

(** ** Reading and writing *)

(** Result of a queue operation: returned [int], [errno] assigned, the
    queue structure and the caller's buffer afterwards. *)
Definition op_result : Type := Z * option errno * option queue * option (list Z).

Definition set_read_cursor (q : queue) (bit byte written : Z) : queue :=
  mk_bit_queue (buffer q) bit byte (w_bit_offset q) (w_byte_offset q)
               written (buffer_size q) (free_buff q).

Definition set_write_cursor (q : queue) (buf : option (list Z)) (bit byte written : Z)
  : queue :=
  mk_bit_queue buf (r_bit_offset q) (r_byte_offset q) bit byte
               written (buffer_size q) (free_buff q).

(** The three statements that move a cursor by [ret_val] bits:
    [bit += ret_val; byte += bit / BITS_IN_BYTE; bit = bit % BITS_IN_BYTE],
    the bit offset being a [uint8_t]. *)
Definition advance_cursor (byte_offset bit_offset ret_val : Z) : Z * Z :=
  let bit_offset := u8 (bit_offset + ret_val) in
  let byte_offset := sz (byte_offset + bit_offset / BITS_IN_BYTE) in
  let bit_offset := u8 (bit_offset mod BITS_IN_BYTE) in
  (byte_offset, bit_offset).

(** Wrap-around of the read cursor: both offsets are reset. *)
Definition wrap_read_cursor (size : Z) (c : Z * Z) : Z * Z :=
  if fst c =? size then (0, 0) else c.

(** Wrap-around of the write cursor: the byte offset is reset (twice), the
    bit offset is left alone. *)
Definition wrap_write_cursor (size : Z) (c : Z * Z) : Z * Z :=
  if fst c =? size then (0, snd c) else c.

(** The do-while loop of [bit_queue_read_bits]. *)
Fixpoint read_loop (fuel : nat) (q : queue) (buf : list Z)
  (buf_size b_byte_offset b_bit_offset r_bits : Z)
  : outcome (Z * option errno * queue * list Z) :=
  match fuel with
  | O => OutOfFuel
  | S fuel' =>
      '(ret_val, e, dst) ←
        bit_queue_bit_buffer_copy (Some buf) (buffer q)
          b_byte_offset b_bit_offset buf_size
          (r_byte_offset q) (r_bit_offset q) (buffer_size q) r_bits;
      let buf := default buf dst in
      if ret_val =? -1 then Ret (ret_val, e, q, buf)
      else
        let '(b_byte_offset, b_bit_offset) :=
          advance_cursor b_byte_offset b_bit_offset ret_val in
        let '(r_byte, r_bit) :=
          wrap_read_cursor (buffer_size q)
            (advance_cursor (r_byte_offset q) (r_bit_offset q) ret_val) in
        let q := set_read_cursor q r_bit r_byte (sz (written_bits q - sz ret_val)) in
        let r_bits := sz (r_bits - sz ret_val) in
        if 0 <? r_bits
        then read_loop fuel' q buf buf_size b_byte_offset b_bit_offset r_bits
        else Ret (ret_val, e, q, buf)
  end.

Definition bit_queue_read_bits (bq : option queue) (buf : option (list Z))
  (buf_size bit_count : Z) : outcome op_result :=
  match bq, buf with
  | Some q, Some b =>
      if (bit_count =? 0) || (sz (buf_size * BITS_IN_BYTE) <? bit_count)
      then Ret (-1, Some EINVAL, bq, buf)
      else match buffer q with
      | None => Ret (-1, Some EINVAL, bq, buf)
      | Some _ =>
          if bit_count >? sz (buffer_size q * BITS_IN_BYTE)
          then Ret (-1, Some EMSGSIZE, bq, buf)
          else if negb (fst (bit_queue_has_data bq bit_count))
          then Ret (-1, Some EAGAIN, bq, buf)
          else
            '(ret_val, e, q', b') ←
              read_loop (S (Z.to_nat bit_count)) q b buf_size 0 0 bit_count;
            Ret (if ret_val =? -1 then ret_val else to_int bit_count,
                 e, Some q', Some b')
      end
  | _, _ => Ret (-1, Some EINVAL, bq, buf)
  end.

(** The do-while loop of [bit_queue_write_bits]. *)
Fixpoint write_loop (fuel : nat) (q : queue) (buf : list Z)
  (buf_size b_byte_offset b_bit_offset r_bits : Z)
  : outcome (Z * option errno * queue) :=
  match fuel with
  | O => OutOfFuel
  | S fuel' =>
      '(ret_val, e, dst) ←
        bit_queue_bit_buffer_copy (buffer q) (Some buf)
          (w_byte_offset q) (w_bit_offset q) (buffer_size q)
          b_byte_offset b_bit_offset buf_size r_bits;
      let q := set_write_cursor q dst (w_bit_offset q) (w_byte_offset q)
                                (written_bits q) in
      if ret_val =? -1 then Ret (ret_val, e, q)
      else
        let '(b_byte_offset, b_bit_offset) :=
          advance_cursor b_byte_offset b_bit_offset ret_val in
        let '(w_byte, w_bit) :=
          wrap_write_cursor (buffer_size q)
            (advance_cursor (w_byte_offset q) (w_bit_offset q) ret_val) in
        let q := set_write_cursor q (buffer q) w_bit w_byte
                                  (sz (written_bits q + sz ret_val)) in
        let r_bits := sz (r_bits - sz ret_val) in
        if 0 <? r_bits
        then write_loop fuel' q buf buf_size b_byte_offset b_bit_offset r_bits
        else Ret (ret_val, e, q)
  end.

Definition bit_queue_write_bits (bq : option queue) (buf : option (list Z))
  (buf_size bit_count : Z) : outcome op_result :=
  match bq, buf with
  | Some q, Some b =>
      if (bit_count =? 0) || (sz (buf_size * BITS_IN_BYTE) <? bit_count)
      then Ret (-1, Some EINVAL, bq, buf)
      else match buffer q with
      | None => Ret (-1, Some EINVAL, bq, buf)
      | Some _ =>
          if bit_count >? sz (buffer_size q * BITS_IN_BYTE)
          then Ret (-1, Some EMSGSIZE, bq, buf)
          else if negb (fst (bit_queue_has_space bq bit_count))
          then Ret (-1, Some EAGAIN, bq, buf)
          else
            '(ret_val, e, q') ←
              write_loop (S (Z.to_nat bit_count)) q b buf_size 0 0 bit_count;
            Ret (if ret_val =? -1 then ret_val else to_int bit_count,
                 e, Some q', buf)
      end
  | _, _ => Ret (-1, Some EINVAL, bq, buf)
  end.

(** * Notions used by the specification *)

(** ** Bit-level view of a buffer

    Bits are numbered least significant first within each byte: bit [j] of
    a buffer is bit [j mod 8] of byte [j / 8]. *)

Definition bit_at (buff : list Z) (j : Z) : bool :=
  match buff !! Z.to_nat (j / 8) with
  | Some b => (0 <=? j) && Z.testbit b (j mod 8)
  | None => false
  end.

(** Position of a cursor in bits. *)
Definition bitpos (byte_offset bit_offset : Z) : Z := 8 * byte_offset + bit_offset.

(** The length of the run moved by one pass of the copy loop. *)
Definition run_length (dst_bit_offset src_bit_offset r_bits : Z) : Z :=
  Z.min (Z.min (8 - dst_bit_offset) (8 - src_bit_offset)) r_bits.

(** ** States of the copy loop *)

(** What the loop needs of its local variables: bit offsets inside a byte,
    a [size_t] remaining count that came through the validity checks. *)
Definition copy_wf (st : copy_state) : Prop :=
  0 <= cs_dst_bit_offset st < 8
  /\ 0 <= cs_src_bit_offset st < 8
  /\ 0 <= cs_r_bits st <= SIZE_MOD - 8
  /\ 0 <= cs_dst_byte_offset st
  /\ 0 <= cs_src_byte_offset st.

(** Cursor after a run of [run] bits: roll over to the next byte at 8. *)
Definition roll (byte_offset bit_offset run : Z) : Z * Z :=
  if bit_offset + run =? 8 then (byte_offset + 1, 0)
  else (byte_offset, bit_offset + run).

(** [dst'] is [dst] with the [n] bits of [src] from bit [spos] OR-ed in
    from bit [dpos] on; every other bit of [dst], and its length, stay. *)
Definition bits_copied (dst src : list Z) (dpos spos n : Z) (dst' : list Z) : Prop :=
  length dst' = length dst
  /\ forall j,
       bit_at dst' j
       = bit_at dst j
         || ((dpos <=? j) && (j <? dpos + n) && bit_at src (j - dpos + spos)).

(** ** States of a queue *)

(** The state invariant of a queue. *)
Definition queue_inv (q : queue) : Prop :=
  0 <= r_byte_offset q < buffer_size q
  /\ 0 <= r_bit_offset q < 8
  /\ 0 <= w_byte_offset q < buffer_size q
  /\ 0 <= w_bit_offset q < 8
  /\ 0 <= written_bits q <= buffer_size q * 8.

(** The states a queue goes through: made by one of the two
    constructors, then taken through any calls of [bit_queue_read_bits]
    and [bit_queue_write_bits], whatever they return. *)
Inductive reachable : queue -> Prop :=
| reach_base_init byte_count q :
    is_size_t byte_count ->
    fst (bit_queue_base_init byte_count) = Some q ->
    reachable q
| reach_init buff byte_count fb q :
    is_size_t byte_count ->
    fst (bit_queue_init buff byte_count fb) = Some q ->
    reachable q
| reach_read q buf buf_size bit_count ret e q' buf' :
    reachable q ->
    is_size_t buf_size -> is_size_t bit_count ->
    bit_queue_read_bits (Some q) buf buf_size bit_count = Ret (ret, e, Some q', buf') ->
    reachable q'
| reach_write q buf buf_size bit_count ret e q' buf' :
    reachable q ->
    is_size_t buf_size -> is_size_t bit_count ->
    bit_queue_write_bits (Some q) buf buf_size bit_count = Ret (ret, e, Some q', buf') ->
    reachable q'.

(** Where a cursor stands after [n] bits that end at or before the end of
    the ring, the [uint8_t] bit offset not overflowing. *)
Definition cursor_at (size pos : Z) : Z * Z :=
  if pos =? 8 * size then (0, 0) else (pos / 8, pos mod 8).

(** ** Scenarios *)

(** The scenario of the example: a 2-byte buffer holding 0xAA 0xAA wrapped
    without ownership and read for 8 bits; a fresh owned 2-byte queue
    written with the same 16 bits, then read for 5 bits and for 1 bit.
    Every read goes into a cleared 2-byte destination; the three
    destinations are the result. *)
Definition example_scenario : outcome (list Z * list Z * list Z) :=
  let bq1 := fst (bit_queue_init (Some [170; 170]) 2 false) in
  let bq2 := fst (bit_queue_base_init 2) in
  '(_, _, bq2, _) ← bit_queue_write_bits bq2 (Some [170; 170]) 2 16;
  '(_, _, _, m1) ← bit_queue_read_bits bq1 (Some [0; 0]) 2 8;
  '(_, _, bq2, m2) ← bit_queue_read_bits bq2 (Some [0; 0]) 2 5;
  '(_, _, _, m3) ← bit_queue_read_bits bq2 (Some [0; 0]) 2 1;
  Ret (default [] m1, default [] m2, default [] m3).

(** ** Round trips

    A bit sequence is a [list bool].  A chunk is handed to
    [bit_queue_write_bits] packed least significant bit first in a buffer
    of just enough bytes; a chunk is read with [bit_queue_read_bits] into
    a cleared buffer of just enough bytes and unpacked the same way. *)

Fixpoint byte_of_bits (bits : list bool) : Z :=
  match bits with
  | [] => 0
  | b :: bits' => Z.b2z b + 2 * byte_of_bits bits'
  end.

Definition bytes_needed (n : nat) : nat := Nat.div (n + 7) 8.

Definition bits_to_bytes (bits : list bool) : list Z :=
  map (fun i => byte_of_bits (take 8 (drop (8 * i) bits)))
      (seq 0 (bytes_needed (length bits))).

Definition bytes_to_bits (n : nat) (bytes : list Z) : list bool :=
  map (fun j => bit_at bytes (Z.of_nat j)) (seq 0 n).

(** Writes the chunks in order; the values returned by the calls and the
    queue afterwards. *)
Fixpoint write_chunks (bq : option queue) (chunks : list (list bool))
  : outcome (list Z * option queue) :=
  match chunks with
  | [] => Ret ([], bq)
  | c :: chunks' =>
      let src := bits_to_bytes c in
      '(ret, _, bq, _) ←
        bit_queue_write_bits bq (Some src) (Z.of_nat (length src))
                             (Z.of_nat (length c));
      '(rets, bq) ← write_chunks bq chunks';
      Ret (ret :: rets, bq)
  end.

(** Reads chunks of the given sizes in order; the values returned by the
    calls, the bits delivered and the queue afterwards. *)
Fixpoint read_chunks (bq : option queue) (sizes : list nat)
  : outcome (list Z * list bool * option queue) :=
  match sizes with
  | [] => Ret ([], [], bq)
  | k :: sizes' =>
      let dst := replicate (bytes_needed k) 0 in
      '(ret, _, bq, dst) ←
        bit_queue_read_bits bq (Some dst) (Z.of_nat (length dst)) (Z.of_nat k);
      '(rets, bits, bq) ← read_chunks bq sizes';
      Ret (ret :: rets, bytes_to_bits k (default [] dst) ++ bits, bq)
  end.

(** Bit [j] of a bit sequence, [false] off its ends. *)
Definition bit_of (s : list bool) (j : Z) : bool :=
  (0 <=? j) && default false (s !! Z.to_nat j).

(** The state of a queue of [size] bytes that has taken the bit sequence
    [s] from bit 0 of its ring and has given out the first [r] bits. *)
Definition holds (q : queue) (size : Z) (s : list bool) (r : nat) : Prop :=
  exists ring,
    buffer q = Some ring
    /\ Z.of_nat (length ring) = size
    /\ buffer_size q = size
    /\ (forall j, bit_at ring j = bit_of s j)
    /\ (r <= length s)%nat
    /\ Z.of_nat (length s) <= 8 * size
    /\ written_bits q = Z.of_nat (length s) - Z.of_nat r
    /\ (w_byte_offset q, w_bit_offset q) = cursor_at size (Z.of_nat (length s))
    /\ (r_byte_offset q, r_bit_offset q) = cursor_at size (Z.of_nat r).

(** ** Allocation layer: construction and destruction

    The heap holds the live allocations: byte buffers and queue
    structures, by address.  [calloc] answers with a fresh address, or
    with NULL when the allocator refuses ([ok = false]); [free] of an
    address that is not live is undefined, and so is any access through
    such an address. *)

Module Alloc.

Definition addr : Type := positive.

Inductive block : Type :=
| Bytes (bs : list Z)
| Queue (q : bit_queue_t addr).

Abbreviation heap := (gmap addr block).

Definition calloc (ok : bool) (h : heap) (b : block) : option addr * heap :=
  if ok then let p := fresh (dom h) in (Some p, <[p := b]> h) else (None, h).

Definition free (h : heap) (p : addr) : outcome heap :=
  match h !! p with
  | Some _ => Ret (delete p h)
  | None => Undef
  end.

(** Result: the pointer returned, the [errno] assigned, the heap. *)
Definition bit_queue_base_init (ok_bq ok_buffer : bool) (h : heap) (byte_count : Z)
  : option addr * option errno * heap :=
  if byte_count =? 0 then (None, Some EINVAL, h)
  else
    match calloc ok_bq h (Queue (mk_bit_queue None 0 0 0 0 0 0 false)) with
    | (None, h) => (None, Some ENOMEM, h)
    | (Some bq, h) =>
        match calloc ok_buffer h (Bytes (replicate (Z.to_nat byte_count) 0)) with
        | (None, h) => (None, Some ENOMEM, delete bq h)
        | (Some b, h) =>
            (Some bq, None,
             <[bq := Queue (mk_bit_queue (Some b) 0 0 0 0 0 byte_count true)]> h)
        end
    end.

Definition bit_queue_init (ok_bq : bool) (h : heap) (buff : option addr)
  (byte_count : Z) (free_buff : bool) : option addr * option errno * heap :=
  match buff with
  | Some b =>
      if byte_count =? 0 then (None, Some EINVAL, h)
      else
        match calloc ok_bq h (Queue (mk_bit_queue None 0 0 0 0 0 0 false)) with
        | (None, h) => (None, Some ENOMEM, h)
        | (Some bq, h) =>
            (Some bq, None,
             <[bq := Queue (mk_bit_queue (Some b) 0 0 0 0
                                         (sz (byte_count * BITS_IN_BYTE))
                                         byte_count free_buff)]> h)
        end
  | None => (None, Some EINVAL, h)
  end.

(** Result: the returned [int], the [errno] assigned, the heap. *)
Definition bit_queue_destroy (h : heap) (bq : option addr)
  : outcome (Z * option errno * heap) :=
  match bq with
  | None => Ret (-1, Some EINVAL, h)
  | Some p =>
      match h !! p with
      | Some (Queue q) =>
          match buffer q with
          | None => Ret (-1, Some EINVAL, h)
          | Some b =>
              h ← (if free_buff q then free h b else Ret h);
              let h :=
                <[p := Queue (mk_bit_queue None (r_bit_offset q) (r_byte_offset q)
                                           (w_bit_offset q) (w_byte_offset q)
                                           (written_bits q) (buffer_size q)
                                           (free_buff q))]> h in
              h ← free h p;
              Ret (0, None, h)
          end
      | _ => Undef
      end
  end.

(** The queue at [p] as the functional layer sees it: the structure
    with the bytes of its buffer in place of the pointer. *)
Definition load_queue (h : heap) (p : addr) : option queue :=
  match h !! p with
  | Some (Queue q) =>
      match buffer q with
      | Some b =>
          match h !! b with
          | Some (Bytes bs) =>
              Some (mk_bit_queue (Some bs) (r_bit_offset q) (r_byte_offset q)
                                 (w_bit_offset q) (w_byte_offset q)
                                 (written_bits q) (buffer_size q) (free_buff q))
          | _ => None
          end
      | None =>
          Some (mk_bit_queue None (r_bit_offset q) (r_byte_offset q)
                             (w_bit_offset q) (w_byte_offset q)
                             (written_bits q) (buffer_size q) (free_buff q))
      end
  | _ => None
  end.

End Alloc.

(** ** Tactics *)

(** Case analysis on every integer comparison of the goal. *)
Ltac zbool :=
  repeat match goal with
         | |- context [?a <=? ?b] => destruct (Z.leb_spec a b)
         | |- context [?a <? ?b] => destruct (Z.ltb_spec a b)
         end;
  simpl; rewrite ?orb_false_r, ?andb_false_r;
  try reflexivity; try (exfalso; lia).

(** Projections of a queue structure applied to a record. *)
Ltac queue_fields :=
  cbn [buffer r_bit_offset r_byte_offset w_bit_offset w_byte_offset
       written_bits buffer_size free_buff].

(** Closed comparisons of integers, by evaluation. *)
Ltac zclosed :=
  vm_compute; first [reflexivity | congruence | split; congruence].

(** * Verification *)

(** ** Machine integers *)

Lemma SIZE_MOD_val : SIZE_MOD = 18446744073709551616.
Proof. reflexivity. Qed.

Lemma INT_MAX_val : INT_MAX = 2147483647.
Proof. reflexivity. Qed.

Lemma sz_small x : 0 <= x < SIZE_MOD -> sz x = x.
Proof. intros H. unfold sz. now apply Z.mod_small. Qed.

Lemma sz_range x : 0 <= sz x < SIZE_MOD.
Proof. unfold sz. apply Z.mod_pos_bound. rewrite SIZE_MOD_val. lia. Qed.

Lemma u8_small x : 0 <= x < 256 -> u8 x = x.
Proof. intros H. unfold u8. now apply Z.mod_small. Qed.

Lemma u8_range x : 0 <= u8 x < 256.
Proof. unfold u8. apply Z.mod_pos_bound. lia. Qed.

Lemma u8_le x : 0 <= x -> u8 x <= x.
Proof. intros H. unfold u8. apply Z.mod_le; lia. Qed.

Lemma to_int_small x : - 2 ^ 31 <= x <= INT_MAX -> to_int x = x.
Proof.
  rewrite INT_MAX_val. intros H. unfold to_int.
  rewrite Z.mod_small; lia.
Qed.

Lemma sz_mul8_le x : sz (x * BITS_IN_BYTE) <= SIZE_MOD - 8.
Proof.
  unfold sz, BITS_IN_BYTE. rewrite SIZE_MOD_val.
  Z.div_mod_to_equations. lia.
Qed.

Lemma mask_lsb_ones k :
  0 <= k <= 8 -> CREATE_BYTE_MASK_LSB k = Z.ones (8 - k).
Proof.
  intros H.
  assert (Hk : k = 0 \/ k = 1 \/ k = 2 \/ k = 3 \/ k = 4 \/ k = 5 \/ k = 6
               \/ k = 7 \/ k = 8) by lia.
  destruct Hk as [->|[->|[->|[->|[->|[->|[->|[->| ->]]]]]]]]; reflexivity.
Qed.

Lemma offset_bit_count_range r d s :
  0 <= r <= SIZE_MOD - 8 -> 0 <= d < 8 -> 0 <= s < 8 ->
  0 <= offset_bit_count_of r d s <= 8
  /\ sz (BITS_IN_BYTE - offset_bit_count_of r d s) = run_length d s r.
Proof.
  rewrite SIZE_MOD_val. intros Hr Hd Hs.
  unfold offset_bit_count_of, run_length, BITS_IN_BYTE.
  rewrite (sz_small (r + d)) by (rewrite SIZE_MOD_val; lia).
  rewrite (sz_small (8 - s)) by (rewrite SIZE_MOD_val; lia).
  destruct (Z.leb_spec (r + d) 8); destruct (Z.leb_spec r (8 - s)); simpl.
  - rewrite (sz_small (8 - r)) by (rewrite SIZE_MOD_val; lia).
    rewrite sz_small by (rewrite SIZE_MOD_val; lia). lia.
  - destruct (Z.geb_spec d s); rewrite sz_small by (rewrite SIZE_MOD_val; lia); lia.
  - destruct (Z.geb_spec d s); rewrite sz_small by (rewrite SIZE_MOD_val; lia); lia.
  - destruct (Z.geb_spec d s); rewrite sz_small by (rewrite SIZE_MOD_val; lia); lia.
Qed.

Lemma moved_bits_testbit s obc so do k :
  0 <= obc <= 8 -> 0 <= so -> 0 <= do -> 0 <= k ->
  Z.testbit (moved_bits s obc so do) k
  = (do <=? k) && (k - do <? 8 - obc) && Z.testbit s (k - do + so).
Proof.
  intros Hobc Hso Hdo Hk. unfold moved_bits.
  rewrite mask_lsb_ones by assumption.
  rewrite Z.shiftl_spec by assumption.
  destruct (Z.leb_spec do k) as [Hle|Hlt]; simpl.
  - rewrite Z.shiftr_spec by lia.
    rewrite Z.land_spec, Z.shiftl_spec by lia.
    replace (k - do + so - so) with (k - do) by lia.
    rewrite Z.testbit_ones_nonneg by lia.
    destruct (Z.ltb_spec (k - do) (8 - obc)); simpl;
      [apply andb_true_r | apply andb_false_r].
  - apply Z.testbit_neg_r. lia.
Qed.

(** ** One pass of the copy loop *)

Lemma load_Ret buff i b : load buff i = Ret b -> buff !! Z.to_nat i = Some b.
Proof. unfold load. destruct (buff !! Z.to_nat i); congruence. Qed.

Lemma bind_Ret {A B} (m : outcome A) (f : A -> outcome B) b :
  m ≫= f = Ret b -> exists a, m = Ret a /\ f a = Ret b.
Proof. destruct m; simpl; intros H; try discriminate. eauto. Qed.

Lemma copy_iter_spec src st st1 :
  copy_wf st ->
  Z.of_nat (length (cs_dst_buff st)) < SIZE_MOD ->
  Z.of_nat (length src) < SIZE_MOD ->
  copy_iter src st = Ret st1 ->
  let run := run_length (cs_dst_bit_offset st) (cs_src_bit_offset st) (cs_r_bits st) in
  exists s d,
    src !! Z.to_nat (cs_src_byte_offset st) = Some s
    /\ cs_dst_buff st !! Z.to_nat (cs_dst_byte_offset st) = Some d
    /\ cs_dst_buff st1
       = <[Z.to_nat (cs_dst_byte_offset st) :=
             u8 (Z.lor d (moved_bits s (8 - run) (cs_src_bit_offset st)
                                     (cs_dst_bit_offset st)))]> (cs_dst_buff st)
    /\ cs_r_bits st1 = cs_r_bits st - run
    /\ (cs_dst_byte_offset st1, cs_dst_bit_offset st1)
       = roll (cs_dst_byte_offset st) (cs_dst_bit_offset st) run
    /\ (cs_src_byte_offset st1, cs_src_bit_offset st1)
       = roll (cs_src_byte_offset st) (cs_src_bit_offset st) run.
Proof.
  intros (Hd & Hs & Hr & Hdb & Hsb) Hld Hls Hit run.
  unfold copy_iter in Hit.
  apply bind_Ret in Hit as (s & Hsl & Hit).
  apply bind_Ret in Hit as (d & Hdl & Hit).
  apply load_Ret in Hsl, Hdl.
  pose proof (lookup_lt_Some _ _ _ Hsl) as Hsi.
  pose proof (lookup_lt_Some _ _ _ Hdl) as Hdi.
  destruct (offset_bit_count_range _ _ _ Hr Hd Hs) as (Hobc & Hrun).
  fold run in Hrun.
  assert (Hrr : 0 <= run <= 8 /\ run <= 8 - cs_dst_bit_offset st
                /\ run <= 8 - cs_src_bit_offset st /\ run <= cs_r_bits st)
    by (unfold run, run_length; lia).
  set (obc := offset_bit_count_of _ _ _) in *.
  assert (Hobc' : obc = 8 - run).
  { rewrite <- Hrun. unfold BITS_IN_BYTE. rewrite sz_small; [lia|].
    rewrite SIZE_MOD_val. lia. }
  rewrite Hrun in Hit.
  rewrite SIZE_MOD_val in *.
  rewrite (sz_small (cs_src_bit_offset st + run)) in Hit
    by (rewrite SIZE_MOD_val; lia).
  rewrite (sz_small (cs_dst_bit_offset st + run)) in Hit
    by (rewrite SIZE_MOD_val; lia).
  rewrite (u8_small (cs_dst_bit_offset st + run)) in Hit by lia.
  rewrite (sz_small (cs_r_bits st - run)) in Hit by (rewrite SIZE_MOD_val; lia).
  rewrite (sz_small (cs_src_byte_offset st + 1)) in Hit
    by (rewrite SIZE_MOD_val; lia).
  rewrite (sz_small (cs_dst_byte_offset st + 1)) in Hit
    by (rewrite SIZE_MOD_val; lia).
  exists s, d. unfold roll, BITS_IN_BYTE in *.
  destruct (cs_src_bit_offset st + run =? 8);
    destruct (cs_dst_bit_offset st + run =? 8);
    injection Hit as <-; simpl; rewrite Hobc'; repeat split; assumption.
Qed.

Lemma roll_bitpos byte_offset bit_offset run :
  bitpos (fst (roll byte_offset bit_offset run)) (snd (roll byte_offset bit_offset run))
  = bitpos byte_offset bit_offset + run.
Proof.
  unfold roll, bitpos.
  destruct (Z.eqb_spec (bit_offset + run) 8); simpl; lia.
Qed.

Lemma bit_at_neg buff j : j < 0 -> bit_at buff j = false.
Proof.
  intros H. unfold bit_at. destruct (buff !! _); [|reflexivity].
  destruct (Z.leb_spec 0 j); [lia | reflexivity].
Qed.

Lemma bit_at_byte buff q k b :
  0 <= q -> 0 <= k < 8 -> buff !! Z.to_nat q = Some b ->
  bit_at buff (8 * q + k) = Z.testbit b k.
Proof.
  intros Hq Hk Hb. unfold bit_at.
  replace ((8 * q + k) / 8) with q by (Z.div_mod_to_equations; lia).
  replace ((8 * q + k) mod 8) with k by (Z.div_mod_to_equations; lia).
  rewrite Hb. destruct (Z.leb_spec 0 (8 * q + k)); [reflexivity | lia].
Qed.

Lemma testbit_u8 x k : 0 <= k < 8 -> Z.testbit (u8 x) k = Z.testbit x k.
Proof.
  intros H. unfold u8. change 256 with (2 ^ 8).
  apply Z.mod_pow2_bits_low. lia.
Qed.

(** A store to byte [q] that ORs [m] in: the bits of the other bytes stay,
    those of byte [q] take the bits of [m] in addition. *)
Lemma bit_at_insert_or buff q d m j :
  0 <= q -> buff !! Z.to_nat q = Some d ->
  bit_at (<[Z.to_nat q := u8 (Z.lor d m)]> buff) j
  = bit_at buff j
    || ((8 * q <=? j) && (j <? 8 * q + 8) && Z.testbit m (j - 8 * q)).
Proof.
  intros Hq Hd.
  destruct (Z.ltb_spec j 0) as [Hneg|Hpos].
  { rewrite !bit_at_neg by lia.
    destruct (Z.leb_spec (8 * q) j); [lia | reflexivity]. }
  pose proof (lookup_lt_Some _ _ _ Hd) as Hlt.
  destruct (Z.eq_dec (j / 8) q) as [Heq|Hne].
  - assert (Hj : j = 8 * q + j mod 8) by (Z.div_mod_to_equations; lia).
    assert (Hk : 0 <= j mod 8 < 8) by (Z.div_mod_to_equations; lia).
    rewrite Hj at 1 2.
    rewrite (bit_at_byte _ q (j mod 8) (u8 (Z.lor d m))); try lia.
    2: { apply list_lookup_insert_eq. lia. }
    rewrite (bit_at_byte _ q (j mod 8) d) by (assumption || lia).
    rewrite testbit_u8, Z.lor_spec by lia.
    replace (j - 8 * q) with (j mod 8) by lia.
    destruct (Z.leb_spec (8 * q) j); destruct (Z.ltb_spec j (8 * q + 8));
      try lia; reflexivity.
  - unfold bit_at at 1 2.
    rewrite list_lookup_insert_ne by (intros E; apply Z2Nat.inj in E;
      [congruence | lia | Z.div_mod_to_equations; lia]).
    destruct (Z.leb_spec (8 * q) j); destruct (Z.ltb_spec j (8 * q + 8));
      simpl; rewrite ?orb_false_r; try reflexivity.
    exfalso. apply Hne. Z.div_mod_to_equations; lia.
Qed.

Lemma copy_iter_bits src st st1 :
  copy_wf st ->
  Z.of_nat (length (cs_dst_buff st)) < SIZE_MOD ->
  Z.of_nat (length src) < SIZE_MOD ->
  copy_iter src st = Ret st1 ->
  let run := run_length (cs_dst_bit_offset st) (cs_src_bit_offset st) (cs_r_bits st) in
  let dpos := bitpos (cs_dst_byte_offset st) (cs_dst_bit_offset st) in
  let spos := bitpos (cs_src_byte_offset st) (cs_src_bit_offset st) in
  forall j,
    bit_at (cs_dst_buff st1) j
    = bit_at (cs_dst_buff st) j
      || ((dpos <=? j) && (j <? dpos + run) && bit_at src (j - dpos + spos)).
Proof.
  intros Hwf Hld Hls Hit run dpos spos j.
  destruct (copy_iter_spec _ _ _ Hwf Hld Hls Hit)
    as (s & d & Hs & Hd & Hdst & _).
  destruct Hwf as (Hdb & Hsb & Hr & Hdy & Hsy).
  fold run in Hdst.
  assert (Hrr : 0 <= run <= 8 /\ run <= 8 - cs_dst_bit_offset st
                /\ run <= 8 - cs_src_bit_offset st)
    by (unfold run, run_length; lia).
  rewrite Hdst, bit_at_insert_or by assumption.
  f_equal. unfold dpos, spos, bitpos.
  set (q := cs_dst_byte_offset st) in *. set (db := cs_dst_bit_offset st) in *.
  set (p := cs_src_byte_offset st) in *. set (sb := cs_src_bit_offset st) in *.
  destruct (Z.leb_spec (8 * q) j); destruct (Z.ltb_spec j (8 * q + 8)); simpl;
    [rewrite moved_bits_testbit by lia; replace (8 - (8 - run)) with run by lia | ..];
    zbool.
  replace (j - (8 * q + db) + (8 * p + sb)) with (8 * p + (j - 8 * q - db + sb)) by lia.
  symmetry. apply bit_at_byte; [lia | lia | assumption].
Qed.

(** ** The copy loop as a whole *)

Lemma copy_iter_wf src st st1 :
  copy_wf st ->
  Z.of_nat (length (cs_dst_buff st)) < SIZE_MOD ->
  Z.of_nat (length src) < SIZE_MOD ->
  copy_iter src st = Ret st1 ->
  let run := run_length (cs_dst_bit_offset st) (cs_src_bit_offset st) (cs_r_bits st) in
  copy_wf st1
  /\ length (cs_dst_buff st1) = length (cs_dst_buff st)
  /\ cs_r_bits st1 = cs_r_bits st - run
  /\ bitpos (cs_dst_byte_offset st1) (cs_dst_bit_offset st1)
     = bitpos (cs_dst_byte_offset st) (cs_dst_bit_offset st) + run
  /\ bitpos (cs_src_byte_offset st1) (cs_src_bit_offset st1)
     = bitpos (cs_src_byte_offset st) (cs_src_bit_offset st) + run.
Proof.
  intros Hwf Hld Hls Hit run.
  destruct (copy_iter_spec _ _ _ Hwf Hld Hls Hit)
    as (s & d & Hs & Hd & Hdst & Hr & Hdc & Hsc).
  fold run in Hdst, Hr, Hdc, Hsc.
  destruct Hwf as (Hdb & Hsb & Hrb & Hdy & Hsy).
  assert (Hrr : 0 <= run <= 8 /\ run <= 8 - cs_dst_bit_offset st
                /\ run <= 8 - cs_src_bit_offset st /\ run <= cs_r_bits st)
    by (unfold run, run_length; lia).
  pose proof (roll_bitpos (cs_dst_byte_offset st) (cs_dst_bit_offset st) run) as Hpd.
  pose proof (roll_bitpos (cs_src_byte_offset st) (cs_src_bit_offset st) run) as Hps.
  rewrite <- Hdc in Hpd. rewrite <- Hsc in Hps. simpl in Hpd, Hps.
  unfold roll in Hdc, Hsc.
  destruct (Z.eqb_spec (cs_dst_bit_offset st + run) 8);
    destruct (Z.eqb_spec (cs_src_bit_offset st + run) 8);
    injection Hdc as Hd1 Hd2; injection Hsc as Hs1 Hs2;
    (split; [unfold copy_wf; lia|]);
    (split; [rewrite Hdst; apply length_insert|]); auto.
Qed.

Lemma copy_loop_bits src fuel : forall st st',
  copy_wf st ->
  Z.of_nat (length (cs_dst_buff st)) < SIZE_MOD ->
  Z.of_nat (length src) < SIZE_MOD ->
  copy_loop fuel src st = Ret st' ->
  bits_copied (cs_dst_buff st) src
              (bitpos (cs_dst_byte_offset st) (cs_dst_bit_offset st))
              (bitpos (cs_src_byte_offset st) (cs_src_bit_offset st))
              (cs_r_bits st) (cs_dst_buff st').
Proof.
  induction fuel as [|fuel IH]; intros st st' Hwf Hld Hls Hloop; [discriminate|].
  simpl in Hloop. apply bind_Ret in Hloop as (st1 & Hit & Hrest).
  destruct (copy_iter_wf _ _ _ Hwf Hld Hls Hit) as (Hwf1 & Hlen1 & Hr1 & Hpd & Hps).
  pose proof (copy_iter_bits _ _ _ Hwf Hld Hls Hit) as Hbits.
  simpl in Hbits.
  set (run := run_length _ _ _) in *.
  set (dpos := bitpos (cs_dst_byte_offset st) _) in *.
  set (spos := bitpos (cs_src_byte_offset st) _) in *.
  assert (Hrun : 0 <= run <= cs_r_bits st).
  { destruct Hwf as (? & ? & ? & ? & ?). unfold run, run_length. lia. }
  destruct (Z.ltb_spec 0 (cs_r_bits st1)) as [Hmore|Hdone].
  - destruct (IH st1 st' Hwf1 ltac:(rewrite Hlen1; exact Hld) Hls Hrest)
      as (Hlen & Hb).
    split; [congruence|]. intros j.
    rewrite Hb, Hbits, Hpd, Hps, Hr1.
    replace (j - (dpos + run) + (spos + run)) with (j - dpos + spos) by lia.
    replace (dpos + run + (cs_r_bits st - run)) with (dpos + cs_r_bits st) by lia.
    destruct (bit_at (cs_dst_buff st) j); simpl; [reflexivity|].
    destruct (bit_at src (j - dpos + spos)); zbool.
  - injection Hrest as <-. split; [assumption|]. intros j.
    rewrite Hbits. replace (cs_r_bits st) with run by lia. reflexivity.
Qed.

Lemma copy_iter_defined src st s d :
  src !! Z.to_nat (cs_src_byte_offset st) = Some s ->
  cs_dst_buff st !! Z.to_nat (cs_dst_byte_offset st) = Some d ->
  exists st1, copy_iter src st = Ret st1.
Proof.
  intros Hs Hd. unfold copy_iter, load. rewrite Hs, Hd. simpl.
  repeat match goal with |- context [if ?c then _ else _] => destruct c end;
    eexists; reflexivity.
Qed.

Lemma copy_loop_total src fuel : forall st,
  copy_wf st ->
  1 <= cs_r_bits st <= Z.of_nat fuel ->
  bitpos (cs_dst_byte_offset st) (cs_dst_bit_offset st) + cs_r_bits st
    <= 8 * Z.of_nat (length (cs_dst_buff st)) ->
  bitpos (cs_src_byte_offset st) (cs_src_bit_offset st) + cs_r_bits st
    <= 8 * Z.of_nat (length src) ->
  Z.of_nat (length (cs_dst_buff st)) < SIZE_MOD ->
  Z.of_nat (length src) < SIZE_MOD ->
  exists st', copy_loop fuel src st = Ret st'.
Proof.
  induction fuel as [|fuel IH]; intros st Hwf Hr Hdb Hsb Hld Hls; [lia|].
  pose proof Hwf as (Hd & Hs & Hrb & Hdy & Hsy).
  unfold bitpos in Hdb, Hsb.
  destruct (lookup_lt_is_Some_2 src (Z.to_nat (cs_src_byte_offset st))
              ltac:(lia)) as (s & Hsl).
  destruct (lookup_lt_is_Some_2 (cs_dst_buff st) (Z.to_nat (cs_dst_byte_offset st))
              ltac:(lia)) as (d & Hdl).
  destruct (copy_iter_defined _ _ _ _ Hsl Hdl) as (st1 & Hit).
  destruct (copy_iter_wf _ _ _ Hwf Hld Hls Hit) as (Hwf1 & Hlen1 & Hr1 & Hpd & Hps).
  set (run := run_length _ _ _) in *.
  assert (Hrun : 1 <= run <= cs_r_bits st) by (unfold run, run_length; lia).
  simpl. rewrite Hit. simpl.
  destruct (Z.ltb_spec 0 (cs_r_bits st1)) as [Hmore|Hdone]; [|eauto].
  apply IH; try assumption; rewrite ?Hlen1; unfold bitpos in *; lia.
Qed.

Lemma copy_loop_bytes src fuel : forall st st' (i : nat),
  copy_wf st ->
  Z.of_nat (length (cs_dst_buff st)) < SIZE_MOD ->
  Z.of_nat (length src) < SIZE_MOD ->
  copy_loop fuel src st = Ret st' ->
  Z.of_nat i < cs_dst_byte_offset st
  \/ (cs_dst_byte_offset st < Z.of_nat i
      /\ bitpos (cs_dst_byte_offset st) (cs_dst_bit_offset st) + cs_r_bits st
         <= 8 * Z.of_nat i) ->
  cs_dst_buff st' !! i = cs_dst_buff st !! i.
Proof.
  induction fuel as [|fuel IH]; intros st st' i Hwf Hld Hls Hloop Hi; [discriminate|].
  simpl in Hloop. apply bind_Ret in Hloop as (st1 & Hit & Hrest).
  destruct (copy_iter_wf _ _ _ Hwf Hld Hls Hit) as (Hwf1 & Hlen1 & Hr1 & Hpd & Hps).
  destruct (copy_iter_spec _ _ _ Hwf Hld Hls Hit)
    as (s & d & _ & _ & Hdst & _ & Hdc & _).
  set (run := run_length _ _ _) in *.
  assert (Hrun : 0 <= run <= cs_r_bits st).
  { destruct Hwf as (? & ? & ? & ? & ?). unfold run, run_length. lia. }
  assert (Hone : cs_dst_buff st1 !! i = cs_dst_buff st !! i).
  { rewrite Hdst. apply list_lookup_insert_ne.
    destruct Hwf as (_ & _ & _ & ? & _). unfold bitpos in Hi. lia. }
  destruct (Z.ltb_spec 0 (cs_r_bits st1)) as [Hmore|Hdone].
  - rewrite <- Hone. apply IH; try assumption; [rewrite Hlen1; exact Hld|].
    destruct Hwf1 as (Hb1 & _).
    unfold roll in Hdc. unfold bitpos in *.
    destruct (Z.eqb_spec (cs_dst_bit_offset st + run) 8);
      injection Hdc as Hd1 Hd2; lia.
  - injection Hrest as <-. exact Hone.
Qed.

(** ** The transfer primitive as a whole *)

Lemma remaining_bits_exact buff_size byte_offset bit_offset :
  0 <= byte_offset -> 0 <= bit_offset ->
  bitpos byte_offset bit_offset <= 8 * buff_size ->
  8 * buff_size <= SIZE_MAX ->
  remaining_bits buff_size byte_offset bit_offset
  = 8 * buff_size - bitpos byte_offset bit_offset.
Proof.
  unfold remaining_bits, bitpos, BITS_IN_BYTE, SIZE_MAX.
  rewrite SIZE_MOD_val. intros Hb Hi Hp Hs.
  rewrite (sz_small (buff_size - byte_offset)) by (rewrite SIZE_MOD_val; lia).
  rewrite (sz_small ((buff_size - byte_offset) * 8)) by (rewrite SIZE_MOD_val; lia).
  rewrite sz_small by (rewrite SIZE_MOD_val; lia). lia.
Qed.

Lemma copy_args_valid_inv dby dbi dsz sby sbi ssz n :
  copy_args_invalid dby dbi dsz sby sbi ssz n = false ->
  n <> 0 /\ dby <= dsz /\ sby <= ssz /\ dbi < 8 /\ sbi < 8
  /\ n <= sz (ssz * BITS_IN_BYTE).
Proof.
  unfold copy_args_invalid, BITS_IN_BYTE. intros H.
  repeat (apply orb_false_elim in H as [H ?]).
  repeat match goal with
         | H : (_ =? _) = false |- _ => apply Z.eqb_neq in H
         | H : (_ <? _) = false |- _ => apply Z.ltb_ge in H
         | H : (_ >=? _) = false |- _ => rewrite Z.geb_leb in H; apply Z.leb_gt in H
         end.
  lia.
Qed.

Lemma clip_bit_count_range sby sbi ssz n :
  0 <= n <= sz (ssz * BITS_IN_BYTE) ->
  0 <= clip_bit_count sby sbi ssz n <= SIZE_MOD - 8
  /\ clip_bit_count sby sbi ssz n <= n.
Proof.
  intros Hn. pose proof (sz_mul8_le ssz) as Hm.
  unfold clip_bit_count.
  pose proof (sz_range (sz (sz (ssz - sby) * BITS_IN_BYTE) - sbi)) as Hr.
  fold (remaining_bits ssz sby sbi) in Hr.
  destruct (Z.gtb_spec n (remaining_bits ssz sby sbi)); lia.
Qed.

(** A call that went through the copy loop: what it returned and what it
    did to the destination. *)
Lemma copy_success_inv dst src dby dbi dsz sby sbi ssz n ret dst' :
  0 <= dby -> 0 <= dbi -> 0 <= sby -> 0 <= sbi -> 0 <= n ->
  Z.of_nat (length dst) < SIZE_MOD ->
  Z.of_nat (length src) < SIZE_MOD ->
  bit_queue_bit_buffer_copy (Some dst) (Some src) dby dbi dsz sby sbi ssz n
  = Ret (ret, None, dst') ->
  exists st,
    copy_loop (S (Z.to_nat (clip_bit_count sby sbi ssz n))) src
      (mk_copy_state dst dby dbi sby sbi (clip_bit_count sby sbi ssz n)) = Ret st
    /\ copy_wf (mk_copy_state dst dby dbi sby sbi (clip_bit_count sby sbi ssz n))
    /\ dst' = Some (cs_dst_buff st)
    /\ ret = to_int (clip_bit_count sby sbi ssz n)
    /\ copy_args_invalid dby dbi dsz sby sbi ssz n = false
    /\ n <= remaining_bits dsz dby dbi.
Proof.
  intros Hdby Hdbi Hsby Hsbi Hn Hld Hls Hc.
  unfold bit_queue_bit_buffer_copy in Hc.
  destruct (copy_args_invalid dby dbi dsz sby sbi ssz n) eqn:Hv; [discriminate|].
  destruct (Z.ltb_spec (remaining_bits dsz dby dbi) n) as [Hsp|Hsp]; [discriminate|].
  apply bind_Ret in Hc as (st & Hloop & Hc). injection Hc as <- <-.
  destruct (copy_args_valid_inv _ _ _ _ _ _ _ Hv) as (Hn0 & _ & _ & Hdb & Hsb & Hnn).
  destruct (clip_bit_count_range sby sbi ssz n ltac:(lia)) as (Hc1 & Hc2).
  exists st. repeat split; simpl; auto; lia.
Qed.

Lemma bits_copied_of_call dst src dby dbi dsz sby sbi ssz n ret dst' :
  0 <= dby -> 0 <= dbi -> 0 <= sby -> 0 <= sbi -> 0 <= n ->
  Z.of_nat (length dst) < SIZE_MOD ->
  Z.of_nat (length src) < SIZE_MOD ->
  bit_queue_bit_buffer_copy (Some dst) (Some src) dby dbi dsz sby sbi ssz n
  = Ret (ret, None, Some dst') ->
  ret = to_int (clip_bit_count sby sbi ssz n)
  /\ bits_copied dst src (bitpos dby dbi) (bitpos sby sbi)
                 (clip_bit_count sby sbi ssz n) dst'.
Proof.
  intros Hdby Hdbi Hsby Hsbi Hn Hld Hls Hc.
  destruct (copy_success_inv _ _ _ _ _ _ _ _ _ _ _ Hdby Hdbi Hsby Hsbi Hn Hld Hls Hc)
    as (st & Hloop & Hwf & Hd' & Hret & _).
  injection Hd' as ->. split; [assumption|].
  exact (copy_loop_bits _ _ _ _ Hwf Hld Hls Hloop).
Qed.

(** A call whose start positions lie inside buffers of the declared sizes
    goes through, copies the clipped count and returns it. *)
Lemma copy_success dst src dby dbi sby sbi n :
  let dsz := Z.of_nat (length dst) in
  let ssz := Z.of_nat (length src) in
  0 <= dby -> 0 <= dbi -> 0 <= sby -> 0 <= sbi -> 0 <= n ->
  8 * dsz <= SIZE_MAX -> 8 * ssz <= SIZE_MAX ->
  copy_args_invalid dby dbi dsz sby sbi ssz n = false ->
  bitpos dby dbi + n <= 8 * dsz ->
  sby < ssz ->
  let n' := Z.min n (8 * ssz - bitpos sby sbi) in
  exists dst',
    bit_queue_bit_buffer_copy (Some dst) (Some src) dby dbi dsz sby sbi ssz n
    = Ret (to_int n', None, Some dst')
    /\ bits_copied dst src (bitpos dby dbi) (bitpos sby sbi) n' dst'.
Proof.
  intros dsz ssz Hdby Hdbi Hsby Hsbi Hn Hds Hss Hv Hroom Hsin n'.
  destruct (copy_args_valid_inv _ _ _ _ _ _ _ Hv) as (Hn0 & Hd1 & Hs1 & Hdb & Hsb & Hnn).
  unfold SIZE_MAX in *.
  assert (Hrd : remaining_bits dsz dby dbi = 8 * dsz - bitpos dby dbi).
  { apply remaining_bits_exact; unfold SIZE_MAX, bitpos in *; lia. }
  assert (Hrs : remaining_bits ssz sby sbi = 8 * ssz - bitpos sby sbi).
  { apply remaining_bits_exact; unfold SIZE_MAX, bitpos in *; lia. }
  assert (Hclip : clip_bit_count sby sbi ssz n = n').
  { unfold clip_bit_count. rewrite Hrs. unfold n'.
    destruct (Z.gtb_spec n (8 * ssz - bitpos sby sbi)); lia. }
  assert (Hn' : 1 <= n' <= n) by (unfold n', bitpos in *; lia).
  assert (Hwf : copy_wf (mk_copy_state dst dby dbi sby sbi n')).
  { unfold copy_wf; simpl. pose proof (sz_mul8_le ssz). lia. }
  assert (Hex : exists st, copy_loop (S (Z.to_nat n')) src
                             (mk_copy_state dst dby dbi sby sbi n') = Ret st).
  { apply copy_loop_total; simpl; try assumption;
      try (fold dsz); try (fold ssz); unfold bitpos in *; lia. }
  destruct Hex as (st & Hloop).
  exists (cs_dst_buff st). split.
  - unfold bit_queue_bit_buffer_copy. fold dsz ssz. rewrite Hv.
    destruct (Z.ltb_spec (remaining_bits dsz dby dbi) n) as [Hsp|Hsp];
      [unfold bitpos in *; lia|].
    rewrite Hclip. rewrite Hloop. reflexivity.
  - apply (copy_loop_bits _ _ _ _ Hwf) in Hloop; simpl in *;
      try (fold dsz); try (fold ssz); try lia.
    exact Hloop.
Qed.

Lemma bit_at_zeros n j : bit_at (replicate n 0) j = false.
Proof.
  unfold bit_at. destruct (replicate n 0 !! Z.to_nat (j / 8)) eqn:E; [|reflexivity].
  apply lookup_replicate in E as [-> _].
  rewrite Z.testbit_0_l. apply andb_false_r.
Qed.

(** ** Claims about the transfer primitive *)

(** C4, first part, for one pass of the loop. *)
Lemma copy_iter_run src st st1 :
  copy_wf st ->
  Z.of_nat (length (cs_dst_buff st)) < SIZE_MOD ->
  Z.of_nat (length src) < SIZE_MOD ->
  copy_iter src st = Ret st1 ->
  let obc := offset_bit_count_of (cs_r_bits st) (cs_dst_bit_offset st)
                                 (cs_src_bit_offset st) in
  let run := Z.min (Z.min (8 - cs_dst_bit_offset st) (8 - cs_src_bit_offset st))
                   (cs_r_bits st) in
  sz (BITS_IN_BYTE - obc) = run
  /\ CREATE_BYTE_MASK_LSB obc = Z.ones run
  /\ (exists s d,
        src !! Z.to_nat (cs_src_byte_offset st) = Some s
        /\ cs_dst_buff st !! Z.to_nat (cs_dst_byte_offset st) = Some d
        /\ cs_dst_buff st1
           = <[Z.to_nat (cs_dst_byte_offset st) :=
                 u8 (Z.lor d (moved_bits s obc (cs_src_bit_offset st)
                                         (cs_dst_bit_offset st)))]> (cs_dst_buff st)
        /\ forall k, 0 <= k < run ->
             Z.testbit (u8 (Z.lor d (moved_bits s obc (cs_src_bit_offset st)
                                                (cs_dst_bit_offset st))))
                       (cs_dst_bit_offset st + k)
             = Z.testbit d (cs_dst_bit_offset st + k)
               || Z.testbit s (cs_src_bit_offset st + k))
  /\ cs_r_bits st1 = cs_r_bits st - run
  /\ (cs_dst_byte_offset st1, cs_dst_bit_offset st1)
     = (if cs_dst_bit_offset st + run =? 8
        then (cs_dst_byte_offset st + 1, 0)
        else (cs_dst_byte_offset st, cs_dst_bit_offset st + run))
  /\ (cs_src_byte_offset st1, cs_src_bit_offset st1)
     = (if cs_src_bit_offset st + run =? 8
        then (cs_src_byte_offset st + 1, 0)
        else (cs_src_byte_offset st, cs_src_bit_offset st + run)).
Proof.
  intros Hwf Hld Hls Hit obc run.
  destruct (copy_iter_spec _ _ _ Hwf Hld Hls Hit)
    as (s & d & Hs & Hd & Hdst & Hr & Hdc & Hsc).
  destruct Hwf as (Hdb & Hsb & Hrb & Hdy & Hsy).
  destruct (offset_bit_count_range _ _ _ Hrb Hdb Hsb) as (Hobc & Hrun).
  fold obc in Hobc, Hrun.
  change run with (run_length (cs_dst_bit_offset st) (cs_src_bit_offset st)
                              (cs_r_bits st)) in *.
  clear run. set (run := run_length _ _ _) in *.
  assert (Hrr : 0 <= run <= 8 /\ run <= 8 - cs_dst_bit_offset st
                /\ run <= 8 - cs_src_bit_offset st)
    by (unfold run, run_length; lia).
  assert (Hobc' : obc = 8 - run).
  { rewrite <- Hrun. unfold BITS_IN_BYTE. rewrite sz_small; [lia|].
    rewrite SIZE_MOD_val. lia. }
  split; [exact Hrun|].
  split; [rewrite mask_lsb_ones by lia; f_equal; lia|].
  split.
  - exists s, d. rewrite Hobc'. repeat split; try assumption.
    intros k Hk. rewrite testbit_u8, Z.lor_spec by lia. f_equal.
    rewrite moved_bits_testbit by lia.
    replace (cs_dst_bit_offset st + k - cs_dst_bit_offset st + cs_src_bit_offset st)
      with (cs_src_bit_offset st + k) by lia.
    zbool.
  - repeat split; assumption.
Qed.

(** C4.  The transfer primitive moves bits least significant first.  Each
    pass of its loop moves a run of exactly
    [min (8 - dst_bit_offset) (8 - src_bit_offset) r_bits] bits by mask and
    shift (bit [src_bit_offset + k] of the source byte goes to bit
    [dst_bit_offset + k] of the destination byte), advances both bit
    offsets by the run, rolls over to the next byte at 8 and lowers the
    remaining count by the run.  Consequently, for all 8 x 8 start bit
    offsets [d], [s] and every bit count from 1 to 16, the misaligned copy
    into a cleared destination and the byte-aligned copy of the same
    logical bits both succeed with the full count, and the misaligned
    result is the aligned result shifted by [d] bits. *)
Theorem copy_runs_lsb_first :
  (forall src st st1,
      copy_wf st ->
      Z.of_nat (length (cs_dst_buff st)) < SIZE_MOD ->
      Z.of_nat (length src) < SIZE_MOD ->
      copy_iter src st = Ret st1 ->
      let obc := offset_bit_count_of (cs_r_bits st) (cs_dst_bit_offset st)
                                     (cs_src_bit_offset st) in
      let run := Z.min (Z.min (8 - cs_dst_bit_offset st) (8 - cs_src_bit_offset st))
                       (cs_r_bits st) in
      sz (BITS_IN_BYTE - obc) = run
      /\ CREATE_BYTE_MASK_LSB obc = Z.ones run
      /\ (exists s d,
            src !! Z.to_nat (cs_src_byte_offset st) = Some s
            /\ cs_dst_buff st !! Z.to_nat (cs_dst_byte_offset st) = Some d
            /\ cs_dst_buff st1
               = <[Z.to_nat (cs_dst_byte_offset st) :=
                     u8 (Z.lor d (moved_bits s obc (cs_src_bit_offset st)
                                             (cs_dst_bit_offset st)))]>
                   (cs_dst_buff st)
            /\ forall k, 0 <= k < run ->
                 Z.testbit (u8 (Z.lor d (moved_bits s obc (cs_src_bit_offset st)
                                                    (cs_dst_bit_offset st))))
                           (cs_dst_bit_offset st + k)
                 = Z.testbit d (cs_dst_bit_offset st + k)
                   || Z.testbit s (cs_src_bit_offset st + k))
      /\ cs_r_bits st1 = cs_r_bits st - run
      /\ (cs_dst_byte_offset st1, cs_dst_bit_offset st1)
         = (if cs_dst_bit_offset st + run =? 8
            then (cs_dst_byte_offset st + 1, 0)
            else (cs_dst_byte_offset st, cs_dst_bit_offset st + run))
      /\ (cs_src_byte_offset st1, cs_src_bit_offset st1)
         = (if cs_src_bit_offset st + run =? 8
            then (cs_src_byte_offset st + 1, 0)
            else (cs_src_byte_offset st, cs_src_bit_offset st + run)))
  /\ (forall (src aligned : list Z) (len : nat) (d s n : Z),
        0 <= d < 8 -> 0 <= s < 8 -> 1 <= n <= 16 ->
        (3 <= len)%nat -> (3 <= length src)%nat -> (3 <= length aligned)%nat ->
        8 * Z.of_nat len <= SIZE_MAX ->
        8 * Z.of_nat (length src) <= SIZE_MAX ->
        8 * Z.of_nat (length aligned) <= SIZE_MAX ->
        (forall i, 0 <= i < n -> bit_at aligned i = bit_at src (s + i)) ->
        exists D A,
          bit_queue_bit_buffer_copy (Some (replicate len 0)) (Some src)
            0 d (Z.of_nat len) 0 s (Z.of_nat (length src)) n
          = Ret (n, None, Some D)
          /\ bit_queue_bit_buffer_copy (Some (replicate len 0)) (Some aligned)
               0 0 (Z.of_nat len) 0 0 (Z.of_nat (length aligned)) n
             = Ret (n, None, Some A)
          /\ (forall i, 0 <= i < n -> bit_at D (d + i) = bit_at src (s + i))
          /\ (forall j, bit_at D j = (d <=? j) && bit_at A (j - d))).
Proof.
  split; [exact copy_iter_run|].
  intros src aligned len d s n Hd Hs Hn Hlen Hsrc Hal Hli Hsi Hai Hsame.
  unfold SIZE_MAX in Hli, Hsi, Hai. rewrite SIZE_MOD_val in Hli, Hsi, Hai.
  assert (Hinv : forall (b : list Z) o, (3 <= length b)%nat ->
            8 * Z.of_nat (length b) <= 18446744073709551616 - 1 -> 0 <= o < 8 ->
            copy_args_invalid 0 d (Z.of_nat len) 0 o (Z.of_nat (length b)) n = false
            /\ copy_args_invalid 0 0 (Z.of_nat len) 0 o (Z.of_nat (length b)) n = false).
  { intros b o Hb1 Hb2 Ho. unfold copy_args_invalid, BITS_IN_BYTE.
    rewrite (sz_small (Z.of_nat (length b) * 8)) by (rewrite SIZE_MOD_val; lia).
    split; repeat (apply orb_false_intro); zbool;
      rewrite ?Z.geb_leb; zbool; apply Z.eqb_neq; lia. }
  destruct (copy_success (replicate len 0) src 0 d 0 s n) as (D & HD & HbD);
    rewrite ?length_replicate; unfold SIZE_MAX, bitpos; rewrite ?SIZE_MOD_val;
    try lia; [apply Hinv; lia|].
  destruct (copy_success (replicate len 0) aligned 0 0 0 0 n) as (A & HA & HbA);
    rewrite ?length_replicate; unfold SIZE_MAX, bitpos; rewrite ?SIZE_MOD_val;
    try lia; [apply Hinv; lia|].
  unfold bitpos in *.
  rewrite ?length_replicate, ?Z.mul_0_r, ?Z.add_0_l, ?Z.add_0_r, ?Z.sub_0_r in *.
  replace (Z.min n (8 * Z.of_nat (length src) - s)) with n in * by lia.
  replace (Z.min n (8 * Z.of_nat (length aligned))) with n in * by lia.
  rewrite to_int_small in HD, HA by (rewrite INT_MAX_val; lia).
  exists D, A. split; [exact HD|]. split; [exact HA|].
  destruct HbD as (_ & HbD). destruct HbA as (_ & HbA).
  assert (Hall : forall j, bit_at D j = (d <=? j) && bit_at A (j - d)).
  { intros j. rewrite HbD, HbA, !bit_at_zeros. simpl.
    rewrite ?Z.sub_0_r, ?Z.add_0_r, ?Z.add_0_l.
    replace (j - d + s) with (s + (j - d)) by lia.
    zbool. symmetry. apply Hsame. lia. }
  split; [|exact Hall].
  intros i Hi. rewrite Hall.
  replace (d + i - d) with i by lia.
  rewrite HbA, bit_at_zeros. simpl.
  rewrite ?Z.sub_0_r, ?Z.add_0_r, ?Z.add_0_l.
  rewrite Hsame by lia. zbool.
Qed.

Lemma copy_runs_lsb_first_witness :
  (exists st1,
     copy_iter [171; 205] (mk_copy_state [0; 0] 0 6 0 3 11) = Ret st1
     /\ cs_dst_buff st1 = [64; 0] /\ cs_r_bits st1 = 9
     /\ (cs_dst_byte_offset st1, cs_dst_bit_offset st1) = (1, 0)
     /\ (cs_src_byte_offset st1, cs_src_bit_offset st1) = (0, 5))
  /\ (exists D A,
        bit_queue_bit_buffer_copy (Some [0; 0; 0]) (Some [171; 205; 239])
          0 3 3 0 5 3 11 = Ret (11, None, Some D)
        /\ bit_queue_bit_buffer_copy (Some [0; 0; 0]) (Some [109; 126; 7])
             0 0 3 0 0 3 11 = Ret (11, None, Some A)
        /\ forall j, bit_at D j = (3 <=? j) && bit_at A (j - 3)).
Proof.
  split.
  - eexists. split; [reflexivity|].
    assert (Hwf : copy_wf (mk_copy_state [0; 0] 0 6 0 3 11))
      by (unfold copy_wf; simpl; rewrite SIZE_MOD_val; lia).
    destruct (proj1 copy_runs_lsb_first [171; 205]
                (mk_copy_state [0; 0] 0 6 0 3 11) _ Hwf
                ltac:(simpl; rewrite SIZE_MOD_val; lia)
                ltac:(simpl; rewrite SIZE_MOD_val; lia) eq_refl)
      as (_ & _ & _ & Hr & Hd & Hs).
    repeat split; assumption.
  - destruct (proj2 copy_runs_lsb_first [171; 205; 239] [109; 126; 7]
                3%nat 3 5 11) as (D & A & HD & HA & _ & Hall);
      try (simpl; lia); try (unfold SIZE_MAX; rewrite SIZE_MOD_val; simpl; lia).
    + intros i Hi.
      assert (Hc : i = 0 \/ i = 1 \/ i = 2 \/ i = 3 \/ i = 4 \/ i = 5 \/ i = 6
                   \/ i = 7 \/ i = 8 \/ i = 9 \/ i = 10) by lia.
      destruct Hc as [->|[->|[->|[->|[->|[->|[->|[->|[->|[->| ->]]]]]]]]]];
        reflexivity.
    + exists D, A. auto.
Defined.

(** C5.  Frame condition of the transfer primitive.  After a successful
    call the destination has its old length; every bit is its old value
    OR the source bit copied onto it, so a bit outside the copied range
    keeps its value, a set bit is never cleared, and a range that was
    cleared beforehand holds exactly the copied source bits; a byte
    outside the touched bytes is not written. *)
Theorem copy_frame dst src dby dbi dsz sby sbi ssz n ret dst' :
  0 <= dby -> 0 <= dbi -> 0 <= sby -> 0 <= sbi -> 0 <= n ->
  Z.of_nat (length dst) < SIZE_MOD ->
  Z.of_nat (length src) < SIZE_MOD ->
  bit_queue_bit_buffer_copy (Some dst) (Some src) dby dbi dsz sby sbi ssz n
  = Ret (ret, None, Some dst') ->
  let m := clip_bit_count sby sbi ssz n in
  let dpos := bitpos dby dbi in
  let spos := bitpos sby sbi in
  ret = to_int m
  /\ length dst' = length dst
  /\ (forall j, bit_at dst' j
                = bit_at dst j
                  || ((dpos <=? j) && (j <? dpos + m) && bit_at src (j - dpos + spos)))
  /\ (forall j, j < dpos \/ dpos + m <= j -> bit_at dst' j = bit_at dst j)
  /\ (forall j, bit_at dst j = true -> bit_at dst' j = true)
  /\ ((forall j, dpos <= j < dpos + m -> bit_at dst j = false) ->
      forall j, dpos <= j < dpos + m -> bit_at dst' j = bit_at src (j - dpos + spos))
  /\ (forall i : nat,
        Z.of_nat i < dby \/ (dby < Z.of_nat i /\ dpos + m <= 8 * Z.of_nat i) ->
        dst' !! i = dst !! i).
Proof.
  intros Hdby Hdbi Hsby Hsbi Hn Hld Hls Hc m dpos spos.
  destruct (bits_copied_of_call _ _ _ _ _ _ _ _ _ _ _
              Hdby Hdbi Hsby Hsbi Hn Hld Hls Hc) as (Hret & Hlen & Hbits).
  fold m dpos spos in Hbits.
  split; [exact Hret|]. split; [exact Hlen|]. split; [exact Hbits|].
  split; [|split; [|split]].
  - intros j Hj. rewrite Hbits. zbool.
  - intros j Hj. rewrite Hbits, Hj. reflexivity.
  - intros Hclr j Hj. rewrite Hbits, (Hclr j Hj). zbool.
  - intros i Hi.
    destruct (copy_success_inv _ _ _ _ _ _ _ _ _ _ _
                Hdby Hdbi Hsby Hsbi Hn Hld Hls Hc) as (st & Hloop & Hwf & Hd' & _).
    injection Hd' as ->.
    apply (copy_loop_bytes _ _ _ _ i Hwf Hld Hls Hloop). exact Hi.
Qed.

Lemma copy_frame_witness :
  let dst' := [255; 193; 3] in
  bit_queue_bit_buffer_copy (Some [255; 129; 0]) (Some [0; 31]) 1 6 3 1 0 2 4
  = Ret (4, None, Some dst')
  /\ dst' !! 0%nat = [255; 129; 0] !! 0%nat
  /\ bit_at dst' 15 = true.
Proof.
  assert (Hc : bit_queue_bit_buffer_copy (Some [255; 129; 0]) (Some [0; 31])
                 1 6 3 1 0 2 4 = Ret (4, None, Some [255; 193; 3]))
    by reflexivity.
  destruct (copy_frame [255; 129; 0] [0; 31] 1 6 3 1 0 2 4 4 [255; 193; 3]
              ltac:(lia) ltac:(lia) ltac:(lia) ltac:(lia) ltac:(lia)
              ltac:(simpl; rewrite SIZE_MOD_val; lia)
              ltac:(simpl; rewrite SIZE_MOD_val; lia) Hc)
    as (_ & _ & _ & _ & Hset & _ & Hbytes).
  split; [exact Hc|]. split.
  - apply Hbytes. left. lia.
  - apply Hset. reflexivity.
Defined.


(** X20.  Space and clipping away from the end offset.  For a call that
    passes the validity checks on buffers of the declared sizes (both
    sizes times 8 within [size_t]) with a bit count up to INT_MAX, the
    destination start position inside the destination or at its very end
    ([byte*8 + bit <= size*8]) and the source start byte inside the
    source: when the destination has fewer than [bit_count] bits left the
    call fails with EMSGSIZE and leaves the destination as it was;
    otherwise it succeeds, copies and returns
    [min bit_count (bits left in the source)], which is at least 1 and is
    below the request exactly when the source has fewer bits left than
    requested. *)
Theorem copy_space_and_clipping dst src dby dbi sby sbi n :
  let dsz := Z.of_nat (length dst) in
  let ssz := Z.of_nat (length src) in
  0 <= dby -> 0 <= dbi -> 0 <= sby -> 0 <= sbi -> 0 <= n <= INT_MAX ->
  8 * dsz <= SIZE_MAX -> 8 * ssz <= SIZE_MAX ->
  copy_args_invalid dby dbi dsz sby sbi ssz n = false ->
  bitpos dby dbi <= 8 * dsz ->
  sby < ssz ->
  let room := 8 * dsz - bitpos dby dbi in
  let avail := 8 * ssz - bitpos sby sbi in
  (room < n ->
   bit_queue_bit_buffer_copy (Some dst) (Some src) dby dbi dsz sby sbi ssz n
   = Ret (-1, Some EMSGSIZE, Some dst))
  /\ (n <= room ->
      exists dst',
        bit_queue_bit_buffer_copy (Some dst) (Some src) dby dbi dsz sby sbi ssz n
        = Ret (Z.min n avail, None, Some dst')
        /\ bits_copied dst src (bitpos dby dbi) (bitpos sby sbi) (Z.min n avail) dst'
        /\ 1 <= Z.min n avail
        /\ (Z.min n avail < n <-> avail < n)).
Proof.
  intros dsz ssz Hdby Hdbi Hsby Hsbi Hn Hds Hss Hv Hpos Hsin room avail.
  destruct (copy_args_valid_inv _ _ _ _ _ _ _ Hv) as (Hn0 & Hd1 & Hs1 & Hdb & Hsb & Hnn).
  assert (Hrd : remaining_bits dsz dby dbi = room)
    by (apply remaining_bits_exact; assumption).
  split.
  - intros Hroom. unfold bit_queue_bit_buffer_copy. rewrite Hv, Hrd.
    destruct (Z.ltb_spec room n); [reflexivity | lia].
  - intros Hroom.
    destruct (copy_success dst src dby dbi sby sbi n) as (dst' & Hc & Hb);
      try assumption; try (fold dsz); try (fold ssz);
      try (unfold room in Hroom; lia); try lia.
    fold dsz ssz avail in Hc, Hb.
    assert (Hav : 1 <= avail) by (unfold avail, bitpos; lia).
    rewrite to_int_small in Hc by lia.
    exists dst'. split; [exact Hc|]. split; [exact Hb|]. lia.
Qed.

Lemma copy_space_and_clipping_witness :
  bit_queue_bit_buffer_copy (Some [0; 0]) (Some [255; 255]) 1 5 2 0 0 2 4
  = Ret (-1, Some EMSGSIZE, Some [0; 0])
  /\ exists dst',
       bit_queue_bit_buffer_copy (Some [0; 0]) (Some [255; 255]) 0 1 2 1 3 2 9
       = Ret (5, None, Some dst').
Proof.
  split.
  - apply (proj1 (copy_space_and_clipping [0; 0] [255; 255] 1 5 0 0 4
                ltac:(zclosed) ltac:(zclosed) ltac:(zclosed) ltac:(zclosed)
                ltac:(zclosed) ltac:(zclosed) ltac:(zclosed) eq_refl
                ltac:(zclosed) ltac:(zclosed))).
    zclosed.
  - destruct (proj2 (copy_space_and_clipping [0; 0] [255; 255] 0 1 1 3 9
                ltac:(zclosed) ltac:(zclosed) ltac:(zclosed) ltac:(zclosed)
                ltac:(zclosed) ltac:(zclosed) ltac:(zclosed) eq_refl
                ltac:(zclosed) ltac:(zclosed))
              ltac:(zclosed)) as (dst' & Hc & _).
    exists dst'. exact Hc.
Defined.

(** C10.  The validity checks of the transfer primitive accept a start
    byte offset equal to the buffer's length and refuse only greater ones.
    At such a start with a bit offset from 1 to 7 the remaining-capacity
    expression wraps around to [2^64 - bit_offset]; hence, for every
    [bit_count] up to [src_buff_size*8], the destination-space check
    passes when the destination starts there (the call enters the copy
    loop), and no clipping takes place when the source starts there. *)
Theorem copy_end_offset_wraps :
  (forall dbi dsz sbi ssz n,
      is_size_t dsz -> is_size_t ssz ->
      0 <= dbi < 8 -> 0 <= sbi < 8 -> 0 < n <= sz (ssz * BITS_IN_BYTE) ->
      copy_args_invalid dsz dbi dsz ssz sbi ssz n = false)
  /\ (forall dby dbi dsz sby sbi ssz n,
        dsz < dby \/ ssz < sby ->
        copy_args_invalid dby dbi dsz sby sbi ssz n = true)
  /\ (forall size bit,
        is_size_t size -> 0 < bit < 8 ->
        remaining_bits size size bit = SIZE_MOD - bit)
  /\ (forall dst src dbi dsz sby sbi ssz n,
        is_size_t dsz -> 0 < dbi < 8 ->
        copy_args_invalid dsz dbi dsz sby sbi ssz n = false ->
        (remaining_bits dsz dsz dbi <? n) = false
        /\ bit_queue_bit_buffer_copy (Some dst) (Some src) dsz dbi dsz sby sbi ssz n
           = (st ← copy_loop (S (Z.to_nat (clip_bit_count sby sbi ssz n))) src
                  (mk_copy_state dst dsz dbi sby sbi (clip_bit_count sby sbi ssz n));
              Ret (to_int (clip_bit_count sby sbi ssz n), None,
                   Some (cs_dst_buff st))))
  /\ (forall dby dbi dsz sbi ssz n,
        is_size_t ssz -> 0 < sbi < 8 ->
        copy_args_invalid dby dbi dsz ssz sbi ssz n = false ->
        clip_bit_count ssz sbi ssz n = n).
Proof.
  assert (Hrem : forall size bit, is_size_t size -> 0 < bit < 8 ->
                   remaining_bits size size bit = SIZE_MOD - bit).
  { intros size bit Hs Hb. unfold remaining_bits, BITS_IN_BYTE.
    rewrite Z.sub_diag. unfold sz at 3. rewrite Z.mod_0_l by (rewrite SIZE_MOD_val; lia).
    simpl. unfold sz at 2. rewrite Z.mod_0_l by (rewrite SIZE_MOD_val; lia).
    unfold sz. rewrite SIZE_MOD_val.
    rewrite <- (Z.mod_add _ 1) by lia. rewrite Z.mod_small; lia. }
  split; [|split; [|split; [exact Hrem|split]]].
  - intros dbi dsz sbi ssz n Hd Hs Hdb Hsb Hn.
    unfold copy_args_invalid, BITS_IN_BYTE in *.
    repeat (apply orb_false_intro); rewrite ?Z.geb_leb; zbool.
    apply Z.eqb_neq. lia.
  - intros dby dbi dsz sby sbi ssz n [H|H]; unfold copy_args_invalid.
    + apply Z.ltb_lt in H. rewrite H. rewrite orb_true_r. reflexivity.
    + apply Z.ltb_lt in H. rewrite H. rewrite !orb_true_r. reflexivity.
  - intros dst src dbi dsz sby sbi ssz n Hd Hdb Hv.
    destruct (copy_args_valid_inv _ _ _ _ _ _ _ Hv) as (_ & _ & _ & _ & _ & Hn).
    pose proof (sz_mul8_le ssz) as Hm.
    assert (Hchk : (remaining_bits dsz dsz dbi <? n) = false).
    { rewrite Hrem by assumption. apply Z.ltb_ge. lia. }
    split; [exact Hchk|].
    unfold bit_queue_bit_buffer_copy. rewrite Hv, Hchk. reflexivity.
  - intros dby dbi dsz sbi ssz n Hs Hsb Hv.
    destruct (copy_args_valid_inv _ _ _ _ _ _ _ Hv) as (_ & _ & _ & _ & _ & Hn).
    pose proof (sz_mul8_le ssz) as Hm.
    unfold clip_bit_count. rewrite Hrem by assumption.
    destruct (Z.gtb_spec n (SIZE_MOD - sbi)); [lia | reflexivity].
Qed.

Lemma copy_end_offset_wraps_witness :
  copy_args_invalid 4 3 4 2 5 2 16 = false
  /\ remaining_bits 4 4 3 = SIZE_MOD - 3
  /\ (remaining_bits 4 4 3 <? 16) = false
  /\ clip_bit_count 2 5 2 16 = 16.
Proof.
  destruct copy_end_offset_wraps as (H1 & _ & H3 & H4 & H5).
  assert (Hs4 : is_size_t 4) by (unfold is_size_t, SIZE_MAX; rewrite SIZE_MOD_val; lia).
  assert (Hs2 : is_size_t 2) by (unfold is_size_t, SIZE_MAX; rewrite SIZE_MOD_val; lia).
  assert (Hv : copy_args_invalid 4 3 4 2 5 2 16 = false).
  { apply (H1 3 4 5 2 16 Hs4 Hs2); try lia. vm_compute. split; congruence. }
  split; [exact Hv|]. split; [apply H3; [exact Hs4 | lia]|]. split.
  - apply (H4 [0; 0; 0; 0] [0; 0] 3 4 2 5 2 16 Hs4 ltac:(lia) Hv).
  - apply (H5 4 3 4 5 2 16 Hs2 ltac:(lia) Hv).
Defined.

(** ** Claims about the queue operations *)

(** C3 as stated fails: the 1-bit read that follows the 5-bit read does
    not yield 0. *)
Lemma example_sixth_bit_not_zero :
  exists m1 m2 m3,
    example_scenario = Ret (m1, m2, m3) /\ m3 <> [0; 0].
Proof.
  exists [170; 0], [10; 0], [1; 0]. split; [reflexivity | discriminate].
Qed.

(** C3, amended.  In the example the 8-bit read yields 0xAA = 170, the
    5-bit read yields the lowest five bits of 0xAA, 0b01010 = 10, and the
    following 1-bit read yields the sixth bit of 0xAA (bit 5), which
    is 1. *)
Theorem example_reads :
  example_scenario = Ret ([170; 0], [10; 0], [1; 0])
  /\ Z.land 170 (Z.ones 5) = 10
  /\ Z.testbit 170 5 = true.
Proof. repeat split. Qed.

Lemma has_space_exact q n :
  0 <= written_bits q <= buffer_size q * 8 ->
  buffer_size q * 8 <= SIZE_MAX ->
  fst (bit_queue_has_space (Some q) n) = (buffer_size q * 8 - written_bits q >=? n).
Proof.
  unfold SIZE_MAX. rewrite SIZE_MOD_val. intros Hw Hs. simpl. unfold BITS_IN_BYTE.
  rewrite (sz_small (buffer_size q * 8)) by (rewrite SIZE_MOD_val; lia).
  rewrite sz_small by (rewrite SIZE_MOD_val; lia). reflexivity.
Qed.

Lemma copy_errno dsto srco dby dbi dsz sby sbi ssz n ret e dst' :
  bit_queue_bit_buffer_copy dsto srco dby dbi dsz sby sbi ssz n = Ret (ret, e, dst') ->
  e <> Some EAGAIN.
Proof.
  unfold bit_queue_bit_buffer_copy. intros H.
  destruct dsto as [dst|]; [destruct srco as [src|]|];
    try (injection H as <- <- <-; discriminate).
  destruct (copy_args_invalid _ _ _ _ _ _ _);
    [injection H as <- <- <-; discriminate|].
  destruct (_ <? _); [injection H as <- <- <-; discriminate|].
  apply bind_Ret in H as (st & _ & H). injection H as <- <- <-. discriminate.
Qed.

Lemma write_loop_errno fuel : forall q b bsz bby bbi r ret e q',
  write_loop fuel q b bsz bby bbi r = Ret (ret, e, q') -> e <> Some EAGAIN.
Proof.
  induction fuel as [|fuel IH]; intros q b bsz bby bbi r ret e q' Hl; [discriminate|].
  cbn [write_loop] in Hl. apply bind_Ret in Hl as ([[rv e1] dst] & Hc & Hl).
  apply copy_errno in Hc.
  destruct (rv =? -1); [injection Hl as <- <- <-; exact Hc|].
  destruct (advance_cursor bby bbi rv) as [bby' bbi'].
  destruct (wrap_write_cursor _ _) as [wby wbi].
  destruct (0 <? _).
  - apply IH in Hl. exact Hl.
  - injection Hl as <- <- <-. exact Hc.
Qed.

Lemma read_loop_errno fuel : forall q b bsz bby bbi r ret e q' b',
  read_loop fuel q b bsz bby bbi r = Ret (ret, e, q', b') -> e <> Some EAGAIN.
Proof.
  induction fuel as [|fuel IH]; intros q b bsz bby bbi r ret e q' b' Hl; [discriminate|].
  cbn [read_loop] in Hl. apply bind_Ret in Hl as ([[rv e1] dst] & Hc & Hl).
  apply copy_errno in Hc.
  destruct (rv =? -1); [injection Hl as <- <- <- <-; exact Hc|].
  destruct (advance_cursor bby bbi rv) as [bby' bbi'].
  destruct (wrap_read_cursor _ _) as [rby rbi].
  destruct (0 <? _).
  - apply IH in Hl. exact Hl.
  - injection Hl as <- <- <- <-. exact Hc.
Qed.

(** C7.  Error classification and atomicity.  For a queue with a backing
    buffer whose valid-bit count is within its capacity, a non-null caller
    buffer and [0 < bit_count <= buf_size*8]: [has_space] and [has_data]
    are exactly [buffer_size*8 - written_bits >= bit_count] and
    [written_bits >= bit_count]; a [bit_count] above [buffer_size*8] makes
    both operations return -1 with EMSGSIZE; otherwise the operation
    returns -1 with EAGAIN when [has_space] (write) or [has_data] (read)
    is false, and only then; in each of these failures the queue and the
    caller's buffer come back unchanged. *)
Theorem queue_failure_classification (q : queue) (ring b : list Z) (buf_size n : Z) :
  0 <= written_bits q <= buffer_size q * 8 ->
  buffer q = Some ring ->
  buffer_size q * 8 <= SIZE_MAX ->
  buf_size * 8 <= SIZE_MAX ->
  0 < n <= buf_size * 8 ->
  fst (bit_queue_has_space (Some q) n) = (buffer_size q * 8 - written_bits q >=? n)
  /\ fst (bit_queue_has_data (Some q) n) = (written_bits q >=? n)
  /\ (buffer_size q * 8 < n ->
      bit_queue_write_bits (Some q) (Some b) buf_size n
      = Ret (-1, Some EMSGSIZE, Some q, Some b)
      /\ bit_queue_read_bits (Some q) (Some b) buf_size n
         = Ret (-1, Some EMSGSIZE, Some q, Some b))
  /\ (n <= buffer_size q * 8 ->
      (fst (bit_queue_has_space (Some q) n) = false ->
       bit_queue_write_bits (Some q) (Some b) buf_size n
       = Ret (-1, Some EAGAIN, Some q, Some b))
      /\ (fst (bit_queue_has_space (Some q) n) = true ->
          forall ret e q' b',
            bit_queue_write_bits (Some q) (Some b) buf_size n = Ret (ret, e, q', b') ->
            e <> Some EAGAIN))
  /\ (n <= buffer_size q * 8 ->
      (fst (bit_queue_has_data (Some q) n) = false ->
       bit_queue_read_bits (Some q) (Some b) buf_size n
       = Ret (-1, Some EAGAIN, Some q, Some b))
      /\ (fst (bit_queue_has_data (Some q) n) = true ->
          forall ret e q' b',
            bit_queue_read_bits (Some q) (Some b) buf_size n = Ret (ret, e, q', b') ->
            e <> Some EAGAIN)).
Proof.
  intros Hw Hbuf Hqs Hbs Hn.
  pose proof (has_space_exact q n Hw Hqs) as Hsp.
  unfold SIZE_MAX in *. rewrite SIZE_MOD_val in *.
  assert (Hz : (n =? 0) = false) by (apply Z.eqb_neq; lia).
  assert (Hb8 : sz (buf_size * BITS_IN_BYTE) = buf_size * 8)
    by (unfold BITS_IN_BYTE; apply sz_small; rewrite SIZE_MOD_val; lia).
  assert (Hq8 : sz (buffer_size q * BITS_IN_BYTE) = buffer_size q * 8)
    by (unfold BITS_IN_BYTE; apply sz_small; rewrite SIZE_MOD_val; lia).
  assert (Hchk : (buf_size * 8 <? n) = false) by (apply Z.ltb_ge; lia).
  split; [exact Hsp|]. split; [reflexivity|].
  split; [|split].
  - intros Hbig.
    assert (Hgt : (n >? buffer_size q * 8) = true)
      by (rewrite Z.gtb_ltb; apply Z.ltb_lt; lia).
    unfold bit_queue_write_bits, bit_queue_read_bits.
    rewrite Hz, Hb8, Hchk, Hbuf, Hq8, Hgt. split; reflexivity.
  - intros Hfit.
    assert (Hgt : (n >? buffer_size q * 8) = false)
      by (rewrite Z.gtb_ltb; apply Z.ltb_ge; lia).
    unfold bit_queue_write_bits.
    rewrite Hz, Hb8, Hchk, Hbuf, Hq8, Hgt. cbn [orb]. split.
    + intros Hns. rewrite Hns. reflexivity.
    + intros Hs ret e q' b' H. rewrite Hs in H. cbn [negb] in H.
      apply bind_Ret in H as ([[rv e1] q1] & Hl & H). injection H as <- <- <- <-.
      exact (write_loop_errno _ _ _ _ _ _ _ _ _ _ Hl).
  - intros Hfit.
    assert (Hgt : (n >? buffer_size q * 8) = false)
      by (rewrite Z.gtb_ltb; apply Z.ltb_ge; lia).
    unfold bit_queue_read_bits.
    rewrite Hz, Hb8, Hchk, Hbuf, Hq8, Hgt. cbn [orb]. split.
    + intros Hnd. rewrite Hnd. reflexivity.
    + intros Hd ret e q' b' H. rewrite Hd in H. cbn [negb] in H.
      apply bind_Ret in H as ([[[rv e1] q1] b1] & Hl & H). injection H as <- <- <- <-.
      exact (read_loop_errno _ _ _ _ _ _ _ _ _ _ _ Hl).
Qed.

Lemma queue_failure_classification_witness :
  let q := mk_bit_queue (Some [255; 15]) 0 0 4 1 12 2 true in
  bit_queue_write_bits (Some q) (Some [1; 2; 3]) 3 17
  = Ret (-1, Some EMSGSIZE, Some q, Some [1; 2; 3])
  /\ bit_queue_write_bits (Some q) (Some [1; 2; 3]) 3 5
     = Ret (-1, Some EAGAIN, Some q, Some [1; 2; 3])
  /\ bit_queue_read_bits (Some q) (Some [0; 0; 0]) 3 13
     = Ret (-1, Some EAGAIN, Some q, Some [0; 0; 0]).
Proof.
  intros q.
  assert (Hw : 0 <= written_bits q <= buffer_size q * 8) by zclosed.
  split; [|split].
  - apply (queue_failure_classification q [255; 15] [1; 2; 3] 3 17 Hw eq_refl
             ltac:(zclosed) ltac:(zclosed) ltac:(zclosed)).
    zclosed.
  - apply (proj1 (proj1 (proj2 (proj2 (proj2
             (queue_failure_classification q [255; 15] [1; 2; 3] 3 5 Hw eq_refl
                ltac:(zclosed) ltac:(zclosed) ltac:(zclosed)))))
             ltac:(zclosed))).
    reflexivity.
  - apply (proj1 (proj2 (proj2 (proj2 (proj2
             (queue_failure_classification q [255; 15] [0; 0; 0] 3 13 Hw eq_refl
                ltac:(zclosed) ltac:(zclosed) ltac:(zclosed)))))
             ltac:(zclosed))).
    reflexivity.
Defined.

(** *** Preservation of the invariant *)

#[local] Arguments bit_queue_bit_buffer_copy : simpl never.
#[local] Arguments advance_cursor : simpl never.
#[local] Arguments wrap_read_cursor : simpl never.
#[local] Arguments wrap_write_cursor : simpl never.

Lemma copy_ret_cases dsto srco dby dbi dsz sby sbi ssz n ret e dst' :
  bit_queue_bit_buffer_copy dsto srco dby dbi dsz sby sbi ssz n = Ret (ret, e, dst') ->
  (ret = -1 /\ e <> None /\ dst' = dsto)
  \/ (e = None
      /\ ret = to_int (clip_bit_count sby sbi ssz n)
      /\ copy_args_invalid dby dbi dsz sby sbi ssz n = false
      /\ n <= remaining_bits dsz dby dbi).
Proof.
  unfold bit_queue_bit_buffer_copy. intros H.
  destruct dsto as [dst|]; [destruct srco as [src|]|];
    try (injection H as <- <- <-; left; repeat split; discriminate).
  destruct (copy_args_invalid dby dbi dsz sby sbi ssz n) eqn:Hv;
    [injection H as <- <- <-; left; repeat split; discriminate|].
  destruct (Z.ltb_spec (remaining_bits dsz dby dbi) n) as [Hsp|Hsp];
    [injection H as <- <- <-; left; repeat split; discriminate|].
  apply bind_Ret in H as (st & _ & H). injection H as <- <- <-.
  right. repeat split; assumption.
Qed.

Lemma advance_cursor_bounds byte_offset bit_offset ret_val size :
  0 <= byte_offset -> 0 <= bit_offset < 8 -> 0 <= ret_val ->
  8 * byte_offset + bit_offset + ret_val <= 8 * size ->
  8 * size <= SIZE_MAX ->
  let c := advance_cursor byte_offset bit_offset ret_val in
  0 <= fst c <= size /\ 0 <= snd c < 8
  /\ (fst c = size -> snd c = 0)
  /\ 8 * fst c + snd c = 8 * byte_offset + u8 (bit_offset + ret_val).
Proof.
  unfold SIZE_MAX. rewrite SIZE_MOD_val. intros Hb Hi Hr Hfit Hs.
  unfold advance_cursor, BITS_IN_BYTE. simpl.
  pose proof (u8_range (bit_offset + ret_val)) as Ht.
  pose proof (u8_le (bit_offset + ret_val) ltac:(lia)) as Htl.
  set (t := u8 (bit_offset + ret_val)) in *.
  assert (Hdm : t = 8 * (t / 8) + t mod 8 /\ 0 <= t mod 8 < 8 /\ 0 <= t / 8)
    by (Z.div_mod_to_equations; lia).
  rewrite (u8_small (t mod 8)) by lia.
  rewrite sz_small by (rewrite SIZE_MOD_val; lia).
  lia.
Qed.

Lemma write_loop_inv_int fuel : forall q b bsz bby bbi r ret e q',
  queue_inv q -> 8 * buffer_size q <= SIZE_MAX ->
  0 <= r <= INT_MAX -> written_bits q + r <= 8 * buffer_size q ->
  write_loop fuel q b bsz bby bbi r = Ret (ret, e, q') ->
  queue_inv q' /\ buffer_size q' = buffer_size q.
Proof.
  induction fuel as [|fuel IH]; intros q b bsz bby bbi r ret e q' Hinv Hsz Hr Hfree Hl;
    [discriminate|].
  simpl in Hl. apply bind_Ret in Hl as ([[rv e1] dst] & Hc & Hl).
  destruct (copy_ret_cases _ _ _ _ _ _ _ _ _ _ _ _ Hc)
    as [(-> & _ & ->)|(-> & Hrv & Hv & Hroom)].
  { simpl in Hl. injection Hl as <- <- <-. split; [exact Hinv | reflexivity]. }
  pose proof Hinv as (Hrb & Hri & Hwb & Hwi & Hw).
  unfold SIZE_MAX in Hsz. rewrite SIZE_MOD_val in Hsz. rewrite INT_MAX_val in Hr.
  destruct (copy_args_valid_inv _ _ _ _ _ _ _ Hv) as (Hn0 & _ & _ & _ & _ & Hnn).
  destruct (clip_bit_count_range bby bbi bsz r ltac:(lia)) as (Hc1 & Hc2).
  set (m := clip_bit_count bby bbi bsz r) in *.
  rewrite remaining_bits_exact in Hroom
    by (unfold bitpos, SIZE_MAX; rewrite ?SIZE_MOD_val; lia).
  unfold bitpos in Hroom.
  rewrite to_int_small in Hrv by (rewrite INT_MAX_val; lia). subst rv.
  destruct (Z.eqb_spec m (-1)) as [Hm1|Hm1]; [lia|].
  destruct (advance_cursor bby bbi m) as [bby' bbi'].
  simpl in Hl.
  pose proof (advance_cursor_bounds (w_byte_offset q) (w_bit_offset q) m (buffer_size q)
                ltac:(lia) ltac:(lia) ltac:(lia) ltac:(lia)
                ltac:(unfold SIZE_MAX; rewrite SIZE_MOD_val; lia)) as (Ha1 & Ha2 & Ha3 & Ha4).
  assert (Hwc : 0 <= fst (wrap_write_cursor (buffer_size q)
                   (advance_cursor (w_byte_offset q) (w_bit_offset q) m))
                < buffer_size q
                /\ 0 <= snd (wrap_write_cursor (buffer_size q)
                      (advance_cursor (w_byte_offset q) (w_bit_offset q) m)) < 8).
  { unfold wrap_write_cursor.
    destruct (Z.eqb_spec (fst (advance_cursor (w_byte_offset q) (w_bit_offset q) m))
                         (buffer_size q)); cbn [fst snd]; lia. }
  destruct (wrap_write_cursor (buffer_size q)
              (advance_cursor (w_byte_offset q) (w_bit_offset q) m))
    as [wby wbi].
  cbn [fst snd] in Hwc.
  unfold set_write_cursor in Hl.
  cbn [buffer r_bit_offset r_byte_offset w_bit_offset w_byte_offset
       written_bits buffer_size free_buff] in Hl.
  rewrite (sz_small m) in Hl by (rewrite SIZE_MOD_val; lia).
  rewrite (sz_small (written_bits q + m)) in Hl by (rewrite SIZE_MOD_val; lia).
  rewrite (sz_small (r - m)) in Hl by (rewrite SIZE_MOD_val; lia).
  match type of Hl with
  | context [Ret (_, _, ?qq)] => set (q1 := qq) in *
  end.
  assert (Hinv1 : queue_inv q1 /\ buffer_size q1 = buffer_size q)
    by (unfold queue_inv, q1; simpl; lia).
  destruct (Z.ltb_spec 0 (r - m)).
  - destruct Hinv1 as (Hinv1 & Hs1).
    assert (Hsz1 : 8 * buffer_size q1 <= SIZE_MAX)
      by (rewrite Hs1; unfold SIZE_MAX; rewrite SIZE_MOD_val; lia).
    assert (Hr1 : 0 <= r - m <= INT_MAX) by (rewrite INT_MAX_val; lia).
    assert (Hfree1 : written_bits q1 + (r - m) <= 8 * buffer_size q1)
      by (rewrite Hs1; unfold q1; cbn [written_bits]; lia).
    destruct (IH _ _ _ _ _ _ _ _ _ Hinv1 Hsz1 Hr1 Hfree1 Hl) as (? & ?).
    split; [assumption | congruence].
  - injection Hl as <- <- <-. exact Hinv1.
Qed.

Lemma write_loop_inv fuel : forall q b bsz bby bbi r ret e q',
  queue_inv q -> 8 * buffer_size q <= INT_MAX ->
  0 <= r -> written_bits q + r <= 8 * buffer_size q ->
  write_loop fuel q b bsz bby bbi r = Ret (ret, e, q') ->
  queue_inv q' /\ buffer_size q' = buffer_size q.
Proof.
  intros q b bsz bby bbi r ret e q' Hinv Hsz Hr Hfree Hl.
  pose proof Hinv as (_ & _ & _ & _ & Hw).
  apply (write_loop_inv_int fuel q b bsz bby bbi r ret e q' Hinv); try assumption.
  - rewrite INT_MAX_val in Hsz. unfold SIZE_MAX. rewrite SIZE_MOD_val. lia.
  - lia.
Qed.

Lemma read_loop_inv_int fuel : forall q b bsz bby bbi r ret e q' b',
  queue_inv q -> 8 * buffer_size q <= SIZE_MAX ->
  0 <= r <= written_bits q -> r <= INT_MAX ->
  read_loop fuel q b bsz bby bbi r = Ret (ret, e, q', b') ->
  queue_inv q' /\ buffer_size q' = buffer_size q.
Proof.
  induction fuel as [|fuel IH]; intros q b bsz bby bbi r ret e q' b' Hinv Hsz Hr Hint Hl;
    [discriminate|].
  simpl in Hl. apply bind_Ret in Hl as ([[rv e1] dst] & Hc & Hl).
  destruct (copy_ret_cases _ _ _ _ _ _ _ _ _ _ _ _ Hc)
    as [(-> & _ & ->)|(-> & Hrv & Hv & Hroom)].
  { simpl in Hl. injection Hl as <- <- <- <-. split; [exact Hinv | reflexivity]. }
  pose proof Hinv as (Hrb & Hri & Hwb & Hwi & Hw).
  unfold SIZE_MAX in Hsz. rewrite SIZE_MOD_val in Hsz. rewrite INT_MAX_val in Hint.
  destruct (copy_args_valid_inv _ _ _ _ _ _ _ Hv) as (Hn0 & _ & _ & _ & _ & Hnn).
  assert (Hrs : remaining_bits (buffer_size q) (r_byte_offset q) (r_bit_offset q)
                = 8 * buffer_size q - bitpos (r_byte_offset q) (r_bit_offset q))
    by (apply remaining_bits_exact;
        unfold bitpos, SIZE_MAX; rewrite ?SIZE_MOD_val; lia).
  assert (Hm : clip_bit_count (r_byte_offset q) (r_bit_offset q) (buffer_size q) r
               = Z.min r (8 * buffer_size q - bitpos (r_byte_offset q) (r_bit_offset q))).
  { unfold clip_bit_count. rewrite Hrs.
    destruct (Z.gtb_spec r (8 * buffer_size q
                            - bitpos (r_byte_offset q) (r_bit_offset q))); lia. }
  rewrite Hm in Hrv. unfold bitpos in *.
  set (m := Z.min r _) in *.
  assert (Hmr : 1 <= m <= r /\ 8 * r_byte_offset q + r_bit_offset q + m
                                <= 8 * buffer_size q) by (unfold m; lia).
  rewrite to_int_small in Hrv by (rewrite INT_MAX_val; lia). subst rv.
  destruct (Z.eqb_spec m (-1)) as [Hm1|Hm1]; [lia|].
  destruct (advance_cursor bby bbi m) as [bby' bbi'].
  simpl in Hl.
  pose proof (advance_cursor_bounds (r_byte_offset q) (r_bit_offset q) m (buffer_size q)
                ltac:(lia) ltac:(lia) ltac:(lia) ltac:(lia)
                ltac:(unfold SIZE_MAX; rewrite SIZE_MOD_val; lia)) as (Ha1 & Ha2 & Ha3 & Ha4).
  assert (Hrc : 0 <= fst (wrap_read_cursor (buffer_size q)
                   (advance_cursor (r_byte_offset q) (r_bit_offset q) m))
                < buffer_size q
                /\ 0 <= snd (wrap_read_cursor (buffer_size q)
                      (advance_cursor (r_byte_offset q) (r_bit_offset q) m)) < 8).
  { unfold wrap_read_cursor.
    destruct (Z.eqb_spec (fst (advance_cursor (r_byte_offset q) (r_bit_offset q) m))
                         (buffer_size q)); cbn [fst snd]; lia. }
  destruct (wrap_read_cursor (buffer_size q)
              (advance_cursor (r_byte_offset q) (r_bit_offset q) m))
    as [rby rbi].
  cbn [fst snd] in Hrc.
  unfold set_read_cursor in Hl.
  cbn [buffer r_bit_offset r_byte_offset w_bit_offset w_byte_offset
       written_bits buffer_size free_buff] in Hl.
  rewrite (sz_small m) in Hl by (rewrite SIZE_MOD_val; lia).
  rewrite (sz_small (written_bits q - m)) in Hl by (rewrite SIZE_MOD_val; lia).
  rewrite (sz_small (r - m)) in Hl by (rewrite SIZE_MOD_val; lia).
  match type of Hl with
  | context [Ret (_, _, ?qq, _)] => set (q1 := qq) in *
  end.
  assert (Hinv1 : queue_inv q1 /\ buffer_size q1 = buffer_size q)
    by (unfold queue_inv, q1; simpl; lia).
  destruct (Z.ltb_spec 0 (r - m)).
  - destruct Hinv1 as (Hinv1 & Hs1).
    assert (Hsz1 : 8 * buffer_size q1 <= SIZE_MAX)
      by (rewrite Hs1; unfold SIZE_MAX; rewrite SIZE_MOD_val; lia).
    assert (Hint1 : r - m <= INT_MAX) by (rewrite INT_MAX_val; lia).
    assert (Hr1 : 0 <= r - m <= written_bits q1)
      by (unfold q1; cbn [written_bits]; lia).
    destruct (IH _ _ _ _ _ _ _ _ _ _ Hinv1 Hsz1 Hr1 Hint1 Hl) as (? & ?).
    split; [assumption | congruence].
  - injection Hl as <- <- <- <-. exact Hinv1.
Qed.

Lemma read_loop_inv fuel : forall q b bsz bby bbi r ret e q' b',
  queue_inv q -> 8 * buffer_size q <= INT_MAX ->
  0 <= r <= written_bits q ->
  read_loop fuel q b bsz bby bbi r = Ret (ret, e, q', b') ->
  queue_inv q' /\ buffer_size q' = buffer_size q.
Proof.
  intros q b bsz bby bbi r ret e q' b' Hinv Hsz Hr Hl.
  pose proof Hinv as (_ & _ & _ & _ & Hw).
  apply (read_loop_inv_int fuel q b bsz bby bbi r ret e q' b' Hinv); try assumption.
  - rewrite INT_MAX_val in Hsz. unfold SIZE_MAX. rewrite SIZE_MOD_val. lia.
  - lia.
Qed.

Lemma write_loop_size fuel : forall q b bsz bby bbi r ret e q',
  write_loop fuel q b bsz bby bbi r = Ret (ret, e, q') ->
  buffer_size q' = buffer_size q.
Proof.
  induction fuel as [|fuel IH]; intros q b bsz bby bbi r ret e q' Hl; [discriminate|].
  simpl in Hl. apply bind_Ret in Hl as ([[rv e1] dst] & _ & Hl).
  destruct (rv =? -1); [injection Hl as <- <- <-; reflexivity|].
  destruct (advance_cursor bby bbi rv) as [bby' bbi'].
  destruct (wrap_write_cursor _ _) as [wby wbi].
  destruct (0 <? _).
  - apply IH in Hl. exact Hl.
  - injection Hl as <- <- <-. reflexivity.
Qed.

Lemma read_loop_size fuel : forall q b bsz bby bbi r ret e q' b',
  read_loop fuel q b bsz bby bbi r = Ret (ret, e, q', b') ->
  buffer_size q' = buffer_size q.
Proof.
  induction fuel as [|fuel IH]; intros q b bsz bby bbi r ret e q' b' Hl; [discriminate|].
  simpl in Hl. apply bind_Ret in Hl as ([[rv e1] dst] & _ & Hl).
  destruct (rv =? -1); [injection Hl as <- <- <- <-; reflexivity|].
  destruct (advance_cursor bby bbi rv) as [bby' bbi'].
  destruct (wrap_read_cursor _ _) as [rby rbi].
  destruct (0 <? _).
  - apply IH in Hl. exact Hl.
  - injection Hl as <- <- <- <-. reflexivity.
Qed.

Lemma write_bits_size q buf bsz n ret e q' buf' :
  bit_queue_write_bits (Some q) buf bsz n = Ret (ret, e, Some q', buf') ->
  buffer_size q' = buffer_size q.
Proof.
  unfold bit_queue_write_bits. intros H.
  destruct buf as [b|]; [|injection H as <- <- <- <-; reflexivity].
  destruct (_ || _); [injection H as <- <- <- <-; reflexivity|].
  destruct (buffer q); [|injection H as <- <- <- <-; reflexivity].
  destruct (_ >? _); [injection H as <- <- <- <-; reflexivity|].
  destruct (negb _); [injection H as <- <- <- <-; reflexivity|].
  apply bind_Ret in H as ([[rv e1] q1] & Hl & H). injection H as <- <- <- <-.
  exact (write_loop_size _ _ _ _ _ _ _ _ _ _ Hl).
Qed.

Lemma read_bits_size q buf bsz n ret e q' buf' :
  bit_queue_read_bits (Some q) buf bsz n = Ret (ret, e, Some q', buf') ->
  buffer_size q' = buffer_size q.
Proof.
  unfold bit_queue_read_bits. intros H.
  destruct buf as [b|]; [|injection H as <- <- <- <-; reflexivity].
  destruct (_ || _); [injection H as <- <- <- <-; reflexivity|].
  destruct (buffer q); [|injection H as <- <- <- <-; reflexivity].
  destruct (_ >? _); [injection H as <- <- <- <-; reflexivity|].
  destruct (negb _); [injection H as <- <- <- <-; reflexivity|].
  apply bind_Ret in H as ([[[rv e1] q1] b1] & Hl & H). injection H as <- <- <- <-.
  exact (read_loop_size _ _ _ _ _ _ _ _ _ _ _ Hl).
Qed.

Lemma write_bits_inv q buf bsz n ret e q' buf' :
  queue_inv q -> 8 * buffer_size q <= INT_MAX -> 0 <= n ->
  bit_queue_write_bits (Some q) buf bsz n = Ret (ret, e, Some q', buf') ->
  queue_inv q'.
Proof.
  intros Hinv Hsz Hn H. unfold bit_queue_write_bits in H.
  destruct buf as [b|]; [|injection H as <- <- <- <-; exact Hinv].
  destruct (_ || _); [injection H as <- <- <- <-; exact Hinv|].
  destruct (buffer q); [|injection H as <- <- <- <-; exact Hinv].
  destruct (_ >? _); [injection H as <- <- <- <-; exact Hinv|].
  destruct (negb _) eqn:Hsp; [injection H as <- <- <- <-; exact Hinv|].
  apply bind_Ret in H as ([[rv e1] q1] & Hl & H). injection H as <- <- <- <-.
  apply negb_false_iff in Hsp.
  pose proof Hinv as (_ & _ & _ & _ & Hw).
  rewrite has_space_exact in Hsp
    by (try assumption; unfold SIZE_MAX; rewrite SIZE_MOD_val, INT_MAX_val in *; lia).
  rewrite Z.geb_leb in Hsp. apply Z.leb_le in Hsp.
  apply (write_loop_inv _ _ _ _ _ _ _ _ _ _ Hinv Hsz Hn ltac:(lia) Hl).
Qed.

Lemma read_bits_inv q buf bsz n ret e q' buf' :
  queue_inv q -> 8 * buffer_size q <= INT_MAX -> 0 <= n ->
  bit_queue_read_bits (Some q) buf bsz n = Ret (ret, e, Some q', buf') ->
  queue_inv q'.
Proof.
  intros Hinv Hsz Hn H. unfold bit_queue_read_bits in H.
  destruct buf as [b|]; [|injection H as <- <- <- <-; exact Hinv].
  destruct (_ || _); [injection H as <- <- <- <-; exact Hinv|].
  destruct (buffer q); [|injection H as <- <- <- <-; exact Hinv].
  destruct (_ >? _); [injection H as <- <- <- <-; exact Hinv|].
  destruct (negb _) eqn:Hsp; [injection H as <- <- <- <-; exact Hinv|].
  apply bind_Ret in H as ([[[rv e1] q1] b1] & Hl & H). injection H as <- <- <- <-.
  apply negb_false_iff in Hsp. simpl in Hsp.
  rewrite Z.geb_leb in Hsp. apply Z.leb_le in Hsp.
  assert (Hr : 0 <= n <= written_bits q) by lia.
  apply (read_loop_inv _ _ _ _ _ _ _ _ _ _ _ Hinv Hsz Hr Hl).
Qed.



(** X21.  Reachable states of a queue whose capacity in bits fits an
    [int] ([buffer_size*8 <= INT_MAX]): in every state reached from either
    constructor through any sequence of read and write calls, with any
    arguments, successful or failing, both cursors have
    [byte_offset < buffer_size] and [bit_offset < 8], and
    [0 <= written_bits <= buffer_size*8].  No bound on the bit counts is
    needed here: a call for more bits than the ring holds is refused. *)
Theorem queue_invariant q :
  reachable q ->
  8 * buffer_size q <= INT_MAX ->
  (0 <= r_byte_offset q < buffer_size q /\ 0 <= r_bit_offset q < 8)
  /\ (0 <= w_byte_offset q < buffer_size q /\ 0 <= w_bit_offset q < 8)
  /\ 0 <= written_bits q <= buffer_size q * 8.
Proof.
  intros Hreach Hsz.
  assert (Hinv : queue_inv q).
  { induction Hreach as [n q Hn Hq|buff n fb q Hn Hq
                        |q buf bsz n ret e q' buf' Hreach IH Hb Hn Hop
                        |q buf bsz n ret e q' buf' Hreach IH Hb Hn Hop].
    - unfold bit_queue_base_init in Hq. unfold is_size_t in Hn.
      destruct (Z.eqb_spec n 0); [discriminate|].
      injection Hq as <-. unfold queue_inv. simpl in *. lia.
    - unfold bit_queue_init in Hq. unfold is_size_t in Hn.
      destruct buff; [|discriminate].
      destruct (Z.eqb_spec n 0); [discriminate|].
      injection Hq as <-. unfold queue_inv. simpl in *.
      unfold BITS_IN_BYTE. rewrite INT_MAX_val in Hsz.
      rewrite sz_small by (rewrite SIZE_MOD_val; lia). lia.
    - pose proof (read_bits_size _ _ _ _ _ _ _ _ Hop) as Hs.
      rewrite Hs in Hsz. destruct Hn as [Hn _].
      exact (read_bits_inv _ _ _ _ _ _ _ _ (IH Hsz) Hsz Hn Hop).
    - pose proof (write_bits_size _ _ _ _ _ _ _ _ Hop) as Hs.
      rewrite Hs in Hsz. destruct Hn as [Hn _].
      exact (write_bits_inv _ _ _ _ _ _ _ _ (IH Hsz) Hsz Hn Hop). }
  destruct Hinv as (Hrb & Hri & Hwb & Hwi & Hw).
  repeat split; lia.
Qed.

Lemma queue_invariant_witness :
  let q := mk_bit_queue (Some [255; 15]) 0 0 4 1 12 2 true in
  0 <= w_byte_offset q < buffer_size q /\ 0 <= w_bit_offset q < 8
  /\ 0 <= written_bits q <= buffer_size q * 8.
Proof.
  intros q.
  assert (Hs2 : is_size_t 2) by (unfold is_size_t; zclosed).
  assert (Hs12 : is_size_t 12) by (unfold is_size_t; zclosed).
  assert (Hreach : reachable q).
  { apply (reach_write (mk_bit_queue (Some [0; 0]) 0 0 0 0 0 2 true)
             (Some [255; 15]) 2 12 12 None q (Some [255; 15])).
    - apply (reach_base_init 2); [exact Hs2 | reflexivity].
    - exact Hs2.
    - exact Hs12.
    - reflexivity. }
  destruct (queue_invariant q Hreach ltac:(zclosed)) as (_ & Hw & Hwr).
  tauto.
Defined.

(** C2, at the failing input.  A fresh 2-byte queue is written with 12
    bits and read for 12 bits: it is empty, all 16 bits are free, and both
    cursors stand at byte 1, bit 4.  A write of 8 bits from a 1-byte
    source passes every precondition check, [bit_queue_has_space]
    included, and must cross the end of the ring.  It returns -1 with
    EMSGSIZE and leaves the queue as it was. *)
Theorem write_across_ring_end_fails :
  exists q,
    (q0 ← Ret (fst (bit_queue_base_init 2));
     '(_, _, q1, _) ← bit_queue_write_bits q0 (Some [255; 15]) 2 12;
     '(_, _, q2, _) ← bit_queue_read_bits q1 (Some [0; 0]) 2 12;
     Ret q2) = Ret (Some q)
    /\ (w_byte_offset q, w_bit_offset q) = (1, 4)
    /\ buffer_size q * 8 - written_bits q = 16
    /\ fst (bit_queue_has_space (Some q) 8) = true
    /\ (8 >? sz (buffer_size q * BITS_IN_BYTE)) = false
    /\ bit_queue_write_bits (Some q) (Some [255]) 1 8
       = Ret (-1, Some EMSGSIZE, Some q, Some [255]).
Proof.
  exists (mk_bit_queue (Some [255; 15]) 4 1 4 1 0 2 true).
  repeat split.
Qed.

(** ** Round trips *)

(** C1, at a failing input.  A fresh 33-byte queue takes a sequence of 264
    bits, 256 zeros followed by 8 ones, written as a chunk of 256 bits and
    a chunk of 8 bits and read back as one chunk of 264 bits.  All three
    calls return the full count, yet the bits read back are 8 ones
    followed by 256 zeros: after the 256-bit write the [uint8_t] bit
    offset of the write cursor has wrapped to 0 and the cursor has not
    moved, so the second chunk lands on bit 0. *)
Theorem round_trip_breaks_at_256_bits :
  let s := replicate 256 false ++ replicate 8 true in
  exists q bits,
    (length s <= 33 * 8)%nat
    /\ write_chunks (fst (bit_queue_base_init 33))
                    [replicate 256 false; replicate 8 true]
       = Ret ([256; 8], Some q)
    /\ (w_byte_offset q, w_bit_offset q) = (1, 0)
    /\ read_chunks (Some q) [264%nat] = Ret ([264], bits, Some (set_read_cursor q 0 1 0))
    /\ bits = replicate 8 true ++ replicate 256 false
    /\ bits <> s.
Proof.
  eexists. eexists.
  split; [vm_compute; lia|].
  split; [vm_compute; reflexivity|].
  split; [reflexivity|].
  split; [vm_compute; reflexivity|].
  split; [vm_compute; reflexivity|].
  vm_compute. discriminate.
Qed.

(** The same claim fails on a queue that is used a second time: the ring
    keeps the bits of the first lap, and the second lap is OR-ed onto
    them. *)
Lemma round_trip_breaks_on_second_lap :
  exists q,
    (q0 ← Ret (fst (bit_queue_base_init 1));
     '(_, q1) ← write_chunks q0 [replicate 8 true];
     '(_, _, q2) ← read_chunks q1 [8%nat];
     Ret q2) = Ret (Some q)
    /\ written_bits q = 0
    /\ (q1 ← write_chunks (Some q) [replicate 8 false];
        '(rets, bits, _) ← read_chunks q1.2 [8%nat];
        Ret (q1.1, rets, bits))
       = Ret ([8], [8], replicate 8 true).
Proof.
  eexists. split; [vm_compute; reflexivity|].
  split; vm_compute; reflexivity.
Qed.

(** ** Construction and destruction *)

(** The two layers agree on what the constructors build. *)
Lemma alloc_base_init_load (h : gmap Alloc.addr Alloc.block) byte_count :
  byte_count <> 0 ->
  exists p h',
    Alloc.bit_queue_base_init true true h byte_count = (Some p, None, h')
    /\ h !! p = None
    /\ Alloc.load_queue h' p = fst (bit_queue_base_init byte_count).
Proof.
  intros Hn. unfold Alloc.bit_queue_base_init, bit_queue_base_init, Alloc.calloc.
  apply Z.eqb_neq in Hn. rewrite Hn. cbn zeta.
  set (p := fresh (dom h)).
  set (h1 := <[p := _]> h).
  set (b := fresh (dom h1)).
  assert (Hp : h !! p = None) by (apply not_elem_of_dom, is_fresh).
  assert (Hb : h1 !! b = None) by (apply not_elem_of_dom, is_fresh).
  assert (Hne : p <> b).
  { intros E. unfold h1 in Hb. rewrite <- E, lookup_insert_eq in Hb. discriminate. }
  eexists p, _. split; [reflexivity|]. split; [exact Hp|].
  unfold Alloc.load_queue. rewrite lookup_insert_eq. queue_fields.
  rewrite lookup_insert_ne by congruence.
  rewrite lookup_insert_eq. reflexivity.
Qed.

Lemma alloc_init_load (h : gmap Alloc.addr Alloc.block) b bs byte_count fb :
  byte_count <> 0 -> h !! b = Some (Alloc.Bytes bs) ->
  exists p h',
    Alloc.bit_queue_init true h (Some b) byte_count fb = (Some p, None, h')
    /\ h !! p = None
    /\ Alloc.load_queue h' p = fst (bit_queue_init (Some bs) byte_count fb).
Proof.
  intros Hn Hb. unfold Alloc.bit_queue_init, bit_queue_init, Alloc.calloc.
  apply Z.eqb_neq in Hn. rewrite Hn. cbn zeta.
  set (p := fresh (dom h)).
  assert (Hp : h !! p = None) by (apply not_elem_of_dom, is_fresh).
  assert (Hne : p <> b) by (intros ->; congruence).
  eexists p, _. split; [reflexivity|]. split; [exact Hp|].
  unfold Alloc.load_queue. rewrite lookup_insert_eq. queue_fields.
  rewrite !lookup_insert_ne by congruence. rewrite Hb. reflexivity.
Qed.

(** What [bit_queue_destroy] does on a live queue structure and on the
    NULL pointer. *)
Lemma destroy_live (h : gmap Alloc.addr Alloc.block) p (q : bit_queue_t Alloc.addr) :
  h !! p = Some (Alloc.Queue q) ->
  Alloc.bit_queue_destroy h None = Ret (-1, Some EINVAL, h)
  /\ (buffer q = None ->
      Alloc.bit_queue_destroy h (Some p) = Ret (-1, Some EINVAL, h))
  /\ (forall b, buffer q = Some b -> free_buff q = false ->
        Alloc.bit_queue_destroy h (Some p) = Ret (0, None, delete p h))
  /\ (forall b, buffer q = Some b -> free_buff q = true ->
        b <> p -> is_Some (h !! b) ->
        Alloc.bit_queue_destroy h (Some p) = Ret (0, None, delete p (delete b h))).
Proof.
  intros Hp. split; [reflexivity|]. unfold Alloc.bit_queue_destroy. rewrite Hp.
  split; [intros ->; reflexivity|]. split.
  - intros b Hbuf Hfb. rewrite Hbuf, Hfb. simpl. unfold Alloc.free.
    rewrite lookup_insert_eq. simpl. rewrite delete_insert_eq. reflexivity.
  - intros b Hbuf Hfb Hne [blk Hb]. rewrite Hbuf, Hfb. simpl.
    unfold Alloc.free. rewrite Hb. simpl.
    rewrite lookup_insert_eq. simpl. rewrite delete_insert_eq. reflexivity.
Qed.

(** A queue made by [bit_queue_base_init] and destroyed: the heap is back
    to what it was, and the pointer dangles. *)
Lemma destroy_after_base_init (h : gmap Alloc.addr Alloc.block) byte_count p e h' :
  byte_count <> 0 ->
  Alloc.bit_queue_base_init true true h byte_count = (Some p, e, h') ->
  Alloc.bit_queue_destroy h' (Some p) = Ret (0, None, h)
  /\ h !! p = None
  /\ Alloc.bit_queue_destroy h (Some p) = Undef.
Proof.
  intros Hn Hinit.
  unfold Alloc.bit_queue_base_init, Alloc.calloc in Hinit.
  apply Z.eqb_neq in Hn. rewrite Hn in Hinit. cbn iota zeta in Hinit.
  set (p0 := fresh (dom h)) in *.
  set (h1 := <[p0 := _]> h) in *.
  set (b := fresh (dom h1)) in *.
  assert (Hp : h !! p0 = None) by (apply not_elem_of_dom, is_fresh).
  assert (Hb1 : h1 !! b = None) by (apply not_elem_of_dom, is_fresh).
  assert (Hne : p0 <> b).
  { intros E. unfold h1 in Hb1. rewrite <- E, lookup_insert_eq in Hb1. discriminate. }
  assert (Hb : h !! b = None).
  { unfold h1 in Hb1. rewrite lookup_insert_ne in Hb1 by congruence. exact Hb1. }
  injection Hinit as <- <- <-.
  split; [|split; [exact Hp|]].
  - unfold Alloc.bit_queue_destroy. rewrite lookup_insert_eq. queue_fields.
    unfold Alloc.free.
    rewrite lookup_insert_ne by congruence. rewrite lookup_insert_eq.
    cbn [mbind outcome_bind].
    rewrite lookup_insert_eq. cbn [mbind outcome_bind].
    f_equal. f_equal. apply map_eq. intros i.
    destruct (decide (i = p0)) as [->|Hip];
      [rewrite lookup_delete_eq; congruence|].
    rewrite lookup_delete_ne by congruence.
    rewrite lookup_insert_ne by congruence.
    destruct (decide (i = b)) as [->|Hib];
      [rewrite lookup_delete_eq; congruence|].
    rewrite lookup_delete_ne by congruence.
    rewrite lookup_insert_ne by congruence.
    rewrite lookup_insert_ne by congruence.
    unfold h1. rewrite lookup_insert_ne by congruence. reflexivity.
  - unfold Alloc.bit_queue_destroy. rewrite Hp. reflexivity.
Qed.

(** C9, at the failing input.  A queue made by [bit_queue_base_init] is
    destroyed twice.  The first call returns 0 and frees the buffer and
    the structure itself; the heap is empty.  The second call receives the
    same, now dangling, pointer: it is not NULL, and the test
    [bq->buffer == NULL] reads the structure that was just freed.  The
    call has no defined result; it does not return -1 with EINVAL. *)
Theorem destroy_twice_reads_freed_queue :
  exists p h,
    Alloc.bit_queue_base_init true true ∅ 1 = (Some p, None, h)
    /\ Alloc.bit_queue_destroy h (Some p) = Ret (0, None, ∅)
    /\ Alloc.bit_queue_destroy ∅ (Some p) = Undef
    /\ Alloc.bit_queue_destroy ∅ (Some p) <> Ret (-1, Some EINVAL, ∅).
Proof.
  destruct (alloc_base_init_load ∅ 1 ltac:(lia)) as (p & h & Hinit & _ & _).
  destruct (destroy_after_base_init ∅ 1 p None h ltac:(lia) Hinit) as (H1 & _ & H2).
  exists p, h. split; [exact Hinit|]. split; [exact H1|].
  split; [exact H2|]. rewrite H2. discriminate.
Qed.

(** *** Beyond the range of [int]

    A queue of 2^28 bytes holds 2^31 bits, one more than INT_MAX.  A write
    of all of them is copied in full by the transfer primitive, whose
    count comes back as the [int] -2^31; the bookkeeping adds that value
    to [written_bits] and subtracts it from the remaining count, and the
    next pass of the loop is refused by the primitive. *)

Lemma write_loop_unfold fuel q b bsz bby bbi r :
  write_loop (S fuel) q b bsz bby bbi r
  = ('(ret_val, e, dst) ←
       bit_queue_bit_buffer_copy (buffer q) (Some b)
         (w_byte_offset q) (w_bit_offset q) (buffer_size q) bby bbi bsz r;
     let q := set_write_cursor q dst (w_bit_offset q) (w_byte_offset q)
                               (written_bits q) in
     if ret_val =? -1 then Ret (ret_val, e, q)
     else
       let '(b_byte_offset, b_bit_offset) := advance_cursor bby bbi ret_val in
       let '(w_byte, w_bit) :=
         wrap_write_cursor (buffer_size q)
           (advance_cursor (w_byte_offset q) (w_bit_offset q) ret_val) in
       let q := set_write_cursor q (buffer q) w_bit w_byte
                                 (sz (written_bits q + sz ret_val)) in
       let r_bits := sz (r - sz ret_val) in
       if 0 <? r_bits
       then write_loop fuel q b bsz b_byte_offset b_bit_offset r_bits
       else Ret (ret_val, e, q)).
Proof. reflexivity. Qed.

Lemma big_write_general (n : Z) (ring src : list Z) :
  n = 268435456 ->
  Z.of_nat (length ring) = n -> Z.of_nat (length src) = n ->
  exists ring',
    bit_queue_write_bits (Some (mk_bit_queue (Some ring) 0 0 0 0 0 n true))
                         (Some src) n 2147483648
    = Ret (-1, Some EINVAL,
           Some (mk_bit_queue (Some ring') 0 0 0 0 18446744071562067968 n true),
           Some src).
Proof.
  intros Hn Hring Hsrc.
  assert (H8 : sz (n * BITS_IN_BYTE) = 2147483648) by (subst n; reflexivity).
  assert (Hcopy : exists ring',
    bit_queue_bit_buffer_copy (Some ring) (Some src) 0 0 n 0 0 n 2147483648
    = Ret (-2147483648, None, Some ring')).
  { destruct (copy_success ring src 0 0 0 0 2147483648) as (ring' & Hc & _);
      rewrite ?Hring, ?Hsrc; try lia.
    - unfold SIZE_MAX. rewrite SIZE_MOD_val. lia.
    - unfold SIZE_MAX. rewrite SIZE_MOD_val. lia.
    - subst n. reflexivity.
    - unfold bitpos. lia.
    - exists ring'. rewrite Hring, Hsrc in Hc. rewrite Hc. unfold bitpos.
      replace (Z.min 2147483648 (8 * n - (8 * 0 + 0))) with 2147483648 by lia.
      reflexivity. }
  destruct Hcopy as (ring' & Hcopy). exists ring'.
  unfold bit_queue_write_bits. queue_fields. rewrite H8.
  change ((2147483648 =? 0) || (2147483648 <? 2147483648)) with false.
  change (2147483648 >? 2147483648) with false.
  unfold bit_queue_has_space. queue_fields. rewrite H8.
  change (negb (sz (2147483648 - 0) >=? 2147483648, None).1) with false.
  cbn iota.
  rewrite write_loop_unfold. queue_fields. rewrite Hcopy.
  cbn [mbind outcome_bind]. unfold set_write_cursor. queue_fields.
  change (-2147483648 =? -1) with false. cbn iota.
  change (advance_cursor 0 0 (-2147483648)) with (0, 0).
  unfold wrap_write_cursor. cbn [fst snd].
  replace (0 =? n) with false by (symmetry; apply Z.eqb_neq; lia).
  cbn iota.
  change (sz (0 + sz (-2147483648))) with 18446744071562067968.
  change (sz (2147483648 - sz (-2147483648))) with 4294967296.
  change (0 <? 4294967296) with true. cbn iota.
  replace (Z.to_nat 2147483648) with (S (Z.to_nat 2147483647))
    by (rewrite <- Z2Nat.inj_succ by lia; reflexivity).
  rewrite write_loop_unfold. queue_fields.
  unfold bit_queue_bit_buffer_copy, copy_args_invalid. rewrite H8.
  change (2147483648 <? 4294967296) with true.
  rewrite !orb_true_r. cbn [mbind outcome_bind]. cbn iota.
  unfold set_write_cursor. queue_fields. reflexivity.
Qed.

(** C8, at the failing input.  A queue of 2^28 bytes made by
    [bit_queue_base_init] is written with 2^31 bits, all it can hold, from
    a buffer of 2^28 bytes.  The count passes every check; the transfer
    primitive copies all the bits and hands its count back as an [int],
    -2^31.  [written_bits += ret_val] and [r_bits -= ret_val] then run
    with that negative value: [written_bits] becomes 2^64 - 2^31, far
    above [buffer_size * 8 = 2^31], the remaining count becomes 2^32, and
    the next pass of the loop is refused by the primitive, so the call
    returns -1 with EINVAL.  The state reached is outside the invariant. *)
Theorem invariant_fails_beyond_int_range :
  exists q,
    bit_queue_write_bits (fst (bit_queue_base_init 268435456))
      (Some (replicate (Z.to_nat 268435456) 0)) 268435456 2147483648
    = Ret (-1, Some EINVAL, Some q, Some (replicate (Z.to_nat 268435456) 0))
    /\ written_bits q = 2 ^ 64 - 2 ^ 31
    /\ reachable q
    /\ buffer_size q * 8 = INT_MAX + 1
    /\ ~ (written_bits q <= buffer_size q * 8).
Proof.
  set (zeros := replicate (Z.to_nat 268435456) 0).
  assert (Hlen : Z.of_nat (length zeros) = 268435456).
  { unfold zeros. rewrite length_replicate. apply Z2Nat.id. lia. }
  destruct (big_write_general 268435456 zeros zeros eq_refl Hlen Hlen)
    as (ring' & Hw).
  assert (Hq0 : fst (bit_queue_base_init 268435456)
                = Some (mk_bit_queue (Some zeros) 0 0 0 0 0 268435456 true)).
  { unfold bit_queue_base_init. change (268435456 =? 0) with false.
    cbn iota. cbn [fst]. reflexivity. }
  rewrite Hq0.
  eexists. split; [exact Hw|]. split; [|split; [|split]].
  - queue_fields. reflexivity.
  - eapply (reach_write _ (Some zeros) 268435456 2147483648).
    + apply (reach_base_init 268435456).
      * unfold is_size_t, SIZE_MAX. rewrite SIZE_MOD_val. lia.
      * exact Hq0.
    + unfold is_size_t, SIZE_MAX. rewrite SIZE_MOD_val. lia.
    + unfold is_size_t, SIZE_MAX. rewrite SIZE_MOD_val. lia.
    + exact Hw.
  - queue_fields. rewrite INT_MAX_val. lia.
  - queue_fields. lia.
Qed.

(** *** The operations return

    On a queue that satisfies the invariant, with buffers that fit the
    address space, the fuel handed to the loops is never exhausted: a
    call either returns or runs into an undefined access. *)

Lemma copy_iter_not_fuel src st : copy_iter src st <> OutOfFuel.
Proof.
  unfold copy_iter, load.
  destruct (src !! _); [|discriminate].
  destruct (cs_dst_buff st !! _); [|discriminate]. simpl.
  repeat match goal with |- context [if ?c then _ else _] => destruct c end;
    discriminate.
Qed.

Lemma copy_loop_not_fuel src fuel : forall st,
  copy_wf st ->
  Z.of_nat (length (cs_dst_buff st)) < SIZE_MOD ->
  Z.of_nat (length src) < SIZE_MOD ->
  cs_r_bits st < Z.of_nat fuel ->
  copy_loop fuel src st <> OutOfFuel.
Proof.
  induction fuel as [|fuel IH]; intros st Hwf Hld Hls Hfuel.
  { destruct Hwf as (_ & _ & ? & _). lia. }
  simpl. destruct (copy_iter src st) as [st1| |] eqn:Hit; simpl;
    [|discriminate|destruct (copy_iter_not_fuel _ _ Hit)].
  destruct (copy_iter_wf _ _ _ Hwf Hld Hls Hit) as (Hwf1 & Hlen1 & Hr1 & _).
  destruct (Z.ltb_spec 0 (cs_r_bits st1)); [|discriminate].
  apply IH; try assumption; [rewrite Hlen1; exact Hld|].
  destruct Hwf as (? & ? & ? & _). unfold run_length in Hr1. lia.
Qed.

Lemma copy_not_fuel dsto srco dby dbi dsz sby sbi ssz n :
  0 <= dby -> 0 <= dbi -> 0 <= sby -> 0 <= sbi -> 0 <= n ->
  (forall dst, dsto = Some dst -> Z.of_nat (length dst) < SIZE_MOD) ->
  (forall src, srco = Some src -> Z.of_nat (length src) < SIZE_MOD) ->
  bit_queue_bit_buffer_copy dsto srco dby dbi dsz sby sbi ssz n <> OutOfFuel.
Proof.
  intros Hdby Hdbi Hsby Hsbi Hn Hld Hls. unfold bit_queue_bit_buffer_copy.
  destruct dsto as [dst|]; [|discriminate].
  destruct srco as [src|]; [|discriminate].
  destruct (copy_args_invalid dby dbi dsz sby sbi ssz n) eqn:Hv; [discriminate|].
  destruct (remaining_bits dsz dby dbi <? n); [discriminate|].
  destruct (copy_args_valid_inv _ _ _ _ _ _ _ Hv) as (Hn0 & _ & _ & Hdb & Hsb & Hnn).
  destruct (clip_bit_count_range sby sbi ssz n ltac:(lia)) as (Hc1 & Hc2).
  pose proof (copy_loop_not_fuel src (S (Z.to_nat (clip_bit_count sby sbi ssz n)))
                (mk_copy_state dst dby dbi sby sbi (clip_bit_count sby sbi ssz n)))
    as Hnf.
  destruct (copy_loop _ _ _); simpl; try discriminate.
  exfalso. apply Hnf; simpl; auto; [unfold copy_wf; simpl; lia | lia].
Qed.

Lemma copy_length dst src dby dbi dsz sby sbi ssz n ret e dst' :
  0 <= dby -> 0 <= dbi -> 0 <= sby -> 0 <= sbi -> 0 <= n ->
  Z.of_nat (length dst) < SIZE_MOD ->
  Z.of_nat (length src) < SIZE_MOD ->
  bit_queue_bit_buffer_copy (Some dst) (Some src) dby dbi dsz sby sbi ssz n
  = Ret (ret, e, dst') ->
  exists d, dst' = Some d /\ length d = length dst.
Proof.
  intros Hdby Hdbi Hsby Hsbi Hn Hld Hls Hc.
  destruct (copy_ret_cases _ _ _ _ _ _ _ _ _ _ _ _ Hc)
    as [(_ & _ & ->)|(-> & _ & _ & _)]; [eauto|].
  destruct (copy_success_inv _ _ _ _ _ _ _ _ _ _ _
              Hdby Hdbi Hsby Hsbi Hn Hld Hls Hc) as (st & Hloop & Hwf & -> & _).
  exists (cs_dst_buff st). split; [reflexivity|].
  exact (proj1 (copy_loop_bits _ _ _ _ Hwf Hld Hls Hloop)).
Qed.

Lemma advance_cursor_nonneg byte_offset bit_offset ret_val :
  0 <= fst (advance_cursor byte_offset bit_offset ret_val)
  /\ 0 <= snd (advance_cursor byte_offset bit_offset ret_val).
Proof.
  unfold advance_cursor. cbn [fst snd].
  pose proof (sz_range (byte_offset + u8 (bit_offset + ret_val) / BITS_IN_BYTE)).
  pose proof (u8_range (u8 (bit_offset + ret_val) mod BITS_IN_BYTE)). lia.
Qed.

Lemma write_bits_returns q ring b bsz n :
  queue_inv q -> buffer q = Some ring ->
  8 * buffer_size q <= INT_MAX ->
  is_size_t bsz -> 0 <= n ->
  Z.of_nat (length ring) < SIZE_MOD -> Z.of_nat (length b) < SIZE_MOD ->
  bit_queue_write_bits (Some q) (Some b) bsz n <> OutOfFuel.
Proof.
  intros Hinv Hbuf Hsz Hbs Hn Hlr Hlb. unfold bit_queue_write_bits.
  destruct (Z.eqb_spec n 0); [discriminate|]. cbn [orb].
  destruct (Z.ltb_spec (sz (bsz * BITS_IN_BYTE)) n); [discriminate|].
  rewrite Hbuf.
  destruct (Z.gtb_spec n (sz (buffer_size q * BITS_IN_BYTE))); [discriminate|].
  destruct (negb _); [discriminate|].
  pose proof Hinv as (Hrb & Hri & Hwb & Hwi & Hw).
  rewrite INT_MAX_val in Hsz. unfold is_size_t, SIZE_MAX in Hbs.
  rewrite SIZE_MOD_val in Hbs.
  assert (Hq8 : sz (buffer_size q * BITS_IN_BYTE) = buffer_size q * 8)
    by (unfold BITS_IN_BYTE; apply sz_small; rewrite SIZE_MOD_val; lia).
  rewrite write_loop_unfold. rewrite Hbuf.
  pose proof (copy_not_fuel (Some ring) (Some b) (w_byte_offset q) (w_bit_offset q)
                (buffer_size q) 0 0 bsz n ltac:(lia) ltac:(lia) ltac:(lia)
                ltac:(lia) ltac:(lia)
                ltac:(intros ? [= <-]; exact Hlr)
                ltac:(intros ? [= <-]; exact Hlb)) as Hnf.
  destruct (bit_queue_bit_buffer_copy _ _ _ _ _ _ _ _ _) as [[[rv e] dst]| |] eqn:Hc;
    [|discriminate|congruence].
  cbn [mbind outcome_bind].
  destruct (copy_ret_cases _ _ _ _ _ _ _ _ _ _ _ _ Hc)
    as [(-> & _ & _)|(_ & Hrv & _ & _)]; [discriminate|].
  assert (Hclip : clip_bit_count 0 0 bsz n = n).
  { unfold clip_bit_count, remaining_bits. rewrite !Z.sub_0_r.
    rewrite (sz_small bsz) by (rewrite SIZE_MOD_val; lia).
    rewrite (sz_small (sz _)) by apply sz_range.
    destruct (Z.gtb_spec n (sz (bsz * BITS_IN_BYTE))); [lia | reflexivity]. }
  rewrite Hclip, to_int_small in Hrv by (rewrite INT_MAX_val; lia). subst rv.
  destruct (n =? -1); [discriminate|].
  destruct (advance_cursor 0 0 n). destruct (wrap_write_cursor _ _).
  rewrite (sz_small n) by (rewrite SIZE_MOD_val; lia).
  rewrite Z.sub_diag. change (0 <? sz 0) with false. discriminate.
Qed.

Lemma read_loop_not_fuel fuel : forall q ring b bsz bby bbi r,
  queue_inv q -> buffer q = Some ring ->
  8 * buffer_size q <= INT_MAX ->
  0 <= r <= written_bits q -> r <= Z.of_nat fuel -> (1 <= fuel)%nat ->
  0 <= bby -> 0 <= bbi ->
  Z.of_nat (length ring) < SIZE_MOD -> Z.of_nat (length b) < SIZE_MOD ->
  read_loop fuel q b bsz bby bbi r <> OutOfFuel.
Proof.
  induction fuel as [|fuel IH];
    intros q ring b bsz bby bbi r Hinv Hbuf Hsz Hr Hfuel Hf1 Hbby Hbbi Hlr Hlb; [lia|].
  simpl. rewrite Hbuf.
  pose proof Hinv as (Hrb & Hri & Hwb & Hwi & Hw).
  pose proof (copy_not_fuel (Some b) (Some ring) bby bbi bsz (r_byte_offset q)
                (r_bit_offset q) (buffer_size q) r ltac:(lia) ltac:(lia) ltac:(lia)
                ltac:(lia) ltac:(lia)
                ltac:(intros ? [= <-]; exact Hlb)
                ltac:(intros ? [= <-]; exact Hlr)) as Hnf.
  destruct (bit_queue_bit_buffer_copy _ _ _ _ _ _ _ _ _) as [[[rv e] dst]| |] eqn:Hc;
    [|discriminate|congruence].
  cbn [mbind outcome_bind].
  assert (H0r : 0 <= r) by lia.
  destruct (copy_length _ _ _ _ _ _ _ _ _ _ _ _ Hbby Hbbi (proj1 Hrb) (proj1 Hri)
              H0r Hlb Hlr Hc) as (b1 & -> & Hlen1).
  destruct (copy_ret_cases _ _ _ _ _ _ _ _ _ _ _ _ Hc)
    as [(-> & _ & _)|(_ & Hrv & Hv & _)]; [discriminate|].
  destruct (copy_args_valid_inv _ _ _ _ _ _ _ Hv) as (Hn0 & _).
  rewrite INT_MAX_val in Hsz.
  assert (Hrs : remaining_bits (buffer_size q) (r_byte_offset q) (r_bit_offset q)
                = 8 * buffer_size q - bitpos (r_byte_offset q) (r_bit_offset q))
    by (apply remaining_bits_exact;
        unfold bitpos, SIZE_MAX; rewrite ?SIZE_MOD_val; lia).
  assert (Hm : clip_bit_count (r_byte_offset q) (r_bit_offset q) (buffer_size q) r
               = Z.min r (8 * buffer_size q - bitpos (r_byte_offset q) (r_bit_offset q))).
  { unfold clip_bit_count. rewrite Hrs.
    destruct (Z.gtb_spec r (8 * buffer_size q
                            - bitpos (r_byte_offset q) (r_bit_offset q))); lia. }
  rewrite Hm in Hrv. unfold bitpos in *.
  set (m := Z.min r _) in *.
  assert (Hmr : 1 <= m <= r /\ 8 * r_byte_offset q + r_bit_offset q + m
                                <= 8 * buffer_size q) by (unfold m; lia).
  rewrite to_int_small in Hrv by (rewrite INT_MAX_val; lia). subst rv.
  destruct (m =? -1); [discriminate|].
  pose proof (advance_cursor_nonneg bby bbi m) as Hadv.
  destruct (advance_cursor bby bbi m) as [bby' bbi']. cbn [fst snd] in Hadv.
  pose proof (advance_cursor_bounds (r_byte_offset q) (r_bit_offset q) m (buffer_size q)
                ltac:(lia) ltac:(lia) ltac:(lia) ltac:(lia)
                ltac:(unfold SIZE_MAX; rewrite SIZE_MOD_val; lia)) as (Ha1 & Ha2 & Ha3 & Ha4).
  assert (Hrc : 0 <= fst (wrap_read_cursor (buffer_size q)
                   (advance_cursor (r_byte_offset q) (r_bit_offset q) m))
                < buffer_size q
                /\ 0 <= snd (wrap_read_cursor (buffer_size q)
                      (advance_cursor (r_byte_offset q) (r_bit_offset q) m)) < 8).
  { unfold wrap_read_cursor.
    destruct (Z.eqb_spec (fst (advance_cursor (r_byte_offset q) (r_bit_offset q) m))
                         (buffer_size q)); cbn [fst snd]; lia. }
  destruct (wrap_read_cursor (buffer_size q)
              (advance_cursor (r_byte_offset q) (r_bit_offset q) m))
    as [rby rbi].
  cbn [fst snd] in Hrc.
  rewrite (sz_small m) by (rewrite SIZE_MOD_val; lia).
  rewrite (sz_small (written_bits q - m)) by (rewrite SIZE_MOD_val; lia).
  rewrite (sz_small (r - m)) by (rewrite SIZE_MOD_val; lia).
  destruct (Z.ltb_spec 0 (r - m)); [|discriminate].
  cbn [default from_option id].
  eapply IH; unfold set_read_cursor; queue_fields; try eassumption;
    try (unfold queue_inv; queue_fields); try lia.
  - apply sz_range.
  - apply u8_range.
Qed.

Lemma read_bits_returns q ring b bsz n :
  queue_inv q -> buffer q = Some ring ->
  8 * buffer_size q <= INT_MAX ->
  0 <= n ->
  Z.of_nat (length ring) < SIZE_MOD -> Z.of_nat (length b) < SIZE_MOD ->
  bit_queue_read_bits (Some q) (Some b) bsz n <> OutOfFuel.
Proof.
  intros Hinv Hbuf Hsz Hn Hlr Hlb. unfold bit_queue_read_bits.
  destruct (_ || _); [discriminate|]. rewrite Hbuf.
  destruct (_ >? _); [discriminate|].
  destruct (negb _) eqn:Hd; [discriminate|].
  apply negb_false_iff in Hd. simpl in Hd.
  rewrite Z.geb_leb in Hd. apply Z.leb_le in Hd.
  pose proof (read_loop_not_fuel (S (Z.to_nat n)) q ring b bsz 0 0 n Hinv Hbuf Hsz
                ltac:(lia) ltac:(lia) ltac:(lia) ltac:(lia) ltac:(lia) Hlr Hlb) as Hnf.
  destruct (read_loop _ _ _ _ _ _ _) as [[[[rv e] q1] b1]| |];
    [discriminate|discriminate|congruence].
Qed.

(** *** Transfers that stay inside the ring *)

Lemma read_loop_unfold fuel q b bsz bby bbi r :
  read_loop (S fuel) q b bsz bby bbi r
  = ('(ret_val, e, dst) ←
       bit_queue_bit_buffer_copy (Some b) (buffer q) bby bbi bsz
         (r_byte_offset q) (r_bit_offset q) (buffer_size q) r;
     let buf := default b dst in
     if ret_val =? -1 then Ret (ret_val, e, q, buf)
     else
       let '(b_byte_offset, b_bit_offset) := advance_cursor bby bbi ret_val in
       let '(r_byte, r_bit) :=
         wrap_read_cursor (buffer_size q)
           (advance_cursor (r_byte_offset q) (r_bit_offset q) ret_val) in
       let q := set_read_cursor q r_bit r_byte (sz (written_bits q - sz ret_val)) in
       let r_bits := sz (r - sz ret_val) in
       if 0 <? r_bits
       then read_loop fuel q buf bsz b_byte_offset b_bit_offset r_bits
       else Ret (ret_val, e, q, buf)).
Proof. reflexivity. Qed.

Lemma advance_cursor_exact byte_offset bit_offset n size :
  0 <= byte_offset -> 0 <= bit_offset < 8 -> 0 <= n ->
  bit_offset + n < 256 ->
  bitpos byte_offset bit_offset + n <= 8 * size ->
  8 * size <= SIZE_MAX ->
  wrap_read_cursor size (advance_cursor byte_offset bit_offset n)
  = cursor_at size (bitpos byte_offset bit_offset + n)
  /\ wrap_write_cursor size (advance_cursor byte_offset bit_offset n)
     = cursor_at size (bitpos byte_offset bit_offset + n).
Proof.
  unfold bitpos. intros Hb Hi Hn H256 Hfit Hs.
  destruct (advance_cursor_bounds byte_offset bit_offset n size Hb Hi Hn Hfit Hs)
    as (H1 & H2 & H3 & H4).
  rewrite u8_small in H4 by lia.
  destruct (advance_cursor byte_offset bit_offset n) as [by' bi'] eqn:E.
  cbn [fst snd] in *.
  unfold wrap_read_cursor, wrap_write_cursor, cursor_at. cbn [fst snd].
  destruct (Z.eqb_spec by' size) as [->|Hne];
    destruct (Z.eqb_spec (8 * byte_offset + bit_offset + n) (8 * size));
    try lia.
  - rewrite H3 by reflexivity. split; reflexivity.
  - split; f_equal; Z.div_mod_to_equations; lia.
Qed.

Lemma cursor_at_bitpos size pos :
  0 <= pos < 8 * size ->
  bitpos (fst (cursor_at size pos)) (snd (cursor_at size pos)) = pos
  /\ 0 <= fst (cursor_at size pos) < size
  /\ 0 <= snd (cursor_at size pos) < 8.
Proof.
  intros H. unfold cursor_at, bitpos.
  destruct (Z.eqb_spec pos (8 * size)); [lia|]. cbn [fst snd].
  Z.div_mod_to_equations. lia.
Qed.

(** A write that does not cross the end of the ring and moves fewer than
    256 bits past the start of the cursor's byte: the call returns
    [bit_count], the bits are OR-ed into the ring at the write cursor, the
    cursor moves on by [bit_count] (to byte 0 when it reaches the end) and
    [written_bits] grows by [bit_count]. *)
Lemma write_bits_within_ring (q : queue) ring b n :
  queue_inv q -> buffer q = Some ring ->
  Z.of_nat (length ring) = buffer_size q ->
  8 * buffer_size q <= INT_MAX ->
  8 * Z.of_nat (length b) <= SIZE_MAX ->
  0 < n <= 8 * Z.of_nat (length b) ->
  written_bits q + n <= 8 * buffer_size q ->
  bitpos (w_byte_offset q) (w_bit_offset q) + n <= 8 * buffer_size q ->
  w_bit_offset q + n < 256 ->
  exists ring',
    bit_queue_write_bits (Some q) (Some b) (Z.of_nat (length b)) n
    = Ret (n, None,
           Some (let c := cursor_at (buffer_size q)
                            (bitpos (w_byte_offset q) (w_bit_offset q) + n) in
                 set_write_cursor q (Some ring') (snd c) (fst c) (written_bits q + n)),
           Some b)
    /\ bits_copied ring b (bitpos (w_byte_offset q) (w_bit_offset q)) 0 n ring'.
Proof.
  intros Hinv Hbuf Hlr Hsz Hlb Hn Hfree Hfit H256.
  pose proof Hinv as (Hrb & Hri & Hwb & Hwi & Hw).
  rewrite INT_MAX_val in Hsz. unfold SIZE_MAX in Hlb. rewrite SIZE_MOD_val in Hlb.
  set (bsz := Z.of_nat (length b)) in *.
  assert (Hb8 : sz (bsz * BITS_IN_BYTE) = bsz * 8)
    by (unfold BITS_IN_BYTE; apply sz_small; rewrite SIZE_MOD_val; lia).
  assert (Hq8 : sz (buffer_size q * BITS_IN_BYTE) = buffer_size q * 8)
    by (unfold BITS_IN_BYTE; apply sz_small; rewrite SIZE_MOD_val; lia).
  assert (Hv : copy_args_invalid (w_byte_offset q) (w_bit_offset q) (buffer_size q)
                                 0 0 bsz n = false).
  { unfold copy_args_invalid. rewrite Hb8. unfold BITS_IN_BYTE.
    repeat (apply orb_false_intro); rewrite ?Z.geb_leb; zbool.
    apply Z.eqb_neq. lia. }
  destruct (copy_success ring b (w_byte_offset q) (w_bit_offset q) 0 0 n)
    as (ring' & Hc & Hbits); rewrite ?Hlr; fold bsz;
    try (unfold SIZE_MAX; rewrite SIZE_MOD_val); try lia; try assumption.
  rewrite Hlr in Hc. change (bitpos 0 0) with 0 in Hc, Hbits.
  fold bsz in Hc, Hbits. rewrite Z.sub_0_r, Z.min_l in Hc, Hbits by lia.
  rewrite to_int_small in Hc by (rewrite INT_MAX_val; lia).
  exists ring'. split; [|exact Hbits].
  destruct (advance_cursor_exact (w_byte_offset q) (w_bit_offset q) n (buffer_size q)
              ltac:(lia) ltac:(lia) ltac:(lia) H256 Hfit
              ltac:(unfold SIZE_MAX; rewrite SIZE_MOD_val; lia)) as (_ & Hcur).
  unfold bit_queue_write_bits.
  replace (n =? 0) with false by (symmetry; apply Z.eqb_neq; lia).
  rewrite Hb8. replace (bsz * 8 <? n) with false by (symmetry; apply Z.ltb_ge; lia).
  cbn [orb]. rewrite Hbuf, Hq8.
  replace (n >? buffer_size q * 8) with false
    by (symmetry; rewrite Z.gtb_ltb; apply Z.ltb_ge; lia).
  rewrite has_space_exact
    by (try assumption; unfold SIZE_MAX; rewrite SIZE_MOD_val; lia).
  replace (buffer_size q * 8 - written_bits q >=? n) with true
    by (symmetry; rewrite Z.geb_leb; apply Z.leb_le; lia).
  cbn [negb]. rewrite write_loop_unfold, Hbuf, Hc. cbn [mbind outcome_bind].
  replace (n =? -1) with false by (symmetry; apply Z.eqb_neq; lia).
  destruct (advance_cursor 0 0 n) as [bby' bbi'].
  unfold set_write_cursor. queue_fields. rewrite Hcur.
  destruct (cursor_at _ _) as [wby wbi]. cbn [fst snd].
  rewrite (sz_small n) by (rewrite SIZE_MOD_val; lia).
  rewrite Z.sub_diag. change (0 <? sz 0) with false. cbn iota.
  rewrite (sz_small (written_bits q + n)) by (rewrite SIZE_MOD_val; lia).
  cbn [mbind outcome_bind].
  replace (n =? -1) with false by (symmetry; apply Z.eqb_neq; lia).
  rewrite to_int_small by (rewrite INT_MAX_val; lia).
  reflexivity.
Qed.

(** The matching read: [bit_count] buffered bits that end at or before the
    end of the ring are OR-ed into the caller's buffer from its bit 0;
    the read cursor moves on and [written_bits] shrinks by [bit_count]. *)
Lemma read_bits_within_ring (q : queue) ring b n :
  queue_inv q -> buffer q = Some ring ->
  Z.of_nat (length ring) = buffer_size q ->
  8 * buffer_size q <= INT_MAX ->
  8 * Z.of_nat (length b) <= SIZE_MAX ->
  0 < n <= 8 * Z.of_nat (length b) ->
  n <= written_bits q ->
  bitpos (r_byte_offset q) (r_bit_offset q) + n <= 8 * buffer_size q ->
  r_bit_offset q + n < 256 ->
  exists b',
    bit_queue_read_bits (Some q) (Some b) (Z.of_nat (length b)) n
    = Ret (n, None,
           Some (let c := cursor_at (buffer_size q)
                            (bitpos (r_byte_offset q) (r_bit_offset q) + n) in
                 set_read_cursor q (snd c) (fst c) (written_bits q - n)),
           Some b')
    /\ bits_copied b ring 0 (bitpos (r_byte_offset q) (r_bit_offset q)) n b'.
Proof.
  intros Hinv Hbuf Hlr Hsz Hlb Hn Hdata Hfit H256.
  pose proof Hinv as (Hrb & Hri & Hwb & Hwi & Hw).
  rewrite INT_MAX_val in Hsz. unfold SIZE_MAX in Hlb. rewrite SIZE_MOD_val in Hlb.
  set (bsz := Z.of_nat (length b)) in *.
  assert (Hb8 : sz (bsz * BITS_IN_BYTE) = bsz * 8)
    by (unfold BITS_IN_BYTE; apply sz_small; rewrite SIZE_MOD_val; lia).
  assert (Hq8 : sz (buffer_size q * BITS_IN_BYTE) = buffer_size q * 8)
    by (unfold BITS_IN_BYTE; apply sz_small; rewrite SIZE_MOD_val; lia).
  assert (Hv : copy_args_invalid 0 0 bsz (r_byte_offset q) (r_bit_offset q)
                                 (buffer_size q) n = false).
  { unfold copy_args_invalid. rewrite Hq8. unfold BITS_IN_BYTE.
    repeat (apply orb_false_intro); rewrite ?Z.geb_leb; zbool.
    apply Z.eqb_neq. lia. }
  assert (Hfit' : 8 * r_byte_offset q + r_bit_offset q + n <= 8 * buffer_size q)
    by exact Hfit.
  destruct (copy_success b ring 0 0 (r_byte_offset q) (r_bit_offset q) n)
    as (b' & Hc & Hbits); rewrite ?Hlr; fold bsz;
    try (unfold SIZE_MAX; rewrite SIZE_MOD_val); try (unfold bitpos; lia);
    try assumption.
  rewrite Hlr in Hc, Hbits. change (bitpos 0 0) with 0 in Hc, Hbits.
  fold bsz in Hc. rewrite Z.min_l in Hc, Hbits by (unfold bitpos; lia).
  rewrite to_int_small in Hc by (rewrite INT_MAX_val; lia).
  exists b'. split; [|exact Hbits].
  destruct (advance_cursor_exact (r_byte_offset q) (r_bit_offset q) n (buffer_size q)
              ltac:(lia) ltac:(lia) ltac:(lia) H256 Hfit
              ltac:(unfold SIZE_MAX; rewrite SIZE_MOD_val; lia)) as (Hcur & _).
  unfold bit_queue_read_bits.
  replace (n =? 0) with false by (symmetry; apply Z.eqb_neq; lia).
  rewrite Hb8. replace (bsz * 8 <? n) with false by (symmetry; apply Z.ltb_ge; lia).
  cbn [orb]. rewrite Hbuf, Hq8.
  replace (n >? buffer_size q * 8) with false
    by (symmetry; rewrite Z.gtb_ltb; apply Z.ltb_ge; lia).
  unfold bit_queue_has_data. cbn [fst].
  replace (written_bits q >=? n) with true
    by (symmetry; rewrite Z.geb_leb; apply Z.leb_le; lia).
  cbn [negb]. rewrite read_loop_unfold, Hbuf, Hc. cbn [mbind outcome_bind].
  replace (n =? -1) with false by (symmetry; apply Z.eqb_neq; lia).
  destruct (advance_cursor 0 0 n) as [bby' bbi'].
  rewrite Hcur.
  destruct (cursor_at _ _) as [rby rbi]. cbn [fst snd default from_option id].
  rewrite (sz_small n) by (rewrite SIZE_MOD_val; lia).
  rewrite Z.sub_diag. change (0 <? sz 0) with false. cbn iota.
  rewrite (sz_small (written_bits q - n)) by (rewrite SIZE_MOD_val; lia).
  cbn [mbind outcome_bind].
  replace (n =? -1) with false by (symmetry; apply Z.eqb_neq; lia).
  rewrite to_int_small by (rewrite INT_MAX_val; lia).
  reflexivity.
Qed.

(** *** Round trip through a fresh queue, chunks of at most 248 bits *)

Lemma testbit_byte_of_bits l : forall k : nat,
  Z.testbit (byte_of_bits l) (Z.of_nat k) = default false (l !! k).
Proof.
  induction l as [|b l IH]; intros k; simpl.
  - apply Z.testbit_0_l.
  - rewrite Z.add_comm. destruct k as [|k].
    + apply Z.testbit_0_r.
    + rewrite Nat2Z.inj_succ, Z.testbit_succ_r by lia. apply IH.
Qed.

Lemma bytes_needed_spec n :
  (n <= 8 * bytes_needed n)%nat /\ (8 * bytes_needed n < n + 8)%nat.
Proof.
  unfold bytes_needed.
  pose proof (Nat.div_mod_eq (n + 7) 8) as H.
  pose proof (Nat.mod_upper_bound (n + 7) 8 ltac:(lia)). lia.
Qed.

Lemma length_bits_to_bytes c : length (bits_to_bytes c) = bytes_needed (length c).
Proof. unfold bits_to_bytes. now rewrite length_map, length_seq. Qed.

Lemma bit_at_bits_to_bytes c j : bit_at (bits_to_bytes c) j = bit_of c j.
Proof.
  unfold bit_of.
  destruct (Z.leb_spec 0 j) as [Hj|Hj]; [|apply bit_at_neg; lia].
  cbn [andb]. unfold bit_at.
  assert (Hdm : j = 8 * (j / 8) + j mod 8 /\ 0 <= j mod 8 < 8 /\ 0 <= j / 8)
    by (Z.div_mod_to_equations; lia).
  destruct (Z.leb_spec 0 j); [|lia]. cbn [andb].
  set (i := Z.to_nat (j / 8)). set (k := Z.to_nat (j mod 8)).
  assert (Hjk : Z.to_nat j = (8 * i + k)%nat) by (unfold i, k; lia).
  unfold bits_to_bytes.
  destruct (decide (i < bytes_needed (length c))%nat) as [Hi|Hi].
  - rewrite list_lookup_fmap, lookup_seq_lt by assumption. cbn [fmap option_fmap option_map].
    replace (j mod 8) with (Z.of_nat k) by (unfold k; lia).
    rewrite testbit_byte_of_bits.
    rewrite lookup_take_lt by (unfold k; lia).
    rewrite lookup_drop, Hjk. reflexivity.
  - rewrite list_lookup_fmap, lookup_seq_ge by lia. cbn.
    rewrite lookup_ge_None_2; [reflexivity|].
    pose proof (bytes_needed_spec (length c)). lia.
Qed.

Lemma bytes_to_bits_spec k (b : list Z) (s : list bool) (r : nat) :
  (r + k <= length s)%nat ->
  (forall j, 0 <= j < Z.of_nat k -> bit_at b j = bit_of s (Z.of_nat r + j)) ->
  bytes_to_bits k b = take k (drop r s).
Proof.
  intros Hlen Hb. unfold bytes_to_bits.
  apply list_eq. intros i.
  destruct (decide (i < k)%nat) as [Hi|Hi].
  - rewrite list_lookup_fmap, lookup_seq_lt by assumption.
    cbn [fmap option_fmap option_map]. rewrite Nat.add_0_l.
    rewrite lookup_take_lt, lookup_drop by assumption.
    rewrite Hb by lia. unfold bit_of.
    destruct (Z.leb_spec 0 (Z.of_nat r + Z.of_nat i)); [|lia]. cbn [andb].
    replace (Z.to_nat (Z.of_nat r + Z.of_nat i)) with (r + i)%nat by lia.
    destruct (lookup_lt_is_Some_2 s (r + i) ltac:(lia)) as [x Hx].
    rewrite Hx. reflexivity.
  - rewrite list_lookup_fmap, lookup_seq_ge by lia.
    rewrite lookup_take_ge by lia. reflexivity.
Qed.

Lemma bit_of_app s c j :
  bit_of (s ++ c) j
  = bit_of s j
    || ((Z.of_nat (length s) <=? j) && bit_of c (j - Z.of_nat (length s))).
Proof.
  unfold bit_of.
  destruct (Z.leb_spec 0 j) as [Hj|Hj]; cbn [andb];
    [|destruct (Z.leb_spec (Z.of_nat (length s)) j); [lia | reflexivity]].
  destruct (Z.leb_spec (Z.of_nat (length s)) j) as [Hge|Hlt].
  - rewrite lookup_app_r by lia.
    rewrite (lookup_ge_None_2 s) by lia.
    destruct (Z.leb_spec 0 (j - Z.of_nat (length s))); [|lia]. cbn.
    replace (Z.to_nat (j - Z.of_nat (length s)))
      with (Z.to_nat j - length s)%nat by lia.
    reflexivity.
  - rewrite lookup_app_l by lia. cbn. now rewrite orb_false_r.
Qed.

Lemma bit_of_ge s j : Z.of_nat (length s) <= j -> bit_of s j = false.
Proof.
  intros H. unfold bit_of. rewrite lookup_ge_None_2 by lia. apply andb_false_r.
Qed.

Lemma cursor_at_range size pos :
  0 < size -> 0 <= pos <= 8 * size ->
  0 <= fst (cursor_at size pos) < size /\ 0 <= snd (cursor_at size pos) < 8.
Proof.
  intros Hs Hp. unfold cursor_at.
  destruct (Z.eqb_spec pos (8 * size)); cbn [fst snd];
    [lia | Z.div_mod_to_equations; lia].
Qed.

Lemma holds_inv q size s r : 0 < size -> holds q size s r -> queue_inv q.
Proof.
  intros Hs (ring & _ & _ & Hsz & _ & Hr & Hlen & Hw & Hwc & Hrc).
  pose proof (cursor_at_range size (Z.of_nat (length s)) Hs ltac:(lia)) as Hw'.
  pose proof (cursor_at_range size (Z.of_nat r) Hs ltac:(lia)) as Hr'.
  rewrite <- Hwc in Hw'. rewrite <- Hrc in Hr'. cbn [fst snd] in *.
  unfold queue_inv. rewrite Hsz. lia.
Qed.

Lemma holds_base_init size :
  0 < size ->
  exists q, fst (bit_queue_base_init size) = Some q /\ holds q size [] 0.
Proof.
  intros Hs. unfold bit_queue_base_init.
  destruct (Z.eqb_spec size 0); [lia|].
  eexists. split; [reflexivity|].
  exists (replicate (Z.to_nat size) 0). queue_fields.
  assert (Hc : cursor_at size 0 = (0, 0)).
  { unfold cursor_at. destruct (Z.eqb_spec 0 (8 * size)); [lia | reflexivity]. }
  cbn [length]. change (Z.of_nat 0) with 0. rewrite length_replicate, Hc.
  split; [reflexivity|]. split; [lia|]. split; [reflexivity|].
  split; [|repeat split; lia].
  intros j. rewrite bit_at_zeros. unfold bit_of. rewrite lookup_nil.
  now rewrite andb_false_r.
Qed.

Lemma write_chunk_holds q size s c :
  0 < size -> 8 * size <= INT_MAX ->
  holds q size s 0 ->
  (0 < length c <= 248)%nat ->
  Z.of_nat (length s) + Z.of_nat (length c) <= 8 * size ->
  exists q',
    bit_queue_write_bits (Some q) (Some (bits_to_bytes c))
      (Z.of_nat (length (bits_to_bytes c))) (Z.of_nat (length c))
    = Ret (Z.of_nat (length c), None, Some q', Some (bits_to_bytes c))
    /\ holds q' size (s ++ c) 0.
Proof.
  intros Hs Hmax Hq Hc Hfit.
  pose proof (holds_inv _ _ _ _ Hs Hq) as Hinv.
  destruct Hq as (ring & Hbuf & Hlr & Hsz & Hring & Hr & Hlen & Hw & Hwc & Hrc).
  pose proof Hinv as (Hrb & Hri & Hwb & Hwi & Hww).
  pose proof (bytes_needed_spec (length c)) as Hbn.
  assert (Hpos : bitpos (w_byte_offset q) (w_bit_offset q) = Z.of_nat (length s)).
  { pose proof (cursor_at_bitpos size (Z.of_nat (length s)) ltac:(lia)) as (Hp & _).
    rewrite <- Hwc in Hp. exact Hp. }
  assert (Hlb : Z.of_nat (length (bits_to_bytes c))
                = Z.of_nat (bytes_needed (length c)))
    by (now rewrite length_bits_to_bytes).
  destruct (write_bits_within_ring q ring (bits_to_bytes c) (Z.of_nat (length c))
              Hinv Hbuf) as (ring' & Hwr & Hlen' & Hbits).
  { congruence. }
  { rewrite Hsz. exact Hmax. }
  { rewrite Hlb. unfold SIZE_MAX. rewrite SIZE_MOD_val. lia. }
  { rewrite Hlb. lia. }
  { rewrite Hsz, Hw. lia. }
  { rewrite Hsz, Hpos. lia. }
  { lia. }
  rewrite Hpos, Hsz in Hwr. rewrite Hpos in Hbits.
  eexists. split; [exact Hwr|].
  exists ring'. unfold set_write_cursor. cbn zeta. queue_fields.
  rewrite length_app, Nat2Z.inj_add.
  repeat split; try lia; try congruence.
  - intros j. rewrite Hbits, Hring, bit_at_bits_to_bytes, bit_of_app.
    rewrite Z.add_0_r. f_equal.
    destruct (Z.ltb_spec j (Z.of_nat (length s) + Z.of_nat (length c))).
    + destruct (Z.of_nat (length s) <=? j); reflexivity.
    + rewrite (bit_of_ge c) by lia.
      destruct (Z.of_nat (length s) <=? j); reflexivity.
  - symmetry. apply surjective_pairing.
Qed.

Lemma read_chunk_holds q size s r k :
  0 < size -> 8 * size <= INT_MAX ->
  holds q size s r ->
  (0 < k <= 248)%nat -> (r + k <= length s)%nat ->
  exists q' b',
    bit_queue_read_bits (Some q) (Some (replicate (bytes_needed k) 0))
      (Z.of_nat (length (replicate (bytes_needed k) 0))) (Z.of_nat k)
    = Ret (Z.of_nat k, None, Some q', Some b')
    /\ bytes_to_bits k b' = take k (drop r s)
    /\ holds q' size s (r + k).
Proof.
  intros Hs Hmax Hq Hk Hfit.
  pose proof (holds_inv _ _ _ _ Hs Hq) as Hinv.
  destruct Hq as (ring & Hbuf & Hlr & Hsz & Hring & Hr & Hlen & Hw & Hwc & Hrc).
  pose proof Hinv as (Hrb & Hri & Hwb & Hwi & Hww).
  pose proof (bytes_needed_spec k) as Hbn.
  assert (Hpos : bitpos (r_byte_offset q) (r_bit_offset q) = Z.of_nat r).
  { pose proof (cursor_at_bitpos size (Z.of_nat r) ltac:(lia)) as (Hp & _).
    rewrite <- Hrc in Hp. exact Hp. }
  assert (Hlb : Z.of_nat (length (replicate (bytes_needed k) 0))
                = Z.of_nat (bytes_needed k))
    by (now rewrite length_replicate).
  destruct (read_bits_within_ring q ring (replicate (bytes_needed k) 0) (Z.of_nat k)
              Hinv Hbuf) as (b' & Hrd & Hlen' & Hbits).
  { congruence. }
  { rewrite Hsz. exact Hmax. }
  { rewrite Hlb. unfold SIZE_MAX. rewrite SIZE_MOD_val. lia. }
  { rewrite Hlb. lia. }
  { rewrite Hw. lia. }
  { rewrite Hsz, Hpos. lia. }
  { lia. }
  rewrite Hpos, Hsz in Hrd. rewrite Hpos in Hbits.
  eexists _, b'. split; [exact Hrd|]. split.
  - apply bytes_to_bits_spec; [lia|]. intros j Hj.
    rewrite Hbits, bit_at_zeros, Hring. cbn [orb].
    rewrite Z.sub_0_r, (Z.add_comm j).
    destruct (Z.leb_spec 0 j); destruct (Z.ltb_spec j (0 + Z.of_nat k)); try lia.
    reflexivity.
  - exists ring. unfold set_read_cursor. cbn zeta. queue_fields.
    rewrite Nat2Z.inj_add.
    repeat split; try lia; try congruence.
    symmetry. apply surjective_pairing.
Qed.

Lemma write_chunks_holds size chunks : forall q s,
  0 < size -> 8 * size <= INT_MAX ->
  holds q size s 0 ->
  Forall (fun c => (0 < length c <= 248)%nat) chunks ->
  Z.of_nat (length s) + Z.of_nat (length (concat chunks)) <= 8 * size ->
  exists q',
    write_chunks (Some q) chunks
    = Ret (map (fun c => Z.of_nat (length c)) chunks, Some q')
    /\ holds q' size (s ++ concat chunks) 0.
Proof.
  induction chunks as [|c chunks IH]; intros q s Hs Hmax Hq Hall Hfit.
  - exists q. split; [reflexivity|]. simpl. now rewrite app_nil_r.
  - apply Forall_cons in Hall as (Hc & Hall).
    simpl in Hfit. rewrite length_app, Nat2Z.inj_add in Hfit.
    destruct (write_chunk_holds q size s c Hs Hmax Hq Hc ltac:(lia)) as (q1 & Hw & Hq1).
    destruct (IH q1 (s ++ c) Hs Hmax Hq1 Hall) as (q' & Hws & Hq').
    { rewrite length_app, Nat2Z.inj_add. lia. }
    exists q'. split.
    + cbn [write_chunks]. rewrite Hw. cbn [mbind outcome_bind].
      rewrite Hws. reflexivity.
    + simpl. rewrite app_assoc. exact Hq'.
Qed.

Lemma read_chunks_holds size s sizes : forall q r,
  0 < size -> 8 * size <= INT_MAX ->
  holds q size s r ->
  Forall (fun k => (0 < k <= 248)%nat) sizes ->
  (r + sum_list sizes <= length s)%nat ->
  exists q',
    read_chunks (Some q) sizes
    = Ret (map Z.of_nat sizes, take (sum_list sizes) (drop r s), Some q')
    /\ holds q' size s (r + sum_list sizes).
Proof.
  induction sizes as [|k sizes IH]; intros q r Hs Hmax Hq Hall Hfit.
  - exists q. split; [reflexivity|]. simpl. now rewrite Nat.add_0_r.
  - apply Forall_cons in Hall as (Hk & Hall). simpl in Hfit.
    destruct (read_chunk_holds q size s r k Hs Hmax Hq Hk ltac:(lia))
      as (q1 & b1 & Hr & Hbits & Hq1).
    destruct (IH q1 (r + k)%nat Hs Hmax Hq1 Hall ltac:(lia)) as (q' & Hrs & Hq').
    exists q'. split.
    + cbn [read_chunks]. rewrite Hr. cbn [mbind outcome_bind].
      rewrite Hrs. cbn [mbind outcome_bind default from_option id].
      rewrite Hbits. simpl. rewrite <- take_take_drop, drop_drop. reflexivity.
    + simpl. rewrite Nat.add_assoc. exact Hq'.
Qed.

(** X1.  Round trip through a fresh queue.  A bit sequence that fits the
    queue is written by [bit_queue_write_bits] in chunks of 1 to 248 bits
    and read back by [bit_queue_read_bits] into cleared buffers in chunks
    of 1 to 248 bits, the two partitions being independent.  Every call
    returns its bit count and the bits read are the bits written, in
    order. *)
Theorem fresh_round_trip (size : Z) (chunks : list (list bool)) (sizes : list nat) :
  0 < size -> 8 * size <= INT_MAX ->
  Z.of_nat (length (concat chunks)) <= 8 * size ->
  Forall (fun c => (0 < length c <= 248)%nat) chunks ->
  Forall (fun k => (0 < k <= 248)%nat) sizes ->
  sum_list sizes = length (concat chunks) ->
  exists q1 q2,
    write_chunks (fst (bit_queue_base_init size)) chunks
    = Ret (map (fun c => Z.of_nat (length c)) chunks, Some q1)
    /\ read_chunks (Some q1) sizes
       = Ret (map Z.of_nat sizes, concat chunks, Some q2).
Proof.
  intros Hs Hmax Hfit Hchunks Hsizes Hsum.
  destruct (holds_base_init size Hs) as (q0 & Hq0 & Hh0).
  destruct (write_chunks_holds size chunks q0 [] Hs Hmax Hh0 Hchunks)
    as (q1 & Hw & Hh1); [simpl; lia|].
  simpl in Hh1.
  destruct (read_chunks_holds size (concat chunks) sizes q1 0%nat Hs Hmax Hh1 Hsizes)
    as (q2 & Hr & _); [lia|].
  exists q1, q2. rewrite Hq0. split; [exact Hw|].
  rewrite Hr, Hsum, drop_0, take_ge by lia. reflexivity.
Qed.

Lemma fresh_round_trip_witness :
  exists q1 q2,
    write_chunks (fst (bit_queue_base_init 2))
      [[true; false; true]; [true; true; false; false; true; false; true]]
    = Ret ([3; 7], Some q1)
    /\ read_chunks (Some q1) [4%nat; 1%nat; 5%nat]
       = Ret ([4; 1; 5],
              [true; false; true; true; true; false; false; true; false; true],
              Some q2).
Proof.
  apply (fresh_round_trip 2
           [[true; false; true]; [true; true; false; false; true; false; true]]
           [4%nat; 1%nat; 5%nat]); try zclosed.
  - repeat constructor.
  - repeat constructor.
Defined.

(** * Further properties of the code *)

(** ** Outcome of a write *)

Lemma set_write_cursor_same (q : queue) :
  set_write_cursor q (buffer q) (w_bit_offset q) (w_byte_offset q) (written_bits q) = q.
Proof. destruct q; reflexivity. Qed.

(** The checks at the head of [bit_queue_write_bits] on a queue in a
    valid state: what is left is the test for space and the loop. *)
Lemma write_bits_enters_loop (q : queue) ring b bsz n :
  queue_inv q -> buffer q = Some ring ->
  8 * buffer_size q <= INT_MAX ->
  0 <= bsz -> 8 * bsz <= SIZE_MAX ->
  0 < n <= 8 * bsz -> n <= 8 * buffer_size q ->
  bit_queue_write_bits (Some q) (Some b) bsz n
  = if 8 * buffer_size q - written_bits q <? n
    then Ret (-1, Some EAGAIN, Some q, Some b)
    else '(ret_val, e, q') ← write_loop (S (Z.to_nat n)) q b bsz 0 0 n;
         Ret (if ret_val =? -1 then ret_val else n, e, Some q', Some b).
Proof.
  intros Hinv Hbuf Hsz Hb0 Hlb Hn Hcap.
  pose proof Hinv as (Hrb & Hri & Hwb & Hwi & Hw).
  rewrite INT_MAX_val in Hsz. unfold SIZE_MAX in Hlb. rewrite SIZE_MOD_val in Hlb.
  assert (Hb8 : sz (bsz * BITS_IN_BYTE) = bsz * 8)
    by (unfold BITS_IN_BYTE; apply sz_small; rewrite SIZE_MOD_val; lia).
  assert (Hq8 : sz (buffer_size q * BITS_IN_BYTE) = buffer_size q * 8)
    by (unfold BITS_IN_BYTE; apply sz_small; rewrite SIZE_MOD_val; lia).
  unfold bit_queue_write_bits.
  replace (n =? 0) with false by (symmetry; apply Z.eqb_neq; lia).
  rewrite Hb8. replace (bsz * 8 <? n) with false by (symmetry; apply Z.ltb_ge; lia).
  cbn [orb]. rewrite Hbuf, Hq8.
  replace (n >? buffer_size q * 8) with false
    by (symmetry; rewrite Z.gtb_ltb; apply Z.ltb_ge; lia).
  rewrite has_space_exact
    by (try assumption; unfold SIZE_MAX; rewrite SIZE_MOD_val; lia).
  rewrite Z.geb_leb.
  destruct (Z.leb_spec n (buffer_size q * 8 - written_bits q));
    destruct (Z.ltb_spec (8 * buffer_size q - written_bits q) n); try lia;
    cbn [negb]; [|reflexivity].
  rewrite to_int_small by (rewrite INT_MAX_val; lia). reflexivity.
Qed.

(** One pass of the loop of [bit_queue_write_bits] from the start of the
    caller's buffer: refused when the bits do not fit before the end of
    the ring, complete otherwise. *)
Lemma write_loop_pass fuel (q : queue) ring b n :
  queue_inv q -> buffer q = Some ring ->
  Z.of_nat (length ring) = buffer_size q ->
  8 * buffer_size q <= INT_MAX ->
  8 * Z.of_nat (length b) <= SIZE_MAX ->
  0 < n <= 8 * Z.of_nat (length b) ->
  written_bits q + n <= 8 * buffer_size q ->
  (8 * buffer_size q - bitpos (w_byte_offset q) (w_bit_offset q) < n ->
   write_loop (S fuel) q b (Z.of_nat (length b)) 0 0 n = Ret (-1, Some EMSGSIZE, q))
  /\ (n <= 8 * buffer_size q - bitpos (w_byte_offset q) (w_bit_offset q) ->
      exists ring',
        write_loop (S fuel) q b (Z.of_nat (length b)) 0 0 n
        = Ret (n, None,
               let c := wrap_write_cursor (buffer_size q)
                          (advance_cursor (w_byte_offset q) (w_bit_offset q) n) in
               set_write_cursor q (Some ring') (snd c) (fst c) (written_bits q + n))
        /\ bits_copied ring b (bitpos (w_byte_offset q) (w_bit_offset q)) 0 n ring').
Proof.
  intros Hinv Hbuf Hlr Hsz Hlb Hn Hfree.
  pose proof Hinv as (Hrb & Hri & Hwb & Hwi & Hw).
  rewrite INT_MAX_val in Hsz. unfold SIZE_MAX in Hlb. rewrite SIZE_MOD_val in Hlb.
  set (bsz := Z.of_nat (length b)) in *.
  assert (Hb8 : sz (bsz * BITS_IN_BYTE) = bsz * 8)
    by (unfold BITS_IN_BYTE; apply sz_small; rewrite SIZE_MOD_val; lia).
  assert (Hv : copy_args_invalid (w_byte_offset q) (w_bit_offset q) (buffer_size q)
                                 0 0 bsz n = false).
  { unfold copy_args_invalid. rewrite Hb8. unfold BITS_IN_BYTE.
    repeat (apply orb_false_intro); rewrite ?Z.geb_leb; zbool.
    apply Z.eqb_neq. lia. }
  assert (Hrem : remaining_bits (buffer_size q) (w_byte_offset q) (w_bit_offset q)
                 = 8 * buffer_size q - bitpos (w_byte_offset q) (w_bit_offset q))
    by (apply remaining_bits_exact;
        unfold bitpos, SIZE_MAX; rewrite ?SIZE_MOD_val; lia).
  split; intros Hfit.
  - rewrite write_loop_unfold, Hbuf. unfold bit_queue_bit_buffer_copy.
    rewrite Hv, Hrem.
    replace (_ <? n) with true by (symmetry; apply Z.ltb_lt; lia).
    cbn [mbind outcome_bind]. change (-1 =? -1) with true. cbn iota.
    rewrite <- Hbuf, set_write_cursor_same. reflexivity.
  - destruct (copy_success ring b (w_byte_offset q) (w_bit_offset q) 0 0 n)
      as (ring' & Hc & Hbits); rewrite ?Hlr; fold bsz;
      try (unfold SIZE_MAX; rewrite SIZE_MOD_val); try lia; try assumption.
    rewrite Hlr in Hc. change (bitpos 0 0) with 0 in Hc, Hbits.
    fold bsz in Hc, Hbits. rewrite Z.sub_0_r, Z.min_l in Hc, Hbits by lia.
    rewrite to_int_small in Hc by (rewrite INT_MAX_val; lia).
    exists ring'. split; [|exact Hbits].
    rewrite write_loop_unfold, Hbuf, Hc. cbn [mbind outcome_bind].
    replace (n =? -1) with false by (symmetry; apply Z.eqb_neq; lia).
    destruct (advance_cursor 0 0 n) as [bby' bbi'].
    unfold set_write_cursor. queue_fields.
    destruct (wrap_write_cursor _ _) as [wby wbi]. cbn [fst snd].
    rewrite (sz_small n) by (rewrite SIZE_MOD_val; lia).
    rewrite Z.sub_diag. change (0 <? sz 0) with false. cbn iota.
    rewrite (sz_small (written_bits q + n)) by (rewrite SIZE_MOD_val; lia).
    reflexivity.
Qed.

(** X2.  The outcome of [bit_queue_write_bits] on a queue in a valid state
    whose capacity in bits fits an [int] ([buffer_size*8 <= INT_MAX]), for
    a caller's buffer of the declared size and a bit count that the
    buffer and the ring can hold.  Fewer than [bit_count] free bits: -1
    with EAGAIN.  Enough free bits, but fewer than [bit_count] bits between
    the write cursor and the end of the ring: -1 with EMSGSIZE.  In both
    cases the queue is unchanged.  Otherwise the call returns [bit_count]:
    the bits of the caller's buffer, from its bit 0, are OR-ed into the
    ring at the write cursor, [written_bits] grows by [bit_count], the read
    cursor stays, and the write cursor is advanced through its [uint8_t]
    bit offset, which is [bit_count] bits further on (at byte 0 when that
    is the end of the ring) as long as bit offset plus [bit_count] is
    below 256.  [bit_queue_has_space] answers exactly whether [bit_count]
    free bits are there, so it predicts the first case but not the
    second. *)
Theorem write_bits_outcome (q : queue) (ring b : list Z) (n : Z) :
  queue_inv q -> buffer q = Some ring ->
  Z.of_nat (length ring) = buffer_size q ->
  8 * buffer_size q <= INT_MAX ->
  8 * Z.of_nat (length b) <= SIZE_MAX ->
  0 < n <= 8 * Z.of_nat (length b) ->
  n <= 8 * buffer_size q ->
  let free := 8 * buffer_size q - written_bits q in
  let wpos := bitpos (w_byte_offset q) (w_bit_offset q) in
  let call := bit_queue_write_bits (Some q) (Some b) (Z.of_nat (length b)) n in
  (free < n -> call = Ret (-1, Some EAGAIN, Some q, Some b))
  /\ (n <= free -> 8 * buffer_size q - wpos < n ->
      call = Ret (-1, Some EMSGSIZE, Some q, Some b))
  /\ (n <= free -> n <= 8 * buffer_size q - wpos ->
      exists ring',
        let c := wrap_write_cursor (buffer_size q)
                   (advance_cursor (w_byte_offset q) (w_bit_offset q) n) in
        call = Ret (n, None,
                    Some (set_write_cursor q (Some ring') (snd c) (fst c)
                                           (written_bits q + n)),
                    Some b)
        /\ bits_copied ring b wpos 0 n ring'
        /\ (w_bit_offset q + n < 256 -> c = cursor_at (buffer_size q) (wpos + n)))
  /\ fst (bit_queue_has_space (Some q) n) = (n <=? free).
Proof.
  intros Hinv Hbuf Hlr Hsz Hlb Hn Hcap free wpos call.
  pose proof Hinv as (Hrb & Hri & Hwb & Hwi & Hw).
  assert (Hcall := write_bits_enters_loop q ring b (Z.of_nat (length b)) n
                     Hinv Hbuf Hsz ltac:(lia) Hlb Hn Hcap).
  fold call in Hcall. fold free in Hcall.
  split; [|split; [|split]]; cycle 3.
  { rewrite has_space_exact, Z.geb_leb
      by (try assumption; rewrite INT_MAX_val in Hsz; unfold SIZE_MAX;
          rewrite SIZE_MOD_val; lia).
    unfold free. f_equal. lia. }
  - intros Hlt. rewrite Hcall.
    destruct (Z.ltb_spec free n); [reflexivity | lia].
  - intros Hfree Hcross. rewrite Hcall.
    destruct (Z.ltb_spec free n); [lia|].
    assert (Hfree' : written_bits q + n <= 8 * buffer_size q) by (unfold free in *; lia).
    destruct (write_loop_pass (Z.to_nat n) q ring b n Hinv Hbuf Hlr Hsz Hlb Hn Hfree')
      as (Hrefused & _).
    rewrite (Hrefused Hcross). reflexivity.
  - intros Hfree Hfit. rewrite Hcall.
    destruct (Z.ltb_spec free n); [lia|].
    assert (Hfree' : written_bits q + n <= 8 * buffer_size q) by (unfold free in *; lia).
    destruct (write_loop_pass (Z.to_nat n) q ring b n Hinv Hbuf Hlr Hsz Hlb Hn Hfree')
      as (_ & Hdone).
    destruct (Hdone Hfit) as (ring' & Hloop & Hbits).
    exists ring'. cbn zeta. rewrite Hloop. cbn [mbind outcome_bind].
    replace (n =? -1) with false by (symmetry; apply Z.eqb_neq; lia).
    split; [reflexivity|]. split; [exact Hbits|].
    intros H256. rewrite INT_MAX_val in Hsz.
    apply advance_cursor_exact; unfold wpos, bitpos, SIZE_MAX in *;
      rewrite ?SIZE_MOD_val; lia.
Qed.

Lemma write_bits_outcome_witness :
  let q := mk_bit_queue (Some [255; 15]) 0 0 4 1 12 2 true in
  let q0 := mk_bit_queue (Some [255; 15]) 4 1 4 1 0 2 true in
  bit_queue_write_bits (Some q) (Some [255]) 1 5
  = Ret (-1, Some EAGAIN, Some q, Some [255])
  /\ bit_queue_write_bits (Some q0) (Some [255]) 1 8
     = Ret (-1, Some EMSGSIZE, Some q0, Some [255])
  /\ exists ring',
       bit_queue_write_bits (Some q) (Some [5]) 1 3
       = Ret (3, None, Some (mk_bit_queue (Some ring') 0 0 7 1 15 2 true), Some [5])
       /\ bits_copied [255; 15] [5] 12 0 3 ring'.
Proof.
  intros q q0.
  assert (Hq : queue_inv q) by (unfold queue_inv; cbn; lia).
  assert (Hq0 : queue_inv q0) by (unfold queue_inv; cbn; lia).
  split; [|split].
  - apply (write_bits_outcome q [255; 15] [255] 5 Hq eq_refl eq_refl
             ltac:(zclosed) ltac:(zclosed) ltac:(zclosed) ltac:(zclosed)).
    reflexivity.
  - apply (write_bits_outcome q0 [255; 15] [255] 8 Hq0 eq_refl eq_refl
             ltac:(zclosed) ltac:(zclosed) ltac:(zclosed) ltac:(zclosed));
      zclosed.
  - destruct (proj1 (proj2 (proj2 (write_bits_outcome q [255; 15] [5] 3 Hq eq_refl
                eq_refl ltac:(zclosed) ltac:(zclosed) ltac:(zclosed) ltac:(zclosed))))
                ltac:(zclosed) ltac:(zclosed))
      as (ring' & Hcall & Hbits & _).
    exists ring'. split; [exact Hcall | exact Hbits].
Defined.

(** ** Outcome of a read *)

(** The checks at the head of [bit_queue_read_bits] on a queue in a valid
    state: what is left is the test for data and the loop. *)
Lemma read_bits_enters_loop (q : queue) ring b bsz n :
  queue_inv q -> buffer q = Some ring ->
  8 * buffer_size q <= INT_MAX ->
  0 <= bsz -> 8 * bsz <= SIZE_MAX ->
  0 < n <= 8 * bsz -> n <= 8 * buffer_size q ->
  bit_queue_read_bits (Some q) (Some b) bsz n
  = if written_bits q <? n
    then Ret (-1, Some EAGAIN, Some q, Some b)
    else '(ret_val, e, q', b') ← read_loop (S (Z.to_nat n)) q b bsz 0 0 n;
         Ret (if ret_val =? -1 then ret_val else n, e, Some q', Some b').
Proof.
  intros Hinv Hbuf Hsz Hb0 Hlb Hn Hcap.
  pose proof Hinv as (Hrb & Hri & Hwb & Hwi & Hw).
  rewrite INT_MAX_val in Hsz. unfold SIZE_MAX in Hlb. rewrite SIZE_MOD_val in Hlb.
  assert (Hb8 : sz (bsz * BITS_IN_BYTE) = bsz * 8)
    by (unfold BITS_IN_BYTE; apply sz_small; rewrite SIZE_MOD_val; lia).
  assert (Hq8 : sz (buffer_size q * BITS_IN_BYTE) = buffer_size q * 8)
    by (unfold BITS_IN_BYTE; apply sz_small; rewrite SIZE_MOD_val; lia).
  unfold bit_queue_read_bits.
  replace (n =? 0) with false by (symmetry; apply Z.eqb_neq; lia).
  rewrite Hb8. replace (bsz * 8 <? n) with false by (symmetry; apply Z.ltb_ge; lia).
  cbn [orb]. rewrite Hbuf, Hq8.
  replace (n >? buffer_size q * 8) with false
    by (symmetry; rewrite Z.gtb_ltb; apply Z.ltb_ge; lia).
  unfold bit_queue_has_data. cbn [fst]. rewrite Z.geb_leb.
  destruct (Z.leb_spec n (written_bits q));
    destruct (Z.ltb_spec (written_bits q) n); try lia;
    cbn [negb]; [|reflexivity].
  rewrite to_int_small by (rewrite INT_MAX_val; lia). reflexivity.
Qed.

(** One pass of the loop of [bit_queue_read_bits]: the bits up to the end
    of the ring are copied, both cursors move on, and the loop goes round
    again when bits are left. *)
Lemma read_loop_step fuel (q : queue) ring b bby bbi r :
  queue_inv q -> buffer q = Some ring ->
  Z.of_nat (length ring) = buffer_size q ->
  8 * buffer_size q <= INT_MAX ->
  8 * Z.of_nat (length b) <= SIZE_MAX ->
  1 <= r <= written_bits q ->
  0 <= bby -> 0 <= bbi < 8 ->
  bitpos bby bbi + r <= 8 * Z.of_nat (length b) ->
  let rpos := bitpos (r_byte_offset q) (r_bit_offset q) in
  let m := Z.min r (8 * buffer_size q - rpos) in
  let c := wrap_read_cursor (buffer_size q)
             (advance_cursor (r_byte_offset q) (r_bit_offset q) m) in
  let q1 := set_read_cursor q (snd c) (fst c) (written_bits q - m) in
  let bc := advance_cursor bby bbi m in
  exists b1,
    bits_copied b ring (bitpos bby bbi) rpos m b1
    /\ read_loop (S fuel) q b (Z.of_nat (length b)) bby bbi r
       = if 0 <? r - m
         then read_loop fuel q1 b1 (Z.of_nat (length b)) (fst bc) (snd bc) (r - m)
         else Ret (m, None, q1, b1).
Proof.
  intros Hinv Hbuf Hlr Hsz Hlb Hr Hbby Hbbi Hroom rpos m c q1 bc.
  pose proof Hinv as (Hrb & Hri & Hwb & Hwi & Hw).
  rewrite INT_MAX_val in Hsz. unfold SIZE_MAX in Hlb. rewrite SIZE_MOD_val in Hlb.
  set (bsz := Z.of_nat (length b)) in *.
  assert (Hq8 : sz (buffer_size q * BITS_IN_BYTE) = buffer_size q * 8)
    by (unfold BITS_IN_BYTE; apply sz_small; rewrite SIZE_MOD_val; lia).
  unfold bitpos in Hroom.
  assert (Hv : copy_args_invalid bby bbi bsz (r_byte_offset q) (r_bit_offset q)
                                 (buffer_size q) r = false).
  { unfold copy_args_invalid. rewrite Hq8. unfold BITS_IN_BYTE.
    repeat (apply orb_false_intro); rewrite ?Z.geb_leb; zbool.
    apply Z.eqb_neq. lia. }
  destruct (copy_success b ring bby bbi (r_byte_offset q) (r_bit_offset q) r)
    as (b1 & Hc & Hbits); rewrite ?Hlr; fold bsz;
    try (unfold SIZE_MAX; rewrite SIZE_MOD_val); try (unfold bitpos; lia);
    try assumption.
  rewrite Hlr in Hc, Hbits. fold bsz rpos m in Hc. fold rpos m in Hbits.
  assert (Hm : 1 <= m <= r /\ rpos + m <= 8 * buffer_size q)
    by (unfold m, rpos, bitpos; lia).
  rewrite to_int_small in Hc by (rewrite INT_MAX_val; lia).
  exists b1. split; [exact Hbits|].
  rewrite read_loop_unfold, Hbuf, Hc. cbn [mbind outcome_bind].
  replace (m =? -1) with false by (symmetry; apply Z.eqb_neq; lia).
  fold bc. rewrite (surjective_pairing bc).
  fold c. rewrite (surjective_pairing c).
  cbn [default from_option id].
  rewrite (sz_small m) by (rewrite SIZE_MOD_val; lia).
  rewrite (sz_small (written_bits q - m)) by (rewrite SIZE_MOD_val; lia).
  rewrite (sz_small (r - m)) by (rewrite SIZE_MOD_val; lia).
  reflexivity.
Qed.

(** The state of the queue after such a pass. *)
Lemma read_step_state (q : queue) ring m :
  queue_inv q -> buffer q = Some ring ->
  8 * buffer_size q <= INT_MAX ->
  0 <= m <= written_bits q ->
  bitpos (r_byte_offset q) (r_bit_offset q) + m <= 8 * buffer_size q ->
  let c := wrap_read_cursor (buffer_size q)
             (advance_cursor (r_byte_offset q) (r_bit_offset q) m) in
  let q1 := set_read_cursor q (snd c) (fst c) (written_bits q - m) in
  queue_inv q1 /\ buffer q1 = Some ring /\ buffer_size q1 = buffer_size q
  /\ written_bits q1 = written_bits q - m
  /\ w_byte_offset q1 = w_byte_offset q /\ w_bit_offset q1 = w_bit_offset q
  /\ free_buff q1 = free_buff q.
Proof.
  intros Hinv Hbuf Hsz Hm Hfit c q1.
  pose proof Hinv as (Hrb & Hri & Hwb & Hwi & Hw).
  rewrite INT_MAX_val in Hsz. unfold bitpos in Hfit.
  pose proof (advance_cursor_bounds (r_byte_offset q) (r_bit_offset q) m (buffer_size q)
                ltac:(lia) ltac:(lia) ltac:(lia) ltac:(lia)
                ltac:(unfold SIZE_MAX; rewrite SIZE_MOD_val; lia)) as (Ha1 & Ha2 & Ha3 & Ha4).
  assert (Hc : 0 <= fst c < buffer_size q /\ 0 <= snd c < 8).
  { unfold c, wrap_read_cursor.
    destruct (Z.eqb_spec (fst (advance_cursor (r_byte_offset q) (r_bit_offset q) m))
                         (buffer_size q)); cbn [fst snd]; lia. }
  unfold q1, set_read_cursor, queue_inv. queue_fields.
  repeat split; try assumption; try reflexivity; lia.
Qed.

Lemma read_loop_succeeds fuel : forall (q : queue) ring b bby bbi r,
  queue_inv q -> buffer q = Some ring ->
  Z.of_nat (length ring) = buffer_size q ->
  8 * buffer_size q <= INT_MAX ->
  8 * Z.of_nat (length b) <= SIZE_MAX ->
  1 <= r <= written_bits q -> r <= Z.of_nat fuel ->
  0 <= bby -> 0 <= bbi < 8 ->
  bitpos bby bbi + r <= 8 * Z.of_nat (length b) ->
  exists ret q' b',
    read_loop fuel q b (Z.of_nat (length b)) bby bbi r = Ret (ret, None, q', b')
    /\ ret <> -1
    /\ queue_inv q'
    /\ written_bits q' = written_bits q - r
    /\ buffer q' = Some ring /\ buffer_size q' = buffer_size q
    /\ w_byte_offset q' = w_byte_offset q /\ w_bit_offset q' = w_bit_offset q
    /\ free_buff q' = free_buff q
    /\ length b' = length b
    /\ (forall j, bitpos bby bbi + r <= j -> bit_at b' j = bit_at b j)
    /\ (forall j, bit_at b j = true -> bit_at b' j = true).
Proof.
  induction fuel as [|fuel IH];
    intros q ring b bby bbi r Hinv Hbuf Hlr Hsz Hlb Hr Hfuel Hbby Hbbi Hroom; [lia|].
  destruct (read_loop_step fuel q ring b bby bbi r Hinv Hbuf Hlr Hsz Hlb Hr
              Hbby Hbbi Hroom) as (b1 & Hbits & Hstep).
  cbn zeta in Hbits, Hstep.
  set (rpos := bitpos (r_byte_offset q) (r_bit_offset q)) in *.
  set (m := Z.min r (8 * buffer_size q - rpos)) in *.
  pose proof Hinv as (Hrb & Hri & Hwb & Hwi & Hw).
  assert (Hm : 1 <= m <= r /\ rpos + m <= 8 * buffer_size q)
    by (unfold m, rpos, bitpos; lia).
  destruct (read_step_state q ring m Hinv Hbuf Hsz ltac:(lia) ltac:(lia))
    as (Hinv1 & Hbuf1 & Hsz1 & Hwr1 & Hwb1 & Hwi1 & Hfb1).
  fold rpos m in Hinv1, Hbuf1, Hsz1, Hwr1, Hwb1, Hwi1, Hfb1.
  destruct Hbits as (Hlen1 & Hbit1).
  assert (Hframe1 : forall j, bitpos bby bbi + r <= j -> bit_at b1 j = bit_at b j).
  { intros j Hj. rewrite Hbit1.
    replace (j <? bitpos bby bbi + m) with false by (symmetry; apply Z.ltb_ge; lia).
    rewrite andb_false_r. cbn [andb]. apply orb_false_r. }
  assert (Hmono1 : forall j, bit_at b j = true -> bit_at b1 j = true).
  { intros j Hj. rewrite Hbit1, Hj. reflexivity. }
  rewrite Hstep. destruct (Z.ltb_spec 0 (r - m)) as [Hmore|Hdone].
  - unfold SIZE_MAX in Hlb. 
    pose proof (advance_cursor_bounds bby bbi m (Z.of_nat (length b))
                  Hbby Hbbi ltac:(lia) ltac:(unfold bitpos in Hroom; lia)
                  ltac:(unfold SIZE_MAX; lia)) as (Hb1 & Hb2 & _ & Hb4).
    pose proof (u8_le (bbi + m) ltac:(lia)) as Hu.
    set (bc := advance_cursor bby bbi m) in *.
    destruct (IH _ ring b1 (fst bc) (snd bc) (r - m) Hinv1 Hbuf1)
      as (ret & q' & b' & Hloop & Hret & Hinv' & Hwr' & Hbuf' & Hsz' & Hwb' & Hwi'
          & Hfb' & Hlen' & Hframe' & Hmono');
      rewrite ?Hlen1, ?Hsz1, ?Hwr1; unfold SIZE_MAX; unfold bitpos in *; try lia;
      try assumption.
    rewrite Hlen1 in Hloop.
    exists ret, q', b'. split; [exact Hloop|].
    split; [exact Hret|]. split; [exact Hinv'|]. split; [lia|].
    split; [exact Hbuf'|]. split; [congruence|]. split; [congruence|].
    split; [congruence|]. split; [congruence|]. split; [congruence|]. split.
    + intros j Hj. rewrite Hframe' by lia. apply Hframe1. exact Hj.
    + intros j Hj. apply Hmono', Hmono1, Hj.
  - exists m. eexists. exists b1. split; [reflexivity|].
    assert (Hrm : r = m) by lia.
    split; [lia|]. split; [exact Hinv1|]. split; [rewrite Hwr1; lia|].
    split; [exact Hbuf1|]. split; [exact Hsz1|]. split; [exact Hwb1|].
    split; [exact Hwi1|]. split; [exact Hfb1|]. split; [exact Hlen1|].
    split; [exact Hframe1 | exact Hmono1].
Qed.

(** X3.  [bit_queue_has_data] decides a read: on a queue in a valid state
    whose capacity in bits fits an [int] ([buffer_size*8 <= INT_MAX]) and
    that holds at least [bit_count] bits, [bit_queue_read_bits] into a
    buffer of the declared size returns [bit_count], whether or not the
    bits lie across the end of the ring.  [written_bits] shrinks by
    [bit_count]; the ring, the write cursor, the capacity and the
    ownership flag stay; the state stays valid.  The caller's buffer keeps
    its length, every bit of it from bit [bit_count] on, and every bit
    that was set. *)
Theorem read_bits_succeeds (q : queue) (ring b : list Z) (n : Z) :
  queue_inv q -> buffer q = Some ring ->
  Z.of_nat (length ring) = buffer_size q ->
  8 * buffer_size q <= INT_MAX ->
  8 * Z.of_nat (length b) <= SIZE_MAX ->
  0 < n <= 8 * Z.of_nat (length b) ->
  n <= written_bits q ->
  fst (bit_queue_has_data (Some q) n) = true
  /\ exists q' b',
    bit_queue_read_bits (Some q) (Some b) (Z.of_nat (length b)) n
    = Ret (n, None, Some q', Some b')
    /\ queue_inv q'
    /\ written_bits q' = written_bits q - n
    /\ buffer q' = Some ring /\ buffer_size q' = buffer_size q
    /\ w_byte_offset q' = w_byte_offset q /\ w_bit_offset q' = w_bit_offset q
    /\ free_buff q' = free_buff q
    /\ length b' = length b
    /\ (forall j, n <= j -> bit_at b' j = bit_at b j)
    /\ (forall j, bit_at b j = true -> bit_at b' j = true).
Proof.
  intros Hinv Hbuf Hlr Hsz Hlb Hn Hdata.
  pose proof Hinv as (Hrb & Hri & Hwb & Hwi & Hw).
  split; [cbn; rewrite Z.geb_leb; apply Z.leb_le; lia|].
  rewrite (read_bits_enters_loop q ring b _ n Hinv Hbuf Hsz) by lia.
  destruct (Z.ltb_spec (written_bits q) n); [lia|].
  destruct (read_loop_succeeds (S (Z.to_nat n)) q ring b 0 0 n Hinv Hbuf Hlr Hsz Hlb)
    as (ret & q' & b' & Hloop & Hret & Hrest); unfold bitpos; try lia.
  exists q', b'. rewrite Hloop. cbn [mbind outcome_bind].
  replace (ret =? -1) with false by (symmetry; apply Z.eqb_neq; exact Hret).
  split; [reflexivity|]. unfold bitpos in Hrest. 
  replace (8 * 0 + 0 + n) with n in Hrest by lia. exact Hrest.
Qed.

Lemma read_bits_succeeds_witness :
  let q := mk_bit_queue (Some [255; 15]) 4 1 0 1 12 2 true in
  exists q' b',
    bit_queue_read_bits (Some q) (Some [0]) 1 6 = Ret (6, None, Some q', Some b')
    /\ written_bits q' = 6 /\ length b' = 1%nat.
Proof.
  intros q.
  assert (Hq : queue_inv q) by (unfold queue_inv; cbn; lia).
  destruct (read_bits_succeeds q [255; 15] [0] 6 Hq eq_refl eq_refl
              ltac:(zclosed) ltac:(zclosed) ltac:(zclosed) ltac:(zclosed))
    as (_ & q' & b' & Hcall & _ & Hwr & _ & _ & _ & _ & _ & Hlen & _).
  exists q', b'. split; [exact Hcall|]. split; [exact Hwr | exact Hlen].
Defined.

(** ** Reads across the end of the ring *)

Lemma advance_cursor_from_zero m :
  0 <= m < 256 -> advance_cursor 0 0 m = (m / 8, m mod 8).
Proof.
  intros H. unfold advance_cursor, BITS_IN_BYTE. cbn zeta.
  rewrite !Z.add_0_l, (u8_small m) by lia.
  rewrite sz_small by (rewrite SIZE_MOD_val; Z.div_mod_to_equations; lia).
  rewrite u8_small by (Z.div_mod_to_equations; lia). reflexivity.
Qed.

Lemma set_read_cursor_twice (q : queue) a b w a' b' w' :
  set_read_cursor (set_read_cursor q a b w) a' b' w' = set_read_cursor q a' b' w'.
Proof. reflexivity. Qed.

(** X4.  A read whose bits lie across the end of the ring, on a queue in
    a valid state with [buffer_size*8 <= INT_MAX] that holds at least
    [bit_count] bits, into a buffer of the declared size.  With [m] bits
    between the read cursor and the end of the ring, [m < bit_count], the
    loop of [bit_queue_read_bits] makes two passes: bits 0 to [m - 1] of
    the caller's buffer receive the bits of the ring from the read cursor
    to its end, bits [m] to [bit_count - 1] receive the bits of the ring
    from its bit 0 on, all OR-ed in.  The call returns [bit_count], and the
    read cursor ends [bit_count - m] bits into the ring.  The first pass
    goes through the [uint8_t] bit offsets, so the statement is for
    bit offset plus [m] below 256. *)
Theorem read_bits_across_ring_end (q : queue) (ring b : list Z) (n : Z) :
  queue_inv q -> buffer q = Some ring ->
  Z.of_nat (length ring) = buffer_size q ->
  8 * buffer_size q <= INT_MAX ->
  8 * Z.of_nat (length b) <= SIZE_MAX ->
  0 < n <= 8 * Z.of_nat (length b) ->
  n <= written_bits q ->
  let rpos := bitpos (r_byte_offset q) (r_bit_offset q) in
  let m := 8 * buffer_size q - rpos in
  m < n ->
  r_bit_offset q + m < 256 ->
  exists b',
    let c := wrap_read_cursor (buffer_size q) (advance_cursor 0 0 (n - m)) in
    bit_queue_read_bits (Some q) (Some b) (Z.of_nat (length b)) n
    = Ret (n, None,
           Some (set_read_cursor q (snd c) (fst c) (written_bits q - n)),
           Some b')
    /\ length b' = length b
    /\ (forall j,
          bit_at b' j
          = bit_at b j
            || ((0 <=? j) && (j <? m) && bit_at ring (rpos + j))
            || ((m <=? j) && (j <? n) && bit_at ring (j - m)))
    /\ (n - m < 256 -> c = cursor_at (buffer_size q) (n - m)).
Proof.
  intros Hinv Hbuf Hlr Hsz Hlb Hn Hdata rpos m Hcross H256.
  pose proof Hinv as (Hrb & Hri & Hwb & Hwi & Hw).
  assert (Hm : 1 <= m) by (unfold m, rpos, bitpos; lia).
  rewrite (read_bits_enters_loop q ring b _ n Hinv Hbuf Hsz) by lia.
  destruct (Z.ltb_spec (written_bits q) n); [lia|].
  destruct (read_loop_step (Z.to_nat n) q ring b 0 0 n Hinv Hbuf Hlr Hsz Hlb)
    as (b1 & Hbits1 & Hstep1); unfold bitpos; try lia.
  cbn zeta in Hbits1, Hstep1. fold rpos in Hbits1, Hstep1.
  replace (Z.min n (8 * buffer_size q - rpos)) with m in Hbits1, Hstep1
    by (unfold m; lia).
  assert (Hsz' : 8 * buffer_size q <= SIZE_MAX)
    by (rewrite INT_MAX_val in Hsz; unfold SIZE_MAX; rewrite SIZE_MOD_val; lia).
  assert (Hc1 : wrap_read_cursor (buffer_size q)
                  (advance_cursor (r_byte_offset q) (r_bit_offset q) m) = (0, 0)).
  { rewrite (proj1 (advance_cursor_exact (r_byte_offset q) (r_bit_offset q) m
                      (buffer_size q) ltac:(lia) ltac:(lia) ltac:(lia) H256
                      ltac:(unfold m, rpos; lia) Hsz')).
    unfold cursor_at.
    replace (bitpos (r_byte_offset q) (r_bit_offset q) + m) with (8 * buffer_size q)
      by (unfold m, rpos; lia).
    rewrite Z.eqb_refl. reflexivity. }
  pose proof (read_step_state q ring m Hinv Hbuf Hsz ltac:(lia)
                ltac:(unfold m, rpos; lia)) as Hst.
  cbn zeta in Hst. rewrite Hc1 in Hst, Hstep1. cbn [fst snd] in Hst, Hstep1.
  rewrite advance_cursor_from_zero in Hstep1 by lia. cbn [fst snd] in Hstep1.
  destruct Hst as (Hinv1 & Hbuf1 & Hsz1 & Hwr1 & _).
  destruct Hbits1 as (Hlen1 & Hbit1).
  rewrite Hstep1. destruct (Z.ltb_spec 0 (n - m)); [|lia].
  destruct (Z.to_nat n) as [|k] eqn:Hk; [lia|].
  assert (Hlr1 : Z.of_nat (length ring)
                 = buffer_size (set_read_cursor q 0 0 (written_bits q - m)))
    by (rewrite Hsz1; exact Hlr).
  assert (Hsz1' : 8 * buffer_size (set_read_cursor q 0 0 (written_bits q - m))
                  <= INT_MAX) by (rewrite Hsz1; exact Hsz).
  assert (Hlb1 : 8 * Z.of_nat (length b1) <= SIZE_MAX) by (rewrite Hlen1; exact Hlb).
  assert (Hr1 : 1 <= n - m
                <= written_bits (set_read_cursor q 0 0 (written_bits q - m)))
    by (rewrite Hwr1; lia).
  assert (Hdm : 0 <= m / 8 /\ 0 <= m mod 8 < 8 /\ 8 * (m / 8) + m mod 8 = m)
    by (Z.div_mod_to_equations; lia).
  assert (Hroom1 : bitpos (m / 8) (m mod 8) + (n - m) <= 8 * Z.of_nat (length b1))
    by (rewrite Hlen1; unfold bitpos; lia).
  destruct (read_loop_step k _ ring b1 (m / 8) (m mod 8) (n - m) Hinv1 Hbuf1 Hlr1
              Hsz1' Hlb1 Hr1 ltac:(lia) ltac:(lia) Hroom1)
    as (b2 & (Hlen2 & Hbit2) & Hstep2).
  rewrite Hlen1 in Hstep2.
  unfold set_read_cursor in Hstep2, Hbit2 |- *.
  cbn [buffer r_bit_offset r_byte_offset w_bit_offset w_byte_offset
       written_bits buffer_size free_buff] in Hstep2, Hbit2 |- *.
  change (bitpos 0 0) with 0 in Hstep2, Hbit1, Hbit2.
  replace (Z.min (n - m) (8 * buffer_size q - 0)) with (n - m) in Hstep2, Hbit2
    by lia.
  rewrite Z.sub_diag in Hstep2. change (0 <? 0) with false in Hstep2.
  cbn iota in Hstep2.
  exists b2. split; [|split; [congruence|split]].
  - rewrite Hstep2. cbn [mbind outcome_bind].
    replace (n - m =? -1) with false by (symmetry; apply Z.eqb_neq; lia).
    replace (written_bits q - m - (n - m)) with (written_bits q - n) by lia.
    reflexivity.
  - intros j. rewrite Hbit2, Hbit1. unfold bitpos.
    replace (8 * (m / 8) + m mod 8) with m by lia.
    replace (0 + m) with m by lia.
    replace (j - 0 + rpos) with (rpos + j) by lia.
    replace (m + (n - m)) with n by lia.
    replace (j - m + 0) with (j - m) by lia.
    reflexivity.
  - intros Hlow.
    rewrite (proj1 (advance_cursor_exact 0 0 (n - m) (buffer_size q)
                      ltac:(lia) ltac:(lia) ltac:(lia) ltac:(lia)
                      ltac:(unfold bitpos; lia) Hsz')).
    change (bitpos 0 0) with 0. rewrite Z.add_0_l. reflexivity.
Qed.

Lemma read_bits_across_ring_end_witness :
  let q := mk_bit_queue (Some [255; 175]) 4 1 0 1 12 2 true in
  exists b',
    bit_queue_read_bits (Some q) (Some [0]) 1 6
    = Ret (6, None, Some (mk_bit_queue (Some [255; 175]) 2 0 0 1 6 2 true), Some b')
    /\ length b' = 1%nat
    /\ bit_at b' 1 = bit_at [255; 175] 13
    /\ bit_at b' 5 = bit_at [255; 175] 1.
Proof.
  intros q.
  assert (Hq : queue_inv q) by (unfold queue_inv; cbn; lia).
  destruct (read_bits_across_ring_end q [255; 175] [0] 6 Hq eq_refl eq_refl
              ltac:(zclosed) ltac:(zclosed) ltac:(zclosed) ltac:(zclosed)
              ltac:(zclosed) ltac:(zclosed))
    as (b' & Hcall & Hlen & Hbits & _).
  exists b'. split; [exact Hcall|]. split; [exact Hlen|].
  split; [exact (Hbits 1) | exact (Hbits 5)].
Defined.

(** ** Reads that stay inside the ring *)

(** One pass of the loop of [bit_queue_read_bits] that ends the call: the
    bits asked for end at or before the end of the ring. *)
Lemma read_loop_pass fuel (q : queue) ring b n :
  queue_inv q -> buffer q = Some ring ->
  Z.of_nat (length ring) = buffer_size q ->
  8 * buffer_size q <= INT_MAX ->
  8 * Z.of_nat (length b) <= SIZE_MAX ->
  0 < n <= 8 * Z.of_nat (length b) ->
  n <= written_bits q ->
  bitpos (r_byte_offset q) (r_bit_offset q) + n <= 8 * buffer_size q ->
  exists b',
    read_loop (S fuel) q b (Z.of_nat (length b)) 0 0 n
    = Ret (n, None,
           let c := wrap_read_cursor (buffer_size q)
                      (advance_cursor (r_byte_offset q) (r_bit_offset q) n) in
           set_read_cursor q (snd c) (fst c) (written_bits q - n),
           b')
    /\ bits_copied b ring 0 (bitpos (r_byte_offset q) (r_bit_offset q)) n b'.
Proof.
  intros Hinv Hbuf Hlr Hsz Hlb Hn Hdata Hfit.
  destruct (read_loop_step fuel q ring b 0 0 n Hinv Hbuf Hlr Hsz Hlb)
    as (b1 & Hbits & Hstep); unfold bitpos in *; try lia.
  cbn zeta in Hbits, Hstep.
  replace (Z.min n (8 * buffer_size q - (8 * r_byte_offset q + r_bit_offset q)))
    with n in Hbits, Hstep by lia.
  rewrite Z.sub_diag in Hstep. change (0 <? 0) with false in Hstep.
  cbn iota in Hstep. rewrite Z.mul_0_r, Z.add_0_l in Hbits.
  exists b1. split; [exact Hstep | exact Hbits].
Qed.

(** X5.  The outcome of [bit_queue_read_bits] on a queue in a valid state
    whose capacity in bits fits an [int] ([buffer_size*8 <= INT_MAX]),
    when the bits asked for do not lie across the end of the ring, for a
    caller's buffer of the declared size and any bit count that the
    buffer and the ring can hold.  Fewer than
    [bit_count] bits in the queue: -1 with EAGAIN and nothing changes.
    Otherwise the call returns [bit_count]: the bits of the ring from the
    read cursor on are OR-ed into the caller's buffer from its bit 0, so a
    cleared buffer receives exactly these bits; [written_bits] shrinks by
    [bit_count]; the read cursor is advanced through its [uint8_t] bit
    offset, which is [bit_count] bits further on (at byte 0 when that is
    the end of the ring) as long as bit offset plus [bit_count] is below
    256. *)
Theorem read_bits_outcome (q : queue) (ring b : list Z) (n : Z) :
  queue_inv q -> buffer q = Some ring ->
  Z.of_nat (length ring) = buffer_size q ->
  8 * buffer_size q <= INT_MAX ->
  8 * Z.of_nat (length b) <= SIZE_MAX ->
  0 < n <= 8 * Z.of_nat (length b) ->
  n <= 8 * buffer_size q ->
  let rpos := bitpos (r_byte_offset q) (r_bit_offset q) in
  let call := bit_queue_read_bits (Some q) (Some b) (Z.of_nat (length b)) n in
  (written_bits q < n -> call = Ret (-1, Some EAGAIN, Some q, Some b))
  /\ (n <= written_bits q -> rpos + n <= 8 * buffer_size q ->
      exists b',
        let c := wrap_read_cursor (buffer_size q)
                   (advance_cursor (r_byte_offset q) (r_bit_offset q) n) in
        call = Ret (n, None,
                    Some (set_read_cursor q (snd c) (fst c) (written_bits q - n)),
                    Some b')
        /\ bits_copied b ring 0 rpos n b'
        /\ ((forall j, 0 <= j < n -> bit_at b j = false) ->
            forall j, 0 <= j < n -> bit_at b' j = bit_at ring (rpos + j))
        /\ (r_bit_offset q + n < 256 -> c = cursor_at (buffer_size q) (rpos + n))).
Proof.
  intros Hinv Hbuf Hlr Hsz Hlb Hn Hcap rpos call.
  pose proof Hinv as (Hrb & Hri & Hwb & Hwi & Hw).
  assert (Hcall := read_bits_enters_loop q ring b (Z.of_nat (length b)) n
                     Hinv Hbuf Hsz ltac:(lia) Hlb Hn Hcap).
  fold call in Hcall. split.
  - intros Hlt. rewrite Hcall.
    destruct (Z.ltb_spec (written_bits q) n); [reflexivity | lia].
  - intros Hdata Hfit. rewrite Hcall.
    destruct (Z.ltb_spec (written_bits q) n); [lia|].
    destruct (read_loop_pass (Z.to_nat n) q ring b n Hinv Hbuf Hlr Hsz Hlb Hn
                Hdata Hfit) as (b' & Hloop & Hbits).
    exists b'. cbn zeta. rewrite Hloop. cbn [mbind outcome_bind].
    replace (n =? -1) with false by (symmetry; apply Z.eqb_neq; lia).
    split; [reflexivity|]. split; [exact Hbits|]. split.
    + intros Hclear j Hj. rewrite (proj2 Hbits j), (Hclear j Hj).
      replace (0 <=? j) with true by (symmetry; apply Z.leb_le; lia).
      replace (j <? 0 + n) with true by (symmetry; apply Z.ltb_lt; lia).
      cbn [orb andb]. f_equal. fold rpos. lia.
    + intros H256. rewrite INT_MAX_val in Hsz.
      apply advance_cursor_exact; unfold rpos, bitpos, SIZE_MAX in *;
        rewrite ?SIZE_MOD_val; lia.
Qed.

Lemma read_bits_outcome_witness :
  let q := mk_bit_queue (Some [255; 175]) 4 1 0 1 12 2 true in
  bit_queue_read_bits (Some q) (Some [0; 0]) 2 13
  = Ret (-1, Some EAGAIN, Some q, Some [0; 0])
  /\ exists b',
       bit_queue_read_bits (Some q) (Some [0]) 1 3
       = Ret (3, None, Some (mk_bit_queue (Some [255; 175]) 7 1 0 1 9 2 true),
              Some b')
       /\ bits_copied [0] [255; 175] 0 12 3 b'
       /\ bit_at b' 1 = bit_at [255; 175] 13.
Proof.
  intros q.
  assert (Hq : queue_inv q) by (unfold queue_inv; cbn; lia).
  split.
  - apply (read_bits_outcome q [255; 175] [0; 0] 13 Hq eq_refl eq_refl
             ltac:(zclosed) ltac:(zclosed) ltac:(zclosed) ltac:(zclosed)).
    reflexivity.
  - destruct (proj2 (read_bits_outcome q [255; 175] [0] 3 Hq eq_refl eq_refl
                ltac:(zclosed) ltac:(zclosed) ltac:(zclosed) ltac:(zclosed))
                ltac:(zclosed) ltac:(zclosed))
      as (b' & Hcall & Hbits & Hclear & _).
    exists b'. split; [exact Hcall|]. split; [exact Hbits|].
    apply (Hclear (fun j _ => bit_at_zeros 1 j) 1). lia.
Defined.

(** ** Queues as the constructors hand them back *)

(** X6.  [bit_queue_base_init] refuses a byte count of 0 with EINVAL.
    For a byte count [size] from 1 on, with [size*8 <= INT_MAX], it hands
    back an empty queue in a valid state that owns a zeroed ring of
    [size] bytes: for a caller's buffer of the declared size, a read of any
    bit count the ring can hold returns -1 with EAGAIN and changes
    nothing, and a first write of [bit_count] bits returns [bit_count] and
    leaves the ring holding exactly the first [bit_count] bits of the
    caller's buffer, from its bit 0 on. *)
Theorem base_init_queue_starts_empty (size : Z) (b : list Z) (n : Z) :
  0 < size -> 8 * size <= INT_MAX ->
  8 * Z.of_nat (length b) <= SIZE_MAX ->
  0 < n <= 8 * Z.of_nat (length b) -> n <= 8 * size ->
  bit_queue_base_init 0 = (None, Some EINVAL)
  /\ exists q,
       bit_queue_base_init size = (Some q, None)
       /\ queue_inv q
       /\ buffer q = Some (replicate (Z.to_nat size) 0)
       /\ written_bits q = 0 /\ buffer_size q = size /\ free_buff q = true
       /\ bit_queue_read_bits (Some q) (Some b) (Z.of_nat (length b)) n
          = Ret (-1, Some EAGAIN, Some q, Some b)
       /\ exists q' ring',
            bit_queue_write_bits (Some q) (Some b) (Z.of_nat (length b)) n
            = Ret (n, None, Some q', Some b)
            /\ buffer q' = Some ring'
            /\ written_bits q' = n
            /\ length ring' = Z.to_nat size
            /\ forall j, bit_at ring' j = (0 <=? j) && (j <? n) && bit_at b j.
Proof.
  intros Hs Hmax Hlb Hn Hcap. split; [reflexivity|].
  unfold bit_queue_base_init.
  replace (size =? 0) with false by (symmetry; apply Z.eqb_neq; lia).
  set (ring := replicate (Z.to_nat size) 0).
  set (q := mk_bit_queue (Some ring) 0 0 0 0 0 size true).
  assert (Hinv : queue_inv q) by (unfold queue_inv, q; queue_fields; lia).
  assert (Hlr : Z.of_nat (length ring) = buffer_size q)
    by (unfold ring, q; queue_fields; rewrite length_replicate; lia).
  exists q. split; [reflexivity|]. split; [exact Hinv|].
  do 4 (split; [reflexivity|]). split.
  - rewrite (read_bits_enters_loop q ring b _ n Hinv eq_refl Hmax)
      by first [exact Hn | exact Hlb | exact Hcap | lia].
    change (written_bits q) with 0.
    destruct (Z.ltb_spec 0 n); [reflexivity | lia].
  - rewrite (write_bits_enters_loop q ring b _ n Hinv eq_refl Hmax)
      by first [exact Hn | exact Hlb | exact Hcap | lia].
    change (written_bits q) with 0. change (buffer_size q) with size.
    destruct (Z.ltb_spec (8 * size - 0) n); [lia|].
    destruct (write_loop_pass (Z.to_nat n) q ring b n Hinv eq_refl Hlr Hmax Hlb Hn
                ltac:(unfold q; queue_fields; lia)) as (_ & Hdone).
    destruct (Hdone ltac:(unfold q, bitpos; queue_fields; lia))
      as (ring' & Hloop & Hlen & Hbits).
    rewrite Hloop. cbn [mbind outcome_bind].
    replace (n =? -1) with false by (symmetry; apply Z.eqb_neq; lia).
    eexists _, ring'. split; [reflexivity|].
    split; [reflexivity|]. split; [reflexivity|].
    split; [rewrite Hlen; apply length_replicate|].
    intros j. rewrite Hbits. unfold ring. rewrite bit_at_zeros. cbn [orb].
    change (bitpos (w_byte_offset q) (w_bit_offset q)) with 0.
    rewrite Z.add_0_l, Z.sub_0_r, Z.add_0_r. reflexivity.
Qed.

Lemma base_init_queue_starts_empty_witness :
  exists q,
    bit_queue_base_init 2 = (Some q, None)
    /\ bit_queue_read_bits (Some q) (Some [5]) 1 3
       = Ret (-1, Some EAGAIN, Some q, Some [5])
    /\ exists q' ring',
         bit_queue_write_bits (Some q) (Some [5]) 1 3 = Ret (3, None, Some q', Some [5])
         /\ buffer q' = Some ring'
         /\ bit_at ring' 2 = true /\ bit_at ring' 3 = false.
Proof.
  destruct (base_init_queue_starts_empty 2 [5] 3 ltac:(zclosed) ltac:(zclosed)
              ltac:(zclosed) ltac:(zclosed) ltac:(zclosed))
    as (_ & q & Hq & _ & _ & _ & _ & _ & Hread & q' & ring' & Hwrite & Hbuf & _ & _
        & Hbits).
  exists q. split; [exact Hq|]. split; [exact Hread|].
  exists q', ring'. split; [exact Hwrite|]. split; [exact Hbuf|].
  split; [exact (Hbits 2) | exact (Hbits 3)].
Defined.

(** X7.  [bit_queue_init] refuses a NULL buffer and a byte count of 0 with
    EINVAL.  Otherwise, for a buffer of the declared [size] bytes with
    [size*8 <= INT_MAX], it hands back a queue in a valid state that wraps
    these bytes as its ring and counts all of them as written: with a
    caller's buffer of the declared size that is apart from the ring, a
    write of any bit count the ring can hold returns -1 with
    EAGAIN and changes nothing, and a first read of [bit_count] bits
    returns [bit_count] and OR-s the first [bit_count] bits of the wrapped
    buffer into the destination, from its bit 0 on. *)
Theorem init_queue_starts_full (buff b : list Z) (size n : Z) (fb : bool) :
  0 < size -> 8 * size <= INT_MAX ->
  Z.of_nat (length buff) = size ->
  8 * Z.of_nat (length b) <= SIZE_MAX ->
  0 < n <= 8 * Z.of_nat (length b) -> n <= 8 * size ->
  bit_queue_init None size fb = (None, Some EINVAL)
  /\ bit_queue_init (Some buff) 0 fb = (None, Some EINVAL)
  /\ exists q,
       bit_queue_init (Some buff) size fb = (Some q, None)
       /\ queue_inv q
       /\ buffer q = Some buff
       /\ written_bits q = 8 * size /\ buffer_size q = size /\ free_buff q = fb
       /\ bit_queue_write_bits (Some q) (Some b) (Z.of_nat (length b)) n
          = Ret (-1, Some EAGAIN, Some q, Some b)
       /\ exists q' b',
            bit_queue_read_bits (Some q) (Some b) (Z.of_nat (length b)) n
            = Ret (n, None, Some q', Some b')
            /\ buffer q' = Some buff
            /\ written_bits q' = 8 * size - n
            /\ length b' = length b
            /\ forall j,
                 bit_at b' j
                 = bit_at b j || ((0 <=? j) && (j <? n) && bit_at buff j).
Proof.
  intros Hs Hmax Hlbuff Hlb Hn Hcap. split; [reflexivity|]. split; [reflexivity|].
  unfold bit_queue_init.
  replace (size =? 0) with false by (symmetry; apply Z.eqb_neq; lia).
  assert (Hs8 : sz (size * BITS_IN_BYTE) = 8 * size).
  { unfold BITS_IN_BYTE. rewrite INT_MAX_val in Hmax.
    rewrite sz_small by (rewrite SIZE_MOD_val; lia). lia. }
  rewrite Hs8.
  set (q := mk_bit_queue (Some buff) 0 0 0 0 (8 * size) size fb).
  assert (Hinv : queue_inv q) by (unfold queue_inv, q; queue_fields; lia).
  exists q. split; [reflexivity|]. split; [exact Hinv|].
  do 4 (split; [reflexivity|]). split.
  - rewrite (write_bits_enters_loop q buff b _ n Hinv eq_refl Hmax)
      by first [exact Hn | exact Hlb | exact Hcap | lia].
    change (written_bits q) with (8 * size). change (buffer_size q) with size.
    destruct (Z.ltb_spec (8 * size - 8 * size) n); [reflexivity | lia].
  - rewrite (read_bits_enters_loop q buff b _ n Hinv eq_refl Hmax)
      by first [exact Hn | exact Hlb | exact Hcap | lia].
    change (written_bits q) with (8 * size).
    destruct (Z.ltb_spec (8 * size) n); [lia|].
    destruct (read_loop_pass (Z.to_nat n) q buff b n Hinv eq_refl Hlbuff Hmax Hlb Hn
                ltac:(unfold q; queue_fields; lia)
                ltac:(unfold q, bitpos; queue_fields; lia))
      as (b' & Hloop & Hlen & Hbits).
    rewrite Hloop. cbn [mbind outcome_bind].
    replace (n =? -1) with false by (symmetry; apply Z.eqb_neq; lia).
    eexists _, b'. split; [reflexivity|].
    split; [reflexivity|]. split; [reflexivity|]. split; [exact Hlen|].
    intros j. rewrite Hbits.
    change (bitpos (r_byte_offset q) (r_bit_offset q)) with 0.
    rewrite Z.add_0_l, Z.sub_0_r, Z.add_0_r. reflexivity.
Qed.

Lemma init_queue_starts_full_witness :
  exists q,
    bit_queue_init (Some [170; 170]) 2 false = (Some q, None)
    /\ bit_queue_write_bits (Some q) (Some [0]) 1 1
       = Ret (-1, Some EAGAIN, Some q, Some [0])
    /\ exists q' b',
         bit_queue_read_bits (Some q) (Some [0]) 1 8 = Ret (8, None, Some q', Some b')
         /\ written_bits q' = 8
         /\ bit_at b' 0 = false /\ bit_at b' 1 = true.
Proof.
  destruct (init_queue_starts_full [170; 170] [0] 2 1 false ltac:(zclosed)
              ltac:(zclosed) eq_refl ltac:(zclosed) ltac:(zclosed) ltac:(zclosed))
    as (_ & _ & q & Hq & _ & _ & _ & _ & _ & Hwrite & _).
  destruct (init_queue_starts_full [170; 170] [0] 2 8 false ltac:(zclosed)
              ltac:(zclosed) eq_refl ltac:(zclosed) ltac:(zclosed) ltac:(zclosed))
    as (_ & _ & q2 & Hq2 & _ & _ & _ & _ & _ & _ & q' & b' & Hread & _ & Hwr & _
        & Hbits).
  assert (Hqq : q2 = q) by congruence. subst q2.
  exists q. split; [exact Hq|]. split; [exact Hwrite|].
  exists q', b'. split; [exact Hread|]. split; [exact Hwr|].
  split; [exact (Hbits 0) | exact (Hbits 1)].
Defined.

(** ** Argument errors *)

(** X8.  The argument checks shared by [bit_queue_read_bits] and
    [bit_queue_write_bits].  A NULL queue, a NULL buffer, a bit count of 0,
    a buffer of fewer than [bit_count] bits ([buffer_size * 8], computed in
    [size_t], below [bit_count]) or a queue structure without a ring: both
    calls return -1 with EINVAL, before any other check, and change
    neither the queue nor the caller's buffer.  The two capacity queries
    answer false with EINVAL on a NULL queue. *)
Theorem queue_argument_errors (bq : option queue) (buf : option (list Z)) (bsz n : Z) :
  bq = None \/ buf = None \/ n = 0 \/ sz (bsz * BITS_IN_BYTE) < n
  \/ (exists q, bq = Some q /\ buffer q = None) ->
  bit_queue_read_bits bq buf bsz n = Ret (-1, Some EINVAL, bq, buf)
  /\ bit_queue_write_bits bq buf bsz n = Ret (-1, Some EINVAL, bq, buf)
  /\ bit_queue_has_space None n = (false, Some EINVAL)
  /\ bit_queue_has_data None n = (false, Some EINVAL).
Proof.
  intros H. unfold bit_queue_read_bits, bit_queue_write_bits.
  destruct bq as [q|]; [|repeat split].
  destruct buf as [b|]; [|repeat split].
  destruct H as [H|[H|[H|[H|(q0 & H & Hnone)]]]]; try discriminate.
  - subst n. repeat split.
  - replace (sz (bsz * BITS_IN_BYTE) <? n) with true
      by (symmetry; apply Z.ltb_lt; exact H).
    rewrite orb_true_r. repeat split.
  - injection H as <-. rewrite Hnone.
    destruct (_ || _); repeat split.
Qed.

Lemma queue_argument_errors_witness :
  let q := mk_bit_queue (Some [0; 0]) 0 0 0 0 0 2 true in
  bit_queue_read_bits (Some q) (Some [0]) 1 9 = Ret (-1, Some EINVAL, Some q, Some [0])
  /\ bit_queue_write_bits (Some q) (Some [0]) 1 0
     = Ret (-1, Some EINVAL, Some q, Some [0]).
Proof.
  intros q. split.
  - apply (queue_argument_errors (Some q) (Some [0]) 1 9).
    right. right. right. left. reflexivity.
  - apply (queue_argument_errors (Some q) (Some [0]) 1 0).
    right. right. left. reflexivity.
Defined.

(** ** What the operations leave alone *)

Lemma read_loop_frame fuel : forall q b bsz bby bbi r ret e q' b',
  read_loop fuel q b bsz bby bbi r = Ret (ret, e, q', b') ->
  buffer q' = buffer q
  /\ w_byte_offset q' = w_byte_offset q /\ w_bit_offset q' = w_bit_offset q
  /\ buffer_size q' = buffer_size q /\ free_buff q' = free_buff q.
Proof.
  induction fuel as [|fuel IH]; intros q b bsz bby bbi r ret e q' b' Hl; [discriminate|].
  rewrite read_loop_unfold in Hl. apply bind_Ret in Hl as ([[rv e1] dst] & _ & Hl).
  cbn zeta in Hl.
  destruct (rv =? -1); [injection Hl as <- <- <- <-; repeat split|].
  destruct (advance_cursor bby bbi rv) as [bby' bbi'].
  destruct (wrap_read_cursor _ _) as [rby rbi].
  destruct (0 <? _).
  - apply IH in Hl. exact Hl.
  - injection Hl as <- <- <- <-. repeat split.
Qed.

Lemma write_loop_frame fuel : forall q b bsz bby bbi r ret e q',
  write_loop fuel q b bsz bby bbi r = Ret (ret, e, q') ->
  r_byte_offset q' = r_byte_offset q /\ r_bit_offset q' = r_bit_offset q
  /\ buffer_size q' = buffer_size q /\ free_buff q' = free_buff q.
Proof.
  induction fuel as [|fuel IH]; intros q b bsz bby bbi r ret e q' Hl; [discriminate|].
  rewrite write_loop_unfold in Hl. apply bind_Ret in Hl as ([[rv e1] dst] & _ & Hl).
  cbn zeta in Hl.
  destruct (rv =? -1); [injection Hl as <- <- <-; repeat split|].
  destruct (advance_cursor bby bbi rv) as [bby' bbi'].
  destruct (wrap_write_cursor _ _) as [wby wbi].
  destruct (0 <? _).
  - apply IH in Hl. exact Hl.
  - injection Hl as <- <- <-. repeat split.
Qed.

(** X9.  Each operation moves only its own side of the queue structure.
    Whatever its arguments and whatever it returns,
    [bit_queue_read_bits] leaves the write cursor, the capacity and the
    ownership flag of the structure as they were, and
    [bit_queue_write_bits] leaves the read cursor, the capacity and the
    ownership flag as they were.  The statement is about these fields of
    the structure only.  It says nothing about the contents of the ring
    or of the caller's buffer: this development keeps the two apart, and
    a caller's buffer that overlaps the ring is outside it. *)
Theorem operations_frame (q : queue) (buf : option (list Z)) (bsz n : Z)
    (ret : Z) (e : option errno) (q' : queue) (buf' : option (list Z)) :
  (bit_queue_read_bits (Some q) buf bsz n = Ret (ret, e, Some q', buf') ->
   w_byte_offset q' = w_byte_offset q /\ w_bit_offset q' = w_bit_offset q
   /\ buffer_size q' = buffer_size q /\ free_buff q' = free_buff q)
  /\ (bit_queue_write_bits (Some q) buf bsz n = Ret (ret, e, Some q', buf') ->
      r_byte_offset q' = r_byte_offset q /\ r_bit_offset q' = r_bit_offset q
      /\ buffer_size q' = buffer_size q /\ free_buff q' = free_buff q).
Proof.
  split; intros H.
  - unfold bit_queue_read_bits in H.
    destruct buf as [b|]; [|injection H as <- <- <- <-; repeat split].
    destruct (_ || _); [injection H as <- <- <- <-; repeat split|].
    destruct (buffer q); [|injection H as <- <- <- <-; repeat split].
    destruct (_ >? _); [injection H as <- <- <- <-; repeat split|].
    destruct (negb _); [injection H as <- <- <- <-; repeat split|].
    apply bind_Ret in H as ([[[rv e1] q1] b1] & Hl & H). injection H as <- <- <- <-.
    exact (proj2 (read_loop_frame _ _ _ _ _ _ _ _ _ _ _ Hl)).
  - unfold bit_queue_write_bits in H.
    destruct buf as [b|]; [|injection H as <- <- <- <-; repeat split].
    destruct (_ || _); [injection H as <- <- <- <-; repeat split|].
    destruct (buffer q); [|injection H as <- <- <- <-; repeat split].
    destruct (_ >? _); [injection H as <- <- <- <-; repeat split|].
    destruct (negb _); [injection H as <- <- <- <-; repeat split|].
    apply bind_Ret in H as ([[rv e1] q1] & Hl & H). injection H as <- <- <- <-.
    exact (write_loop_frame _ _ _ _ _ _ _ _ _ _ Hl).
Qed.

Lemma operations_frame_witness :
  let q := mk_bit_queue (Some [255; 15]) 0 0 4 1 12 2 true in
  let qr := mk_bit_queue (Some [255; 15]) 3 0 4 1 9 2 true in
  let qw := mk_bit_queue (Some [255; 63]) 0 0 6 1 14 2 true in
  (w_byte_offset qr = w_byte_offset q /\ w_bit_offset qr = w_bit_offset q
   /\ buffer_size qr = buffer_size q /\ free_buff qr = free_buff q)
  /\ (r_byte_offset qw = r_byte_offset q /\ r_bit_offset qw = r_bit_offset q
      /\ buffer_size qw = buffer_size q /\ free_buff qw = free_buff q).
Proof.
  intros q qr qw. split.
  - apply (proj1 (operations_frame q (Some [0]) 1 3 3 None qr (Some [7]))).
    reflexivity.
  - apply (proj2 (operations_frame q (Some [3]) 1 2 2 None qw (Some [3]))).
    reflexivity.
Defined.

(** ** The ring only gains set bits *)

Lemma write_loop_ring fuel : forall (q : queue) ring b bsz bby bbi r ret e q',
  buffer q = Some ring ->
  0 <= w_byte_offset q -> 0 <= w_bit_offset q ->
  0 <= bby -> 0 <= bbi -> 0 <= r ->
  Z.of_nat (length ring) < SIZE_MOD -> Z.of_nat (length b) < SIZE_MOD ->
  write_loop fuel q b bsz bby bbi r = Ret (ret, e, q') ->
  exists ring',
    buffer q' = Some ring' /\ length ring' = length ring
    /\ forall j, bit_at ring j = true -> bit_at ring' j = true.
Proof.
  induction fuel as [|fuel IH];
    intros q ring b bsz bby bbi r ret e q' Hbuf Hwb Hwi Hbby Hbbi Hr Hlr Hlb Hl;
    [discriminate|].
  rewrite write_loop_unfold, Hbuf in Hl.
  apply bind_Ret in Hl as ([[rv e1] dst] & Hc & Hl). cbn zeta in Hl.
  destruct (copy_length _ _ _ _ _ _ _ _ _ _ _ _ Hwb Hwi Hbby Hbbi Hr Hlr Hlb Hc)
    as (d & -> & Hlen).
  assert (Hmono : forall j, bit_at ring j = true -> bit_at d j = true).
  { destruct (copy_ret_cases _ _ _ _ _ _ _ _ _ _ _ _ Hc)
      as [(_ & _ & Hsame)|(-> & _)].
    - injection Hsame as ->. auto.
    - destruct (bits_copied_of_call _ _ _ _ _ _ _ _ _ _ _
                  Hwb Hwi Hbby Hbbi Hr Hlr Hlb Hc) as (_ & _ & Hbits).
      intros j Hj. rewrite Hbits, Hj. reflexivity. }
  destruct (rv =? -1).
  { injection Hl as <- <- <-. exists d. repeat split; assumption. }
  pose proof (advance_cursor_nonneg bby bbi rv) as (Hb1 & Hb2).
  destruct (advance_cursor bby bbi rv) as [bby' bbi']. cbn [fst snd] in Hb1, Hb2.
  unfold set_write_cursor in Hl. cbn [buffer r_bit_offset r_byte_offset w_bit_offset w_byte_offset written_bits buffer_size free_buff] in Hl.
  pose proof (advance_cursor_nonneg (w_byte_offset q) (w_bit_offset q) rv) as (Hw1 & Hw2).
  assert (Hwc : 0 <= fst (wrap_write_cursor (buffer_size q)
                            (advance_cursor (w_byte_offset q) (w_bit_offset q) rv))
                /\ 0 <= snd (wrap_write_cursor (buffer_size q)
                               (advance_cursor (w_byte_offset q) (w_bit_offset q) rv))).
  { unfold wrap_write_cursor. destruct (_ =? _); cbn [fst snd]; lia. }
  destruct (wrap_write_cursor _ _) as [wby wbi]. cbn [fst snd] in Hwc.
  destruct (0 <? _).
  - assert (Hld : Z.of_nat (length d) < SIZE_MOD) by (rewrite Hlen; exact Hlr).
    apply (IH _ d) in Hl; queue_fields; try reflexivity; try assumption; try lia;
      try apply sz_range.
    destruct Hl as (ring' & Hb' & Hlen' & Hmono').
    exists ring'. split; [exact Hb'|]. split; [congruence|]. auto.
  - injection Hl as <- <- <-. exists d. repeat split; assumption.
Qed.

(** X10.  The ring only ever gains set bits.  Whatever
    [bit_queue_write_bits] returns, the ring keeps its length and every
    bit of it that was 1 before the call is 1 after it: data is OR-ed
    into the ring and nothing clears a position, neither a write nor, by
    the frame of [bit_queue_read_bits], the read that consumes it.  A 0
    written over a position that once held a 1 is therefore read back as
    1. *)
Theorem write_never_clears_ring (q : queue) (ring b : list Z) (bsz n : Z)
    (ret : Z) (e : option errno) (q' : queue) (buf' : option (list Z)) :
  buffer q = Some ring ->
  0 <= w_byte_offset q -> 0 <= w_bit_offset q -> 0 <= n ->
  Z.of_nat (length ring) < SIZE_MOD -> Z.of_nat (length b) < SIZE_MOD ->
  bit_queue_write_bits (Some q) (Some b) bsz n = Ret (ret, e, Some q', buf') ->
  exists ring',
    buffer q' = Some ring' /\ length ring' = length ring
    /\ forall j, bit_at ring j = true -> bit_at ring' j = true.
Proof.
  intros Hbuf Hwb Hwi Hn Hlr Hlb H. unfold bit_queue_write_bits in H.
  destruct (_ || _); [injection H as <- <- <- <-; eauto|].
  rewrite Hbuf in H.
  destruct (_ >? _); [injection H as <- <- <- <-; eauto|].
  destruct (negb _); [injection H as <- <- <- <-; eauto|].
  apply bind_Ret in H as ([[rv e1] q1] & Hl & H). injection H as <- <- <- <-.
  exact (write_loop_ring _ _ _ _ _ _ _ _ _ _ _ Hbuf Hwb Hwi (Z.le_refl 0)
           (Z.le_refl 0) Hn Hlr Hlb Hl).
Qed.

Lemma write_never_clears_ring_witness :
  exists ring',
    buffer (mk_bit_queue (Some [255; 0]) 0 1 0 1 8 2 true) = Some ring'
    /\ length ring' = 2%nat
    /\ forall j, bit_at [255; 0] j = true -> bit_at ring' j = true.
Proof.
  apply (write_never_clears_ring (mk_bit_queue (Some [255; 0]) 0 1 0 0 0 2 true)
           [255; 0] [0] 1 8 8 None (mk_bit_queue (Some [255; 0]) 0 1 0 1 8 2 true)
           (Some [0]) eq_refl); try zclosed.
Defined.

(** ** Failed calls *)

(** X11.  A call that returns -1 has changed nothing.  On a queue in a
    valid state, with a caller's buffer of the declared size, every
    result of [bit_queue_write_bits] or [bit_queue_read_bits] with return
    value -1 carries an [errno], the queue exactly as it was and the
    caller's buffer exactly as it was: no call fails after a partial
    transfer. *)
Theorem failed_call_changes_nothing (q : queue) (ring b : list Z) (n : Z)
    (e : option errno) (bq' : option queue) (buf' : option (list Z)) :
  queue_inv q -> buffer q = Some ring ->
  Z.of_nat (length ring) = buffer_size q ->
  8 * buffer_size q <= INT_MAX ->
  8 * Z.of_nat (length b) <= SIZE_MAX ->
  0 <= n ->
  bit_queue_write_bits (Some q) (Some b) (Z.of_nat (length b)) n = Ret (-1, e, bq', buf')
  \/ bit_queue_read_bits (Some q) (Some b) (Z.of_nat (length b)) n = Ret (-1, e, bq', buf') ->
  e <> None /\ bq' = Some q /\ buf' = Some b.
Proof.
  intros Hinv Hbuf Hlr Hsz Hlb Hn H.
  pose proof Hinv as (Hrb & Hri & Hwb & Hwi & Hw).
  assert (Hb8 : sz (Z.of_nat (length b) * BITS_IN_BYTE) = 8 * Z.of_nat (length b)).
  { unfold BITS_IN_BYTE, SIZE_MAX in *.
    rewrite sz_small by lia. lia. }
  assert (Hq8 : sz (buffer_size q * BITS_IN_BYTE) = 8 * buffer_size q).
  { unfold BITS_IN_BYTE. rewrite INT_MAX_val in Hsz.
    rewrite sz_small by (rewrite SIZE_MOD_val; lia). lia. }
  assert (Hbad : n = 0 \/ 8 * Z.of_nat (length b) < n \/ 8 * buffer_size q < n
                 \/ (0 < n <= 8 * Z.of_nat (length b) /\ n <= 8 * buffer_size q))
    by lia.
  destruct Hbad as [->|[Hbig|[Hcap|(Hn1 & Hn2)]]].
  - destruct H as [H|H]; cbn in H; injection H as <- <- <-;
      repeat split; discriminate.
  - destruct H as [H|H];
      [unfold bit_queue_write_bits in H | unfold bit_queue_read_bits in H];
      rewrite Hb8 in H;
      replace (8 * Z.of_nat (length b) <? n) with true in H
        by (symmetry; apply Z.ltb_lt; lia);
      rewrite orb_true_r in H; injection H as <- <- <-;
      repeat split; discriminate.
  - destruct H as [H|H];
      [unfold bit_queue_write_bits in H | unfold bit_queue_read_bits in H];
      rewrite Hbuf, Hq8 in H;
      replace (n >? 8 * buffer_size q) with true in H
        by (symmetry; rewrite Z.gtb_ltb; apply Z.ltb_lt; lia);
      destruct (_ || _); injection H as <- <- <-; repeat split; discriminate.
  - destruct H as [H|H].
    + rewrite (write_bits_enters_loop q ring b _ n Hinv Hbuf Hsz) in H by lia.
      destruct (Z.ltb_spec (8 * buffer_size q - written_bits q) n) as [Hfull|Hfree];
        [injection H as <- <- <-; repeat split; discriminate|].
      destruct (write_loop_pass (Z.to_nat n) q ring b n Hinv Hbuf Hlr Hsz Hlb Hn1
                  ltac:(lia)) as (Hrefused & Hdone).
      destruct (Z.lt_ge_cases
                  (8 * buffer_size q - bitpos (w_byte_offset q) (w_bit_offset q)) n)
        as [Hcross|Hfit].
      * rewrite (Hrefused Hcross) in H. cbn in H. injection H as <- <- <-.
        repeat split; discriminate.
      * destruct (Hdone Hfit) as (ring' & Hloop & _). rewrite Hloop in H.
        cbn [mbind outcome_bind] in H.
        replace (n =? -1) with false in H by (symmetry; apply Z.eqb_neq; lia).
        injection H as H _ _ _. lia.
    + destruct (Z.lt_ge_cases (written_bits q) n) as [Hempty|Hdata].
      * rewrite (read_bits_enters_loop q ring b _ n Hinv Hbuf Hsz) in H by lia.
        destruct (Z.ltb_spec (written_bits q) n); [|lia].
        injection H as <- <- <-. repeat split; discriminate.
      * rewrite (read_bits_enters_loop q ring b _ n Hinv Hbuf Hsz) in H by lia.
        destruct (Z.ltb_spec (written_bits q) n); [lia|].
        destruct (read_loop_succeeds (S (Z.to_nat n)) q ring b 0 0 n Hinv Hbuf Hlr
                    Hsz Hlb) as (ret & q1 & b1 & Hloop & Hret & _);
          unfold bitpos; try lia.
        rewrite Hloop in H. cbn [mbind outcome_bind] in H.
        replace (ret =? -1) with false in H by (symmetry; apply Z.eqb_neq; exact Hret).
        injection H as H _ _ _. lia.
Qed.

Lemma failed_call_changes_nothing_witness :
  let q := mk_bit_queue (Some [255; 15]) 4 1 4 1 0 2 true in
  Some EMSGSIZE <> None /\ Some q = Some q /\ Some [255] = Some [255].
Proof.
  intros q.
  apply (failed_call_changes_nothing q [255; 15] [255] 8 (Some EMSGSIZE) (Some q)
           (Some [255])); try zclosed.
  - unfold queue_inv; cbn; lia.
  - left. reflexivity.
Defined.

(** ** Termination of the loops *)

(** X12.  The loops end.  On a queue in a valid state whose capacity in
    bits fits an [int], the do-while loops of [bit_queue_write_bits] and
    [bit_queue_read_bits] end within [bit_count + 1] passes, and the loop
    of the transfer primitive ends within one pass more than the number
    of bits it copies, for any caller's buffer and any declared size:
    the remaining count goes down with every pass. *)
Theorem operations_terminate (q : queue) (ring b : list Z) (bsz n : Z) :
  queue_inv q -> buffer q = Some ring ->
  8 * buffer_size q <= INT_MAX ->
  is_size_t bsz -> 0 <= n ->
  Z.of_nat (length ring) < SIZE_MOD -> Z.of_nat (length b) < SIZE_MOD ->
  bit_queue_write_bits (Some q) (Some b) bsz n <> OutOfFuel
  /\ bit_queue_read_bits (Some q) (Some b) bsz n <> OutOfFuel
  /\ forall dby dbi dsz sby sbi ssz k,
       0 <= dby -> 0 <= dbi -> 0 <= sby -> 0 <= sbi -> 0 <= k ->
       bit_queue_bit_buffer_copy (Some ring) (Some b) dby dbi dsz sby sbi ssz k
       <> OutOfFuel.
Proof.
  intros Hinv Hbuf Hsz Hbs Hn Hlr Hlb. split; [|split].
  - exact (write_bits_returns q ring b bsz n Hinv Hbuf Hsz Hbs Hn Hlr Hlb).
  - exact (read_bits_returns q ring b bsz n Hinv Hbuf Hsz Hn Hlr Hlb).
  - intros dby dbi dsz sby sbi ssz k H1 H2 H3 H4 H5.
    apply copy_not_fuel; try assumption.
    + intros ? [= <-]. exact Hlr.
    + intros ? [= <-]. exact Hlb.
Qed.

Lemma operations_terminate_witness :
  let q := mk_bit_queue (Some [255; 15]) 4 1 4 1 12 2 true in
  bit_queue_write_bits (Some q) (Some [1; 2; 3]) 7 3 <> OutOfFuel
  /\ bit_queue_read_bits (Some q) (Some [1; 2; 3]) 7 11 <> OutOfFuel.
Proof.
  intros q.
  assert (Hq : queue_inv q) by (unfold queue_inv; cbn; lia).
  split.
  - apply (operations_terminate q [255; 15] [1; 2; 3] 7 3 Hq eq_refl);
      try zclosed; unfold is_size_t; zclosed.
  - apply (operations_terminate q [255; 15] [1; 2; 3] 7 11 Hq eq_refl);
      try zclosed; unfold is_size_t; zclosed.
Defined.

(** ** Transfers in two steps *)

(** X13.  The transfer primitive composes.  Copying [n1] bits and then
    [n2] bits, the second call starting where the first ended in both
    buffers, returns [n1] and [n2] and leaves the destination with the
    same bits as one call copying [n1 + n2] bits: how a transfer is cut
    into calls does not show in the result. *)
Theorem copy_in_two_steps (dst src : list Z) (dby dbi sby sbi n1 n2 : Z) :
  let dsz := Z.of_nat (length dst) in
  let ssz := Z.of_nat (length src) in
  0 <= dby -> 0 <= dbi < 8 -> 0 <= sby -> 0 <= sbi < 8 ->
  0 < n1 -> 0 < n2 ->
  8 * dsz <= SIZE_MAX -> 8 * ssz <= INT_MAX ->
  bitpos dby dbi + n1 + n2 <= 8 * dsz ->
  bitpos sby sbi + n1 + n2 <= 8 * ssz ->
  let dpos := bitpos dby dbi + n1 in
  let spos := bitpos sby sbi + n1 in
  exists d1 d2 d12,
    bit_queue_bit_buffer_copy (Some dst) (Some src) dby dbi dsz sby sbi ssz n1
    = Ret (n1, None, Some d1)
    /\ bit_queue_bit_buffer_copy (Some d1) (Some src)
         (dpos / 8) (dpos mod 8) dsz (spos / 8) (spos mod 8) ssz n2
       = Ret (n2, None, Some d2)
    /\ bit_queue_bit_buffer_copy (Some dst) (Some src) dby dbi dsz sby sbi ssz (n1 + n2)
       = Ret (n1 + n2, None, Some d12)
    /\ length d2 = length d12
    /\ forall j, bit_at d2 j = bit_at d12 j.
Proof.
  intros dsz ssz Hdby Hdbi Hsby Hsbi Hn1 Hn2 Hds Hss Hdfit Hsfit dpos spos.
  rewrite INT_MAX_val in Hss. unfold SIZE_MAX in Hds. rewrite SIZE_MOD_val in Hds.
  unfold bitpos in Hdfit, Hsfit.
  assert (Hs8 : sz (ssz * BITS_IN_BYTE) = ssz * 8)
    by (unfold BITS_IN_BYTE; apply sz_small; rewrite SIZE_MOD_val; lia).
  assert (Hvalid : forall a ai c ci k,
             0 <= a -> 0 <= ai < 8 -> 0 <= c -> 0 <= ci < 8 -> 0 < k ->
             8 * a + ai + k <= 8 * dsz -> 8 * c + ci + k <= 8 * ssz ->
             copy_args_invalid a ai dsz c ci ssz k = false).
  { intros a ai c ci k Ha Hai Hc Hci Hk Hd Hs.
    unfold copy_args_invalid. rewrite Hs8. unfold BITS_IN_BYTE.
    repeat (apply orb_false_intro); rewrite ?Z.geb_leb; zbool.
    apply Z.eqb_neq. lia. }
  assert (Hcall : forall d a ai c ci k,
             length d = length dst ->
             0 <= a -> 0 <= ai < 8 -> 0 <= c -> 0 <= ci < 8 -> 0 < k ->
             8 * a + ai + k <= 8 * dsz -> 8 * c + ci + k <= 8 * ssz ->
             exists d',
               bit_queue_bit_buffer_copy (Some d) (Some src) a ai dsz c ci ssz k
               = Ret (k, None, Some d')
               /\ bits_copied d src (bitpos a ai) (bitpos c ci) k d').
  { intros d a ai c ci k Hld Ha Hai Hc Hci Hk Hd Hs.
    destruct (copy_success d src a ai c ci k) as (d' & Hcp & Hbits);
      rewrite ?Hld; fold dsz ssz;
      try (unfold SIZE_MAX; rewrite SIZE_MOD_val); unfold bitpos; try lia.
    { apply Hvalid; assumption. }
    rewrite Hld in Hcp. fold dsz ssz in Hcp, Hbits. unfold bitpos in Hcp, Hbits.
    rewrite Z.min_l in Hcp, Hbits by lia.
    rewrite to_int_small in Hcp by (rewrite INT_MAX_val; lia).
    exists d'. split; [exact Hcp | exact Hbits]. }
  assert (Hdm : 0 <= dpos / 8 /\ 0 <= dpos mod 8 < 8
                /\ 8 * (dpos / 8) + dpos mod 8 = dpos)
    by (unfold dpos, bitpos; Z.div_mod_to_equations; lia).
  assert (Hsm : 0 <= spos / 8 /\ 0 <= spos mod 8 < 8
                /\ 8 * (spos / 8) + spos mod 8 = spos)
    by (unfold spos, bitpos; Z.div_mod_to_equations; lia).
  destruct (Hcall dst dby dbi sby sbi n1 eq_refl) as (d1 & Hc1 & Hlen1 & Hb1);
    try lia.
  destruct (Hcall d1 (dpos / 8) (dpos mod 8) (spos / 8) (spos mod 8) n2 Hlen1)
    as (d2 & Hc2 & Hlen2 & Hb2); try (unfold dpos, spos, bitpos in *; lia).
  destruct (Hcall dst dby dbi sby sbi (n1 + n2) eq_refl) as (d12 & Hc12 & Hlen12 & Hb12);
    try lia.
  exists d1, d2, d12. split; [exact Hc1|]. split; [exact Hc2|]. split; [exact Hc12|].
  split; [congruence|].
  intros j. rewrite Hb2, Hb1, Hb12. unfold bitpos.
  replace (8 * (dpos / 8) + dpos mod 8) with dpos by lia.
  replace (8 * (spos / 8) + spos mod 8) with spos by lia.
  replace (j - dpos + spos) with (j - (8 * dby + dbi) + (8 * sby + sbi))
    by (unfold dpos, spos, bitpos; lia).
  unfold dpos, bitpos.
  destruct (bit_at dst j), (bit_at src (j - (8 * dby + dbi) + (8 * sby + sbi)));
    rewrite ?orb_true_l, ?andb_true_r, ?andb_false_r, ?orb_false_r, ?orb_false_l;
    try reflexivity.
  destruct (Z.leb_spec (8 * dby + dbi) j), (Z.ltb_spec j (8 * dby + dbi + n1)),
    (Z.leb_spec (8 * dby + dbi + n1) j), (Z.ltb_spec j (8 * dby + dbi + n1 + n2)),
    (Z.ltb_spec j (8 * dby + dbi + (n1 + n2)));
    cbn [andb orb]; try reflexivity; lia.
Qed.

Lemma copy_in_two_steps_witness :
  exists d1 d2 d12,
    bit_queue_bit_buffer_copy (Some [0; 0; 0]) (Some [171; 205]) 0 3 3 0 1 2 5
    = Ret (5, None, Some d1)
    /\ bit_queue_bit_buffer_copy (Some d1) (Some [171; 205]) 1 0 3 0 6 2 6
       = Ret (6, None, Some d2)
    /\ bit_queue_bit_buffer_copy (Some [0; 0; 0]) (Some [171; 205]) 0 3 3 0 1 2 11
       = Ret (11, None, Some d12)
    /\ length d2 = length d12
    /\ forall j, bit_at d2 j = bit_at d12 j.
Proof.
  apply (copy_in_two_steps [0; 0; 0] [171; 205] 0 3 0 1 5 6); zclosed.
Defined.

(** ** Allocation and release *)

Lemma delete_insert_fresh (h : gmap Alloc.addr Alloc.block) p x :
  h !! p = None -> delete p (<[p := x]> h) = h.
Proof.
  intros Hp. apply map_eq. intros i.
  destruct (decide (i = p)) as [->|Hne];
    [rewrite lookup_delete_eq; congruence|].
  rewrite lookup_delete_ne, lookup_insert_ne by congruence. reflexivity.
Qed.

(** X14.  The constructors and the heap.  When [bit_queue_base_init] or
    [bit_queue_init] returns NULL, for a refused argument or a failed
    allocation, an [errno] is set and the heap is as it was: the structure
    allocated before a failed buffer allocation is released again.  When
    they return a queue, no [errno] is set, the pointer is new, it holds a
    queue structure of the requested capacity with a ring, and no block
    that was live before is touched. *)
Theorem constructors_and_heap (h : gmap Alloc.addr Alloc.block)
    (ok_bq ok_buffer : bool) (buff : option Alloc.addr) (byte_count : Z) (fb : bool)
    (r : option Alloc.addr) (e : option errno) (h' : gmap Alloc.addr Alloc.block) :
  Alloc.bit_queue_base_init ok_bq ok_buffer h byte_count = (r, e, h')
  \/ Alloc.bit_queue_init ok_bq h buff byte_count fb = (r, e, h') ->
  match r with
  | None => e <> None /\ h' = h
  | Some p =>
      e = None /\ byte_count <> 0 /\ h !! p = None
      /\ (exists q, h' !! p = Some (Alloc.Queue q)
                    /\ buffer_size q = byte_count /\ is_Some (buffer q))
      /\ forall a, is_Some (h !! a) -> h' !! a = h !! a
  end.
Proof.
  intros [H|H].
  - unfold Alloc.bit_queue_base_init, Alloc.calloc in H.
    destruct (Z.eqb_spec byte_count 0) as [Hz|Hz];
      [injection H as <- <- <-; split; [discriminate | reflexivity]|].
    destruct ok_bq; [|injection H as <- <- <-; split; [discriminate | reflexivity]].
    cbn iota zeta in H.
    set (p := fresh (dom h)) in *.
    assert (Hp : h !! p = None) by (apply not_elem_of_dom, is_fresh).
    destruct ok_buffer; cbn iota zeta in H.
    + set (h1 := <[p := _]> h) in *.
      set (b := fresh (dom h1)) in *.
      assert (Hb1 : h1 !! b = None) by (apply not_elem_of_dom, is_fresh).
      injection H as <- <- <-.
      split; [reflexivity|]. split; [exact Hz|]. split; [exact Hp|]. split.
      * eexists. rewrite lookup_insert_eq. split; [reflexivity|].
        queue_fields. split; [reflexivity | eauto].
      * intros a [blk Ha].
        assert (a <> p) by congruence.
        assert (a <> b).
        { intros ->. unfold h1 in Hb1. rewrite lookup_insert_ne in Hb1 by congruence.
          congruence. }
        rewrite !lookup_insert_ne by congruence. unfold h1.
        rewrite lookup_insert_ne by congruence. reflexivity.
    + injection H as <- <- <-. split; [discriminate|].
      apply delete_insert_fresh. exact Hp.
  - unfold Alloc.bit_queue_init, Alloc.calloc in H.
    destruct buff as [b|]; [|injection H as <- <- <-; split; [discriminate | reflexivity]].
    destruct (Z.eqb_spec byte_count 0) as [Hz|Hz];
      [injection H as <- <- <-; split; [discriminate | reflexivity]|].
    destruct ok_bq; [|injection H as <- <- <-; split; [discriminate | reflexivity]].
    cbn iota zeta in H.
    set (p := fresh (dom h)) in *.
    assert (Hp : h !! p = None) by (apply not_elem_of_dom, is_fresh).
    injection H as <- <- <-.
    split; [reflexivity|]. split; [exact Hz|]. split; [exact Hp|]. split.
    + eexists. rewrite lookup_insert_eq. split; [reflexivity|].
      queue_fields. split; [reflexivity | eauto].
    + intros a [blk Ha].
      assert (a <> p) by congruence.
      rewrite !lookup_insert_ne by congruence. reflexivity.
Qed.

Lemma constructors_and_heap_witness :
  let h : gmap Alloc.addr Alloc.block := <[3%positive := Alloc.Bytes [1; 2]]> ∅ in
  (Some ENOMEM <> None /\ h = h)
  /\ exists p h',
       Alloc.bit_queue_init true h (Some 3%positive) 2 false = (Some p, None, h')
       /\ h !! p = None
       /\ forall a, is_Some (h !! a) -> h' !! a = h !! a.
Proof.
  intros h. split.
  - apply (constructors_and_heap h true false None 2 false None (Some ENOMEM) h).
    left. reflexivity.
  - exists 4%positive.
    exists (<[4%positive := Alloc.Queue (mk_bit_queue (Some 3%positive) 0 0 0 0 16 2
                                                      false)]> h).
    split; [reflexivity|].
    destruct (constructors_and_heap h true true (Some 3%positive) 2 false
                (Some 4%positive) None
                (<[4%positive := Alloc.Queue (mk_bit_queue (Some 3%positive) 0 0 0 0
                                                           16 2 false)]> h)
                ltac:(right; reflexivity)) as (_ & _ & Hp & _ & Hkeep).
    split; [exact Hp | exact Hkeep].
Defined.

(** X15.  [bit_queue_destroy] and the heap.  NULL, or a live structure
    without a ring: -1 with EINVAL and the heap is as it was.  A live
    queue: the call returns 0 and releases the structure; it releases the
    buffer exactly when the queue owns it, and touches no other block.
    Afterwards the pointer dangles: a further [bit_queue_destroy] on it has
    no defined result.  A queue that owns a buffer that is no longer live
    has no defined result either. *)
Theorem destroy_contract (h : gmap Alloc.addr Alloc.block) (p : Alloc.addr)
    (q : bit_queue_t Alloc.addr) :
  h !! p = Some (Alloc.Queue q) ->
  Alloc.bit_queue_destroy h None = Ret (-1, Some EINVAL, h)
  /\ (buffer q = None ->
      Alloc.bit_queue_destroy h (Some p) = Ret (-1, Some EINVAL, h))
  /\ (forall b, buffer q = Some b -> b <> p ->
        (free_buff q = true -> is_Some (h !! b)) ->
        exists h',
          Alloc.bit_queue_destroy h (Some p) = Ret (0, None, h')
          /\ h' !! p = None
          /\ h' !! b = (if free_buff q then None else h !! b)
          /\ (forall a, a <> p -> a <> b -> h' !! a = h !! a)
          /\ Alloc.bit_queue_destroy h' (Some p) = Undef)
  /\ (forall b, buffer q = Some b -> free_buff q = true -> h !! b = None ->
        Alloc.bit_queue_destroy h (Some p) = Undef).
Proof.
  intros Hp. split; [reflexivity|]. unfold Alloc.bit_queue_destroy at 1 2 4.
  rewrite Hp.
  split; [intros ->; reflexivity|]. split.
  - intros b Hbuf Hne Hlive. rewrite Hbuf. unfold Alloc.free.
    destruct (free_buff q) eqn:Hfb.
    + destruct (Hlive eq_refl) as [blk Hb]. rewrite Hb. cbn [mbind outcome_bind].
      rewrite lookup_insert_eq. cbn [mbind outcome_bind].
      eexists. split; [reflexivity|]. rewrite delete_insert_eq.
      split; [apply lookup_delete_eq|]. split.
      * rewrite lookup_delete_ne by congruence. apply lookup_delete_eq.
      * split.
        -- intros a Hap Hab. rewrite !lookup_delete_ne by congruence. reflexivity.
        -- unfold Alloc.bit_queue_destroy. rewrite lookup_delete_eq. reflexivity.
    + cbn [mbind outcome_bind]. rewrite lookup_insert_eq. cbn [mbind outcome_bind].
      eexists. split; [reflexivity|]. rewrite delete_insert_eq.
      split; [apply lookup_delete_eq|]. split.
      * rewrite lookup_delete_ne by congruence. reflexivity.
      * split.
        -- intros a Hap Hab. rewrite lookup_delete_ne by congruence. reflexivity.
        -- unfold Alloc.bit_queue_destroy. rewrite lookup_delete_eq. reflexivity.
  - intros b Hbuf Hfb Hdead. rewrite Hbuf, Hfb. unfold Alloc.free. rewrite Hdead.
    reflexivity.
Qed.

Lemma destroy_contract_witness :
  let q : bit_queue_t Alloc.addr := mk_bit_queue (Some 3%positive) 0 0 0 0 16 2 false in
  let h : gmap Alloc.addr Alloc.block :=
    <[4%positive := Alloc.Queue q]> (<[3%positive := Alloc.Bytes [1; 2]]> ∅) in
  Alloc.bit_queue_destroy h None = Ret (-1, Some EINVAL, h)
  /\ exists h',
       Alloc.bit_queue_destroy h (Some 4%positive) = Ret (0, None, h')
       /\ h' !! 4%positive = None
       /\ h' !! 3%positive = Some (Alloc.Bytes [1; 2])
       /\ Alloc.bit_queue_destroy h' (Some 4%positive) = Undef.
Proof.
  intros q h.
  destruct (destroy_contract h 4%positive q eq_refl) as (Hnull & _ & Hlive & _).
  split; [exact Hnull|].
  destruct (Hlive 3%positive eq_refl ltac:(discriminate) ltac:(discriminate))
    as (h' & Hcall & Hp & Hb & _ & Hagain).
  exists h'. split; [exact Hcall|]. split; [exact Hp|].
  split; [exact Hb | exact Hagain].
Defined.

(** X16.  Construction followed by destruction.  A queue made by
    [bit_queue_base_init] and destroyed leaves the heap exactly as it was
    before the construction: nothing leaks.  A queue made by
    [bit_queue_init] around a live buffer and destroyed leaves the heap
    as it was when the queue does not own the buffer, and without the
    buffer when it does.  Both calls of [bit_queue_destroy] return 0. *)
Theorem create_then_destroy (h : gmap Alloc.addr Alloc.block) (byte_count : Z)
    (b : Alloc.addr) (blk : Alloc.block) (fb : bool) :
  byte_count <> 0 -> h !! b = Some blk ->
  (exists p h',
     Alloc.bit_queue_base_init true true h byte_count = (Some p, None, h')
     /\ Alloc.bit_queue_destroy h' (Some p) = Ret (0, None, h))
  /\ (exists p h',
        Alloc.bit_queue_init true h (Some b) byte_count fb = (Some p, None, h')
        /\ Alloc.bit_queue_destroy h' (Some p)
           = Ret (0, None, if fb then delete b h else h)).
Proof.
  intros Hn Hb. split.
  - destruct (alloc_base_init_load h byte_count Hn) as (p & h' & Hinit & _ & _).
    exists p, h'. split; [exact Hinit|].
    exact (proj1 (destroy_after_base_init h byte_count p None h' Hn Hinit)).
  - unfold Alloc.bit_queue_init, Alloc.calloc.
    replace (byte_count =? 0) with false by (symmetry; apply Z.eqb_neq; exact Hn).
    cbn iota zeta.
    set (p := fresh (dom h)).
    assert (Hp : h !! p = None) by (apply not_elem_of_dom, is_fresh).
    assert (Hne : p <> b) by congruence.
    eexists p, _. split; [reflexivity|].
    unfold Alloc.bit_queue_destroy. rewrite lookup_insert_eq. queue_fields.
    unfold Alloc.free. destruct fb.
    + rewrite !lookup_insert_ne by congruence. rewrite Hb.
      cbn [mbind outcome_bind]. rewrite lookup_insert_eq. cbn [mbind outcome_bind].
      f_equal. f_equal. rewrite delete_insert_eq.
      apply map_eq. intros i.
      destruct (decide (i = p)) as [->|Hip].
      * rewrite lookup_delete_eq. rewrite lookup_delete_ne by congruence.
        congruence.
      * rewrite lookup_delete_ne by congruence.
        destruct (decide (i = b)) as [->|Hib].
        -- rewrite !lookup_delete_eq. reflexivity.
        -- rewrite !lookup_delete_ne by congruence.
           rewrite !lookup_insert_ne by congruence. reflexivity.
    + cbn [mbind outcome_bind]. rewrite lookup_insert_eq. cbn [mbind outcome_bind].
      f_equal. f_equal. rewrite !delete_insert_eq.
      apply map_eq. intros i.
      destruct (decide (i = p)) as [->|Hip].
      * rewrite lookup_delete_eq. congruence.
      * rewrite lookup_delete_ne by congruence. reflexivity.
Qed.

Lemma create_then_destroy_witness :
  let h : gmap Alloc.addr Alloc.block := <[3%positive := Alloc.Bytes [1; 2]]> ∅ in
  (exists p h',
     Alloc.bit_queue_base_init true true h 2 = (Some p, None, h')
     /\ Alloc.bit_queue_destroy h' (Some p) = Ret (0, None, h))
  /\ (exists p h',
        Alloc.bit_queue_init true h (Some 3%positive) 2 true = (Some p, None, h')
        /\ Alloc.bit_queue_destroy h' (Some p) = Ret (0, None, delete 3%positive h)).
Proof.
  intros h.
  apply (create_then_destroy h 2 3%positive (Alloc.Bytes [1; 2]) true);
    [discriminate | reflexivity].
Defined.

(** ** The mask macros *)

(** X17.  The two mask macros, for the bit offsets 0 to 8 that the copy
    loop passes: [CREATE_BYTE_MASK] keeps bits [bit_offset] to 7 of a
    byte, [CREATE_BYTE_MASK_LSB] is that mask moved down to bit 0, the
    [8 - bit_offset] low bits. *)
Theorem byte_mask_bits (k : Z) :
  0 <= k <= 8 ->
  CREATE_BYTE_MASK k = 256 - 2 ^ k
  /\ CREATE_BYTE_MASK_LSB k = 2 ^ (8 - k) - 1
  /\ forall i,
       Z.testbit (CREATE_BYTE_MASK k) i = (k <=? i) && (i <? 8)
       /\ Z.testbit (CREATE_BYTE_MASK_LSB k) i = (0 <=? i) && (i <? 8 - k).
Proof.
  intros Hk.
  assert (Hc : k = 0 \/ k = 1 \/ k = 2 \/ k = 3 \/ k = 4 \/ k = 5 \/ k = 6
               \/ k = 7 \/ k = 8) by lia.
  split; [|split].
  - destruct Hc as [->|[->|[->|[->|[->|[->|[->|[->| ->]]]]]]]]; reflexivity.
  - destruct Hc as [->|[->|[->|[->|[->|[->|[->|[->| ->]]]]]]]]; reflexivity.
  - intros i. destruct (Z.ltb_spec i 0) as [Hneg|Hpos].
    + rewrite !Z.testbit_neg_r by lia.
      replace (k <=? i) with false by (symmetry; apply Z.leb_gt; lia).
      replace (0 <=? i) with false by (symmetry; apply Z.leb_gt; lia).
      split; reflexivity.
    + split.
      * unfold CREATE_BYTE_MASK, BYTE_MASK. change 255 with (Z.ones 8).
        rewrite Z.land_spec, Z.shiftl_spec by lia.
        rewrite (Z.testbit_ones_nonneg 8 i) by lia.
        destruct (Z.leb_spec k i).
        -- rewrite Z.testbit_ones_nonneg by lia.
           destruct (Z.ltb_spec (i - k) 8), (Z.ltb_spec i 8);
             try reflexivity; lia.
        -- rewrite Z.testbit_neg_r by lia. reflexivity.
      * rewrite mask_lsb_ones by exact Hk.
        rewrite Z.testbit_ones_nonneg by lia.
        replace (0 <=? i) with true by (symmetry; apply Z.leb_le; lia).
        reflexivity.
Qed.

Lemma byte_mask_bits_witness :
  CREATE_BYTE_MASK 3 = 248 /\ CREATE_BYTE_MASK_LSB 3 = 31.
Proof.
  destruct (byte_mask_bits 3 ltac:(zclosed)) as (H1 & H2 & _).
  split; [exact H1 | exact H2].
Defined.

(** ** Round trip at any position of the ring *)

Lemma wrap_cursors_agree byte_offset bit_offset n size :
  0 <= byte_offset -> 0 <= bit_offset < 8 -> 0 <= n ->
  bitpos byte_offset bit_offset + n <= 8 * size ->
  8 * size <= SIZE_MAX ->
  wrap_read_cursor size (advance_cursor byte_offset bit_offset n)
  = wrap_write_cursor size (advance_cursor byte_offset bit_offset n).
Proof.
  unfold bitpos. intros Hb Hi Hn Hfit Hs.
  destruct (advance_cursor_bounds byte_offset bit_offset n size Hb Hi Hn Hfit Hs)
    as (_ & _ & H3 & _).
  unfold wrap_read_cursor, wrap_write_cursor.
  destruct (Z.eqb_spec (fst (advance_cursor byte_offset bit_offset n)) size) as [E|E];
    [|reflexivity].
  rewrite (H3 E). reflexivity.
Qed.

(** X18.  Round trip at any position of the ring, for any bit count.  On
    an empty queue in a valid state with [buffer_size*8 <= INT_MAX] whose
    two cursors stand at the same position, [bit_count] bits that end at or before the end of the ring
    are written and read back into a cleared buffer: both calls return
    [bit_count], the queue is empty again with its cursors at one
    position, and the bits read are the bits written OR-ed with what the
    ring held at these positions.  Where the ring was clear the bits read
    are the bits written; a bit left set by an earlier lap comes back as
    1.  The [uint8_t] bit offsets do not matter here: both cursors are
    advanced by the same computation. *)
Theorem write_then_read_back (q : queue) (ring b : list Z) (n : Z) :
  queue_inv q -> buffer q = Some ring ->
  Z.of_nat (length ring) = buffer_size q ->
  8 * buffer_size q <= INT_MAX ->
  8 * Z.of_nat (length b) <= SIZE_MAX ->
  0 < n <= 8 * Z.of_nat (length b) ->
  written_bits q = 0 ->
  r_byte_offset q = w_byte_offset q -> r_bit_offset q = w_bit_offset q ->
  let pos := bitpos (w_byte_offset q) (w_bit_offset q) in
  pos + n <= 8 * buffer_size q ->
  exists q1 q2 b',
    bit_queue_write_bits (Some q) (Some b) (Z.of_nat (length b)) n
    = Ret (n, None, Some q1, Some b)
    /\ bit_queue_read_bits (Some q1) (Some (replicate (length b) 0))
         (Z.of_nat (length b)) n
       = Ret (n, None, Some q2, Some b')
    /\ queue_inv q2 /\ written_bits q2 = 0
    /\ r_byte_offset q2 = w_byte_offset q2 /\ r_bit_offset q2 = w_bit_offset q2
    /\ (forall j, 0 <= j < n -> bit_at b' j = bit_at b j || bit_at ring (pos + j))
    /\ (forall j, n <= j -> bit_at b' j = false)
    /\ ((forall j, pos <= j < pos + n -> bit_at ring j = false) ->
        forall j, 0 <= j < n -> bit_at b' j = bit_at b j).
Proof.
  intros Hinv Hbuf Hlr Hsz Hlb Hn Hempty Hrby Hrbi pos Hfit.
  pose proof Hinv as (Hrb & Hri & Hwb & Hwi & Hw).
  assert (Hsz' : 8 * buffer_size q <= SIZE_MAX)
    by (rewrite INT_MAX_val in Hsz; unfold SIZE_MAX; rewrite SIZE_MOD_val; lia).
  assert (Hcap : n <= 8 * buffer_size q) by (unfold pos, bitpos in Hfit; lia).
  (* the write *)
  assert (Hwrite := write_bits_enters_loop q ring b (Z.of_nat (length b)) n
                      Hinv Hbuf Hsz ltac:(lia) Hlb Hn Hcap).
  destruct (Z.ltb_spec (8 * buffer_size q - written_bits q) n); [lia|].
  destruct (write_loop_pass (Z.to_nat n) q ring b n Hinv Hbuf Hlr Hsz Hlb Hn
              ltac:(lia)) as (_ & Hdone).
  destruct (Hdone ltac:(fold pos; lia)) as (ring' & Hloop & Hlen' & Hbits').
  fold pos in Hbits'. cbn zeta in Hloop.
  rewrite Hloop in Hwrite. cbn [mbind outcome_bind] in Hwrite.
  replace (n =? -1) with false in Hwrite by (symmetry; apply Z.eqb_neq; lia).
  set (c := wrap_write_cursor (buffer_size q)
              (advance_cursor (w_byte_offset q) (w_bit_offset q) n)) in *.
  set (q1 := set_write_cursor q (Some ring') (snd c) (fst c) (written_bits q + n)) in *.
  assert (Hinv1 : queue_inv q1)
    by exact (write_bits_inv q (Some b) _ n n None q1 (Some b) Hinv Hsz
                ltac:(lia) Hwrite).
  (* the read *)
  set (z := replicate (length b) 0).
  assert (Hlz : length z = length b) by apply length_replicate.
  assert (Hlr1 : Z.of_nat (length ring') = buffer_size q1)
    by (rewrite Hlen'; exact Hlr).
  assert (Hread := read_bits_enters_loop q1 ring' z (Z.of_nat (length b)) n
                     Hinv1 eq_refl Hsz ltac:(lia) Hlb Hn Hcap).
  change (written_bits q1) with (written_bits q + n) in Hread.
  destruct (Z.ltb_spec (written_bits q + n) n); [lia|].
  destruct (read_loop_pass (Z.to_nat n) q1 ring' z n Hinv1 eq_refl Hlr1 Hsz)
    as (b' & Hrloop & Hlenb & Hbitsb);
    rewrite ?Hlz; try assumption;
    try (unfold q1, set_write_cursor, bitpos; queue_fields;
         unfold pos, bitpos in Hfit; lia).
  rewrite Hlz in Hrloop. rewrite Hrloop in Hread. cbn [mbind outcome_bind] in Hread.
  replace (n =? -1) with false in Hread by (symmetry; apply Z.eqb_neq; lia).
  change (bitpos (r_byte_offset q1) (r_bit_offset q1))
    with (bitpos (r_byte_offset q) (r_bit_offset q)) in Hbitsb.
  rewrite Hrby, Hrbi in Hbitsb. fold pos in Hbitsb.
  assert (Hall : forall j, bit_at b' j
                 = (0 <=? j) && (j <? n) && (bit_at b j || bit_at ring (pos + j))).
  { intros j. rewrite Hbitsb. unfold z. rewrite bit_at_zeros. cbn [orb].
    rewrite Z.add_0_l, Z.sub_0_r.
    destruct (Z.leb_spec 0 j), (Z.ltb_spec j n); cbn [andb]; try reflexivity.
    rewrite Hbits'.
    replace (pos <=? j + pos) with true by (symmetry; apply Z.leb_le; lia).
    replace (j + pos <? pos + n) with true by (symmetry; apply Z.ltb_lt; lia).
    cbn [andb].
    replace (j + pos - pos + 0) with j by lia.
    replace (j + pos) with (pos + j) by lia. apply orb_comm. }
  match type of Hread with
  | _ = Ret (_, _, Some ?t, _) => set (q2 := t) in *
  end.
  assert (Hinv2 : queue_inv q2)
    by exact (read_bits_inv q1 (Some z) _ n n None q2 (Some b') Hinv1 Hsz
                ltac:(lia) Hread).
  assert (Hagree := wrap_cursors_agree (w_byte_offset q) (w_bit_offset q) n
                      (buffer_size q) ltac:(lia) ltac:(lia) ltac:(lia)
                      ltac:(fold pos; lia) Hsz').
  exists q1, q2, b'. split; [exact Hwrite|]. split; [exact Hread|].
  split; [exact Hinv2|].
  split; [unfold q2, q1, set_read_cursor, set_write_cursor; queue_fields; lia|].
  split; [unfold q2, q1, set_read_cursor, set_write_cursor; queue_fields;
          rewrite Hrby, Hrbi, Hagree; reflexivity|].
  split; [unfold q2, q1, set_read_cursor, set_write_cursor; queue_fields;
          rewrite Hrby, Hrbi, Hagree; reflexivity|].
  split; [|split].
  - intros j Hj. rewrite Hall.
    replace (0 <=? j) with true by (symmetry; apply Z.leb_le; lia).
    replace (j <? n) with true by (symmetry; apply Z.ltb_lt; lia). reflexivity.
  - intros j Hj. rewrite Hall.
    replace (j <? n) with false by (symmetry; apply Z.ltb_ge; lia).
    rewrite andb_false_r. reflexivity.
  - intros Hclear j Hj. rewrite Hall, (Hclear (pos + j)) by lia.
    replace (0 <=? j) with true by (symmetry; apply Z.leb_le; lia).
    replace (j <? n) with true by (symmetry; apply Z.ltb_lt; lia).
    cbn [andb]. apply orb_false_r.
Qed.

Lemma write_then_read_back_witness :
  let q := mk_bit_queue (Some [255; 0]) 0 1 0 1 0 2 true in
  exists q1 q2 b',
    bit_queue_write_bits (Some q) (Some [165]) 1 8 = Ret (8, None, Some q1, Some [165])
    /\ bit_queue_read_bits (Some q1) (Some [0]) 1 8 = Ret (8, None, Some q2, Some b')
    /\ written_bits q2 = 0
    /\ forall j, 0 <= j < 8 -> bit_at b' j = bit_at [165] j.
Proof.
  intros q.
  assert (Hq : queue_inv q) by (unfold queue_inv; cbn; lia).
  destruct (write_then_read_back q [255; 0] [165] 8 Hq eq_refl eq_refl
              ltac:(zclosed) ltac:(zclosed) ltac:(zclosed) eq_refl eq_refl eq_refl
              ltac:(zclosed))
    as (q1 & q2 & b' & Hwrite & Hread & _ & Hwr & _ & _ & _ & _ & Hclear).
  exists q1, q2, b'. split; [exact Hwrite|]. split; [exact Hread|].
  split; [exact Hwr|]. apply Hclear.
  intros j Hj.
  assert (Hc : j = 8 \/ j = 9 \/ j = 10 \/ j = 11 \/ j = 12 \/ j = 13 \/ j = 14
               \/ j = 15)
    by (unfold q, bitpos in Hj; cbn [w_byte_offset w_bit_offset] in Hj; lia).
  destruct Hc as [->|[->|[->|[->|[->|[->|[->| ->]]]]]]]; reflexivity.
Defined.
